(** * Dovetail joint generator for Shaper Origin: parameter check and layout

    A shallow embedding of [shaper_origin_dovetails.py] together with the
    parts of [shaper_origin_base.py] and [shaper_origin_anchor_utils.py] it
    calls.

    Conventions of the embedding:
    - a Python [float] is a real number ([R]); the arithmetic of the source
      is read as exact arithmetic, [math.tan] as [tan] and [math.radians]
      as multiplication by [PI / 180];
    - a Python [int] is a [Z]; [%] is [Z.modulo] (both take the sign of the
      divisor); an [int] meeting a [float] is injected with [IZR];
    - the extension object, the current layer of the document and the
      host's error channel form one record, threaded through a state and
      exception monad; an attribute that is still [None] is [None] here, and
      arithmetic on it raises [TypeError] as it does in Python;
    - an f-string is kept as its template (a constructor) applied to the
      interpolated values;
    - the [while] loop of [add_tail_cuts] runs on fuel. *)

From Stdlib Require Import Reals ZArith List String Lra Lia Psatz.
Import ListNotations.

Open Scope R_scope.

(** ** shaper_origin_base.py *)

Module Base.

(** [RoutingType]: each member is a (fill, stroke) pair of colours. *)
Inductive RoutingType : Type :=
| GUIDE
| INTERIOR
| EXTERIOR
| ON_LINE
| POCKET.

Definition Color : Type := option string.

Definition fill (t : RoutingType) : Color :=
  match t with
  | GUIDE => Some "#0068ff"%string
  | INTERIOR => Some "#ffffff"%string
  | EXTERIOR => Some "#000000"%string
  | ON_LINE => None
  | POCKET => Some "#7f7f7f"%string
  end.

Definition stroke (t : RoutingType) : Color :=
  match t with
  | GUIDE => Some "#0068ff"%string
  | INTERIOR => Some "#000000"%string
  | EXTERIOR => Some "#000000"%string
  | ON_LINE => Some "#7f7f7f"%string
  | POCKET => None
  end.

(** The style attributes the extensions touch. *)
Record Style : Type := mkStyle {
  style_fill : Color;
  style_stroke : Color;
  style_hairline : bool;
  style_font_size : option R;
  style_bold : bool
}.

Definition empty_style : Style := mkStyle None None false None false.

(** [RoutingType.apply_to(element, set_hairline=True)]. *)
Definition apply_to (t : RoutingType) (set_hairline : bool) (st : Style) : Style :=
  mkStyle (fill t) (stroke t)
          (if set_hairline then true else style_hairline st)
          (style_font_size st) (style_bold st).

(** The value of the [shaper:cutDepth] attribute: the depth (printed with
    three decimals in the source) and its dimension. *)
Definition CutDepth : Type := (R * string)%type.

Definition Point : Type := (R * R)%type.

(** The templates of the annotation texts, with the interpolated values. *)
Inductive Annotation : Type :=
| PinPatternNote
| SetCuttingDepthNote (depth : R)
| TailPatternNote
| AnyStraightCutterNote
| CuttingDiameterNote (diameter : R)
| NoIncrementalDepthNote
| BuffersNote
| SkipTextNote
| AmountOfPathsNote.

(** What the extensions add to the current layer. The last field of a
    rectangle and of a path is its [shaper:cutDepth] attribute, [None] when
    the element has none. *)
Inductive Element : Type :=
| Rectangle (x y width height : R) (st : Style) (depth : option CutDepth)
| PathElement (points : list Point) (st : Style) (depth : option CutDepth)
| Polygon (points : list Point) (st : Style)
| TextElement (x y : R) (text : Annotation) (st : Style).

(** [add_depth_info]: the value stored under [shaper:cutDepth]. *)
Definition add_depth_info (depth : R) (dimension : string) : CutDepth :=
  (depth, dimension).

(** An [inkex.Polygon] that is not in the document yet: its points, its
    style and its [shaper:cutDepth] attribute. *)
Record Shape : Type := mkShape {
  shape_points : list Point;
  shape_style : Style;
  shape_depth : option CutDepth
}.

(** [ShapeElement.to_path_element()] of inkex: a new path element that is
    given the path, the style and the transform of the shape. No other
    attribute of the shape is copied, so the path has no [shaper:cutDepth]
    whatever the shape had. *)
Definition to_path_element (shape : Shape) : Element :=
  PathElement (shape_points shape) (shape_style shape) None.

Definition __FONT_SIZE__ : R := 4.
Definition __LINE_HEIGHT__ : R := __FONT_SIZE__ * (16 / 10).

End Base.

Import Base.

(** ** shaper_origin_anchor_utils.py *)

Module AnchorUtils.

Inductive AxisOrientation : Type := RT | RB | LT | LB.

(** [create_anchor_polygon(axis_orientation, x, y, x_size)]. *)
Definition create_anchor_polygon (axis_orientation : AxisOrientation)
    (x y x_size : R) : Element :=
  let y_size := 2 * x_size in
  let p0 := (x, y) in
  let '(p1, p2) :=
    match axis_orientation with
    | RT => ((x, y - y_size), (x + x_size, y))
    | RB => ((x + x_size, y), (x, y + y_size))
    | LT => ((x - x_size, y), (x, y - y_size))
    | LB => ((x - x_size, y), (x, y + y_size))
    end in
  Polygon [p0; p1; p2]
          (mkStyle (Some "#ff0000"%string) None false None false).

End AnchorUtils.

Import AnchorUtils.

(** ** shaper_origin_dovetails.py *)

Definition __OVERCUTTING_BUFFER_FACTOR__ : R := 55 / 100.
Definition __LOWER_OVERCUTTING_BUFFER_DOVETAIL_BIT_FACTOR__ : R := 1.
Definition __HORIZONTAL_BUFFER__ : R := 2.
Definition __VERTICAL_OFFSET_BOARDS__ : R := 50.

(** The command line options ([add_arguments]). *)
Record Options : Type := mkOptions {
  cut_angle : R;
  tail_bit_diameter : R;
  pin_bit_diameter : R;
  tail_thickness : R;
  pin_thickness : R;
  width : R;
  width_tails : R;
  num_tails : Z
}.

(** The defaults of [add_arguments]. *)
Definition default_options : Options :=
  mkOptions 15 (138 / 10) 8 15 15 150 20 2.

(** The four messages [__calc_and_check_parameters] can return, in the
    order of the checks, with the values each one interpolates. *)
Inductive ErrorMessage : Type :=
| DiameterNonPositive (angle bit_diameter thickness : R)
| TailNarrowerThanPinBit (tails_width smaller_width straight_bit : R)
| TailsExceedBoardWidth (cumulative board : R) (padding_hint : bool)
| InterTailCutTooNarrow (cut_width upper_diameter thickness : R).

(** The extension object with the document it draws into. The five
    attributes of [__init__] start as [None]. *)
Record Extension : Type := mkExtension {
  options : Options;
  inkscape_scale : R;
  tan_cut_angle : option R;
  is_odd_number_of_tails : option bool;
  upper_tail_diameter : option R;
  smaller_width_tails : option R;
  individual_width_of_tail_cut : option R;
  current_layer : list Element;
  errormsgs : list ErrorMessage
}.

(** [__init__], on a document with the given scale and layer content. *)
Definition init (o : Options) (scale : R) (layer : list Element) : Extension :=
  mkExtension o scale None None None None None layer [].

Definition set_tan_cut_angle (v : R) (s : Extension) : Extension :=
  mkExtension (options s) (inkscape_scale s) (Some v)
    (is_odd_number_of_tails s) (upper_tail_diameter s)
    (smaller_width_tails s) (individual_width_of_tail_cut s)
    (current_layer s) (errormsgs s).

Definition set_is_odd_number_of_tails (v : bool) (s : Extension) : Extension :=
  mkExtension (options s) (inkscape_scale s) (tan_cut_angle s)
    (Some v) (upper_tail_diameter s)
    (smaller_width_tails s) (individual_width_of_tail_cut s)
    (current_layer s) (errormsgs s).

Definition set_upper_tail_diameter (v : R) (s : Extension) : Extension :=
  mkExtension (options s) (inkscape_scale s) (tan_cut_angle s)
    (is_odd_number_of_tails s) (Some v)
    (smaller_width_tails s) (individual_width_of_tail_cut s)
    (current_layer s) (errormsgs s).

Definition set_smaller_width_tails (v : R) (s : Extension) : Extension :=
  mkExtension (options s) (inkscape_scale s) (tan_cut_angle s)
    (is_odd_number_of_tails s) (upper_tail_diameter s)
    (Some v) (individual_width_of_tail_cut s)
    (current_layer s) (errormsgs s).

Definition set_individual_width_of_tail_cut (v : R) (s : Extension) : Extension :=
  mkExtension (options s) (inkscape_scale s) (tan_cut_angle s)
    (is_odd_number_of_tails s) (upper_tail_diameter s)
    (smaller_width_tails s) (Some v)
    (current_layer s) (errormsgs s).

(** [layer.add(element)]: the element becomes the last child. *)
Definition layer_add (e : Element) (s : Extension) : Extension :=
  mkExtension (options s) (inkscape_scale s) (tan_cut_angle s)
    (is_odd_number_of_tails s) (upper_tail_diameter s)
    (smaller_width_tails s) (individual_width_of_tail_cut s)
    (current_layer s ++ [e]) (errormsgs s).

(** [inkex.utils.errormsg(msg)]. *)
Definition emit_errormsg (m : ErrorMessage) (s : Extension) : Extension :=
  mkExtension (options s) (inkscape_scale s) (tan_cut_angle s)
    (is_odd_number_of_tails s) (upper_tail_diameter s)
    (smaller_width_tails s) (individual_width_of_tail_cut s)
    (current_layer s) (errormsgs s ++ [m]).

(** *** The state and exception monad of the methods *)

Inductive PyException : Type :=
| ZeroDivisionError
| AssertionError
| TypeError.

Inductive Completion (A : Type) : Type :=
| Normal (a : A) (s : Extension)
| Raised (e : PyException)
| OutOfFuel.

Arguments Normal {A} a s.
Arguments Raised {A} e.
Arguments OutOfFuel {A}.

Definition M (A : Type) : Type := Extension -> Completion A.

Definition ret {A : Type} (a : A) : M A := fun s => Normal a s.

Definition bind {A B : Type} (c : M A) (k : A -> M B) : M B :=
  fun s =>
    match c s with
    | Normal a s' => k a s'
    | Raised e => Raised e
    | OutOfFuel => OutOfFuel
    end.

Definition raise {A : Type} (e : PyException) : M A := fun _ => Raised e.

Definition gets {A : Type} (f : Extension -> A) : M A := fun s => Normal (f s) s.

Definition modify (f : Extension -> Extension) : M unit := fun s => Normal tt (f s).

(** Reading an attribute for arithmetic: [None] raises [TypeError]. *)
Definition attr {A : Type} (f : Extension -> option A) : M A :=
  fun s =>
    match f s with
    | Some v => Normal v s
    | None => Raised TypeError
    end.

(** An attribute in a condition: [None] is false. *)
Definition truthy (f : Extension -> option bool) : M bool :=
  fun s =>
    match f s with
    | Some b => Normal b s
    | None => Normal false s
    end.

Declare Scope py_scope.
Delimit Scope py_scope with py.
Notation "x <- c ;; k" := (bind c (fun x => k))
  (at level 61, c at next level, right associativity) : py_scope.
Notation "c ;;; k" := (bind c (fun _ => k))
  (at level 61, right associativity) : py_scope.
Open Scope py_scope.

(** [math.radians]. *)
Definition radians (x : R) : R := x * (PI / 180).

(** [calculate_upper_tail_diameter]. *)
Definition calculate_upper_tail_diameter : M R :=
  o <- gets options ;;
  t <- attr tan_cut_angle ;;
  ret (tail_bit_diameter o - 2 * t * pin_thickness o).

(** [num_tail_cuts]. *)
Definition num_tail_cuts : M Z :=
  o <- gets options ;;
  odd <- truthy is_odd_number_of_tails ;;
  ret (if odd then (num_tails o + 1)%Z else num_tails o).

(** [float / int], raising on a zero divisor. *)
Definition div_int (a : R) (n : Z) : M R :=
  if Z.eqb n 0 then raise ZeroDivisionError else ret (a / IZR n).

(** [assert b]. *)
Definition assert (b : bool) : M unit :=
  if b then ret tt else raise AssertionError.

(** [__calc_and_check_parameters]: the message of the first check that
    fails, or [None]. *)
Definition calc_and_check_parameters : M (option ErrorMessage) :=
  o <- gets options ;;
  modify (set_tan_cut_angle (tan (radians (cut_angle o)))) ;;;
  modify (set_is_odd_number_of_tails (Z.eqb (num_tails o mod 2) 1)) ;;;
  d <- calculate_upper_tail_diameter ;;
  modify (set_upper_tail_diameter d) ;;;
  utd <- attr upper_tail_diameter ;;
  if Rle_dec utd 0 then
    ret (Some (DiameterNonPositive (cut_angle o) (tail_bit_diameter o)
                                   (pin_thickness o)))
  else
  utd <- attr upper_tail_diameter ;;
  modify (set_smaller_width_tails
            (width_tails o - (tail_bit_diameter o - utd))) ;;;
  swt <- attr smaller_width_tails ;;
  if Rlt_dec swt (pin_bit_diameter o) then
    ret (Some (TailNarrowerThanPinBit (width_tails o) swt (pin_bit_diameter o)))
  else
  n <- num_tail_cuts ;;
  let cumulative_tail_width := IZR n * width_tails o in
  if Rge_dec cumulative_tail_width (width o) then
    odd <- truthy is_odd_number_of_tails ;;
    ret (Some (TailsExceedBoardWidth cumulative_tail_width (width o) odd))
  else
  let cumulative_width_of_cuts_between_tails :=
    width o - cumulative_tail_width in
  assert (if Rgt_dec cumulative_width_of_cuts_between_tails 0
          then true else false) ;;;
  n <- num_tail_cuts ;;
  w <- div_int cumulative_width_of_cuts_between_tails n ;;
  modify (set_individual_width_of_tail_cut w) ;;;
  n <- num_tail_cuts ;;
  w <- div_int cumulative_width_of_cuts_between_tails n ;;
  modify (set_individual_width_of_tail_cut w) ;;;
  iw <- attr individual_width_of_tail_cut ;;
  utd <- attr upper_tail_diameter ;;
  if Rlt_dec iw utd then
    pt <- gets (fun s => pin_thickness (options s)) ;;
    ret (Some (InterTailCutTooNarrow iw utd pt))
  else
    ret None.

(** [du2uu]: document units to user units. *)
Definition du2uu (doc_unit_value : R) : M R :=
  sc <- gets inkscape_scale ;;
  if Req_dec_T sc 0 then raise ZeroDivisionError
  else ret (doc_unit_value / sc).

(** [du2uu_points]. *)
Fixpoint du2uu_points (points : list Point) : M (list Point) :=
  match points with
  | [] => ret []
  | p :: rest =>
      x <- du2uu (fst p) ;;
      y <- du2uu (snd p) ;;
      rest' <- du2uu_points rest ;;
      ret ((x, y) :: rest')
  end.

(** [add_text(x, y, text, font_size=__FONT_SIZE__, bold=False)]. *)
Definition add_text (x y : R) (text : Annotation) (bold : bool) : M unit :=
  let st := apply_to GUIDE true empty_style in
  font_size_uu <- du2uu __FONT_SIZE__ ;;
  x' <- du2uu x ;;
  y' <- du2uu y ;;
  let st := mkStyle (style_fill st) (Some "none"%string) (style_hairline st)
                    (Some font_size_uu) bold in
  modify (layer_add (TextElement x' y' text st)).

(** [add_box(x0, y0, x1, y1, routing_type, depth)]. *)
Definition add_box (x0 y0 x1 y1 : R) (routing_type : RoutingType)
    (depth : option R) : M Element :=
  x <- du2uu (Rmin x0 x1) ;;
  y <- du2uu (Rmin y0 y1) ;;
  w <- du2uu (Rabs (x1 - x0)) ;;
  h <- du2uu (Rabs (y1 - y0)) ;;
  let box :=
    Rectangle x y w h (apply_to routing_type true empty_style)
      (match depth with
       | Some d => Some (add_depth_info d "mm")
       | None => None
       end) in
  modify (layer_add box) ;;;
  ret box.

(** [add_polygon], called with the points as its arguments. The depth is
    set on the polygon; what is added to the layer, and returned, is the
    path element made from it. *)
Definition add_polygon (args : list Point) : M Element :=
  points_in_user_units <- du2uu_points args ;;
  o <- gets options ;;
  let polygon :=
    mkShape points_in_user_units (apply_to INTERIOR true empty_style)
            (Some (add_depth_info (tail_thickness o) "mm")) in
  let path := to_path_element polygon in
  modify (layer_add path) ;;;
  ret path.

(** The [while x < width] loop of [add_tail_cuts]. *)
Fixpoint tail_cuts_while (fuel : nat) (start_y end_y x : R) : M unit :=
  match fuel with
  | O => fun _ => OutOfFuel
  | S fuel' =>
      o <- gets options ;;
      if Rlt_dec x (width o) then
        iw <- attr individual_width_of_tail_cut ;;
        add_box x start_y (x + iw) end_y INTERIOR (Some (pin_thickness o)) ;;;
        iw <- attr individual_width_of_tail_cut ;;
        tail_cuts_while fuel' start_y end_y (x + iw + width_tails o)
      else ret tt
  end.

(** The [for i in range(num_tails - 1)] loop of [add_tail_cuts]. *)
Fixpoint tail_cuts_for (n : nat) (start_y end_y x : R) : M unit :=
  match n with
  | O => ret tt
  | S n' =>
      o <- gets options ;;
      iw <- attr individual_width_of_tail_cut ;;
      add_box x start_y (x + iw) end_y INTERIOR (Some (pin_thickness o)) ;;;
      iw <- attr individual_width_of_tail_cut ;;
      tail_cuts_for n' start_y end_y (x + iw + width_tails o)
  end.

(** [add_tail_cuts(y_origin_tail_board)]. *)
Definition add_tail_cuts (fuel : nat) (y_origin_tail_board : R) : M R :=
  o <- gets options ;;
  let cutting_buffer_above_board :=
    tail_bit_diameter o * __OVERCUTTING_BUFFER_FACTOR__ in
  let start_y := y_origin_tail_board - cutting_buffer_above_board in
  let cutting_buffer_below_board :=
    tail_bit_diameter o * __LOWER_OVERCUTTING_BUFFER_DOVETAIL_BIT_FACTOR__ in
  let end_y :=
    y_origin_tail_board + tail_thickness o + cutting_buffer_below_board in
  odd <- truthy is_odd_number_of_tails ;;
  (if odd then
     tail_cuts_while fuel start_y end_y (width_tails o / 2)
   else
     iw <- attr individual_width_of_tail_cut ;;
     add_box (- __HORIZONTAL_BUFFER__) start_y (iw / 2) end_y
             INTERIOR (Some (pin_thickness o)) ;;;
     iw <- attr individual_width_of_tail_cut ;;
     add_box (width o - iw / 2) start_y (width o + __HORIZONTAL_BUFFER__) end_y
             INTERIOR (Some (pin_thickness o)) ;;;
     iw <- attr individual_width_of_tail_cut ;;
     tail_cuts_for (Z.to_nat (num_tails o - 1)) start_y end_y
                   (iw / 2 + width_tails o)) ;;;
  ret end_y.

(** The [for i in range(num_tails)] loop of [add_pin_cuts]. *)
Fixpoint pin_cuts_for (n : nat) (start_y end_y delta_x x : R) : M unit :=
  match n with
  | O => ret tt
  | S n' =>
      o <- gets options ;;
      swt <- attr smaller_width_tails ;;
      let top_left := (x - swt / 2 + delta_x, start_y) in
      swt <- attr smaller_width_tails ;;
      let top_right := (x + swt / 2 - delta_x, start_y) in
      let bottom_right := (x + width_tails o / 2 + delta_x, end_y) in
      let bottom_left := (x - width_tails o / 2 - delta_x, end_y) in
      add_polygon [top_left; top_right; bottom_right; bottom_left] ;;;
      iw <- attr individual_width_of_tail_cut ;;
      pin_cuts_for n' start_y end_y delta_x (x + iw + width_tails o)
  end.

(** [add_pin_cuts]. *)
Definition add_pin_cuts : M R :=
  o <- gets options ;;
  let cutting_buffer_outside_of_board :=
    pin_bit_diameter o * __OVERCUTTING_BUFFER_FACTOR__ in
  let start_y := - cutting_buffer_outside_of_board in
  let end_y := pin_thickness o + cutting_buffer_outside_of_board in
  t <- attr tan_cut_angle ;;
  let delta_x := cutting_buffer_outside_of_board * t in
  odd <- truthy is_odd_number_of_tails ;;
  x <- (if odd then
          let top_left := (- __HORIZONTAL_BUFFER__, start_y) in
          swt <- attr smaller_width_tails ;;
          let top_right := (swt / 2 - delta_x, start_y) in
          let bottom_right := (width_tails o / 2 + delta_x, end_y) in
          let bottom_left := (- __HORIZONTAL_BUFFER__, end_y) in
          add_polygon [top_left; top_right; bottom_right; bottom_left] ;;;
          swt <- attr smaller_width_tails ;;
          let top_left := (width o - swt / 2 + delta_x, start_y) in
          let top_right := (width o + __HORIZONTAL_BUFFER__, start_y) in
          let bottom_right := (width o + __HORIZONTAL_BUFFER__, end_y) in
          let bottom_left := (width o - width_tails o / 2 - delta_x, end_y) in
          add_polygon [top_left; top_right; bottom_right; bottom_left] ;;;
          iw <- attr individual_width_of_tail_cut ;;
          ret (width_tails o + iw)
        else
          iw <- attr individual_width_of_tail_cut ;;
          ret ((width_tails o + iw) / 2)) ;;
  pin_cuts_for (Z.to_nat (num_tails o)) start_y end_y delta_x x ;;;
  ret end_y.

(** [add_pin_board]. *)
Definition add_pin_board : M R :=
  o <- gets options ;;
  add_box 0 0 (width o) (pin_thickness o) GUIDE None ;;;
  lower_end <- add_pin_cuts ;;
  y <- du2uu (pin_thickness o) ;;
  x_size <- du2uu (pin_thickness o / 2) ;;
  modify (layer_add (create_anchor_polygon RT 0 y x_size)) ;;;
  add_text 0 (lower_end + __LINE_HEIGHT__) PinPatternNote false ;;;
  add_text 0 (lower_end + 2 * __LINE_HEIGHT__)
           (SetCuttingDepthNote (tail_thickness o)) false ;;;
  ret lower_end.

(** [add_tail_board(y_origin_tail_board)]. *)
Definition add_tail_board (fuel : nat) (y_origin_tail_board : R) : M unit :=
  o <- gets options ;;
  add_box 0 y_origin_tail_board (width o)
          (y_origin_tail_board + tail_thickness o) GUIDE None ;;;
  lower_end <- add_tail_cuts fuel y_origin_tail_board ;;
  y <- du2uu (y_origin_tail_board + tail_thickness o) ;;
  x_size <- du2uu (tail_thickness o / 2) ;;
  modify (layer_add (create_anchor_polygon RT 0 y x_size)) ;;;
  add_text 0 (lower_end + __LINE_HEIGHT__) TailPatternNote false ;;;
  add_text 0 (lower_end + 2 * __LINE_HEIGHT__)
           (SetCuttingDepthNote (pin_thickness o)) false ;;;
  add_text 0 (lower_end + 3 * __LINE_HEIGHT__) AnyStraightCutterNote false ;;;
  utd <- attr upper_tail_diameter ;;
  add_text 0 (lower_end + (45 / 10) * __LINE_HEIGHT__)
           (CuttingDiameterNote utd) true ;;;
  add_text 0 (lower_end + (55 / 10) * __LINE_HEIGHT__)
           NoIncrementalDepthNote false ;;;
  add_text 0 (lower_end + (65 / 10) * __LINE_HEIGHT__) BuffersNote false ;;;
  add_text 0 (lower_end + 9 * __LINE_HEIGHT__) SkipTextNote false ;;;
  add_text 0 (lower_end + 10 * __LINE_HEIGHT__) AmountOfPathsNote false.

(** [shaper_effect]. *)
Definition shaper_effect (fuel : nat) : M unit :=
  errormsg <- calc_and_check_parameters ;;
  match errormsg with
  | Some msg => modify (emit_errormsg msg)
  | None =>
      lower_end <- add_pin_board ;;
      add_tail_board fuel (lower_end + __VERTICAL_OFFSET_BOARDS__)
  end.

(** ** The derived values of the parameter check, as functions of the options *)

(** The values [__calc_and_check_parameters] computes on its way, written
    as functions of the options. [calc_and_check_parameters_eq] below shows
    that the check decides on exactly these values and stores them. *)
Module Derived.

Definition tan_cut_angle (o : Options) : R := tan (radians (cut_angle o)).

Definition is_odd_tail_count (o : Options) : bool :=
  Z.eqb (num_tails o mod 2) 1.

Definition upper_tail_diameter (o : Options) : R :=
  tail_bit_diameter o - 2 * tan_cut_angle o * pin_thickness o.

Definition smaller_tail_width (o : Options) : R :=
  width_tails o - (tail_bit_diameter o - upper_tail_diameter o).

Definition num_tail_cuts (o : Options) : Z :=
  if is_odd_tail_count o then (num_tails o + 1)%Z else num_tails o.

Definition cumulative_tail_width (o : Options) : R :=
  IZR (num_tail_cuts o) * width_tails o.

Definition individual_inter_tail_cut_width (o : Options) : R :=
  (width o - cumulative_tail_width o) / IZR (num_tail_cuts o).

End Derived.

(** The state after the assignments up to each check. *)
Definition after_diameter (s : Extension) : Extension :=
  let o := options s in
  set_upper_tail_diameter (Derived.upper_tail_diameter o)
    (set_is_odd_number_of_tails (Derived.is_odd_tail_count o)
       (set_tan_cut_angle (Derived.tan_cut_angle o) s)).

Definition after_smaller_width (s : Extension) : Extension :=
  set_smaller_width_tails (Derived.smaller_tail_width (options s))
    (after_diameter s).

Definition after_cut_width (s : Extension) : Extension :=
  let w := Derived.individual_inter_tail_cut_width (options s) in
  set_individual_width_of_tail_cut w
    (set_individual_width_of_tail_cut w (after_smaller_width s)).

(** ** What the drawing methods add to the layer *)

(** The layer grown by several elements at once. *)
Definition layer_extend (es : list Element) (s : Extension) : Extension :=
  mkExtension (options s) (inkscape_scale s) (tan_cut_angle s)
    (is_odd_number_of_tails s) (upper_tail_diameter s)
    (smaller_width_tails s) (individual_width_of_tail_cut s)
    (current_layer s ++ es) (errormsgs s).

(** The rectangle of one [add_box] call on a document of scale [sc]. *)
Definition box_of (sc x0 y0 x1 y1 : R) (routing_type : RoutingType)
    (depth : option R) : Element :=
  Rectangle (Rmin x0 x1 / sc) (Rmin y0 y1 / sc)
            (Rabs (x1 - x0) / sc) (Rabs (y1 - y0) / sc)
            (apply_to routing_type true empty_style)
            (match depth with
             | Some d => Some (add_depth_info d "mm")
             | None => None
             end).

Definition scale_point (sc : R) (p : Point) : Point :=
  (fst p / sc, snd p / sc).

(** The path of one [add_polygon] call. *)
Definition path_of (sc : R) (args : list Point) : Element :=
  PathElement (map (scale_point sc) args)
              (apply_to INTERIOR true empty_style)
              None.

(** The text element of one [add_text] call. *)
Definition text_of (sc x y : R) (text : Annotation) (bold : bool) : Element :=
  TextElement (x / sc) (y / sc) text
    (mkStyle (fill GUIDE) (Some "none"%string) true
             (Some (__FONT_SIZE__ / sc)) bold).

(** The boxes of [n] rounds of a loop of [add_tail_cuts] started at [x]. *)
Fixpoint tail_boxes (sc depth iw wt start_y end_y : R) (n : nat) (x : R)
    : list Element :=
  match n with
  | O => []
  | S n' =>
      box_of sc x start_y (x + iw) end_y INTERIOR (Some depth)
      :: tail_boxes sc depth iw wt start_y end_y n' (x + iw + wt)
  end.

(** The four points of a full trapezoid of [add_pin_cuts] centred at [x]. *)
Definition trapezoid (swt wt delta_x start_y end_y x : R) : list Point :=
  [ (x - swt / 2 + delta_x, start_y);
    (x + swt / 2 - delta_x, start_y);
    (x + wt / 2 + delta_x, end_y);
    (x - wt / 2 - delta_x, end_y) ].

(** The paths of [n] rounds of the loop of [add_pin_cuts] started at [x]. *)
Fixpoint pin_paths (sc swt wt iw delta_x start_y end_y : R)
    (n : nat) (x : R) : list Element :=
  match n with
  | O => []
  | S n' =>
      path_of sc (trapezoid swt wt delta_x start_y end_y x)
      :: pin_paths sc swt wt iw delta_x start_y end_y n' (x + iw + wt)
  end.

(** The two half-tail trapezoids of the odd branch of [add_pin_cuts]. *)
Definition half_tail_paths (sc swt wt board delta_x start_y end_y : R)
    : list Element :=
  [ path_of sc
      [ (- __HORIZONTAL_BUFFER__, start_y);
        (swt / 2 - delta_x, start_y);
        (wt / 2 + delta_x, end_y);
        (- __HORIZONTAL_BUFFER__, end_y) ];
    path_of sc
      [ (board - swt / 2 + delta_x, start_y);
        (board + __HORIZONTAL_BUFFER__, start_y);
        (board + __HORIZONTAL_BUFFER__, end_y);
        (board - wt / 2 - delta_x, end_y) ] ].

(** ** Vocabulary of the statements *)

(** The domain of the parameters: positive lengths, an angle strictly
    between 0 and 90 degrees, at least one tail. *)
Definition valid_parameters (o : Options) : Prop :=
  0 < cut_angle o < 90 /\
  0 < tail_bit_diameter o /\
  0 < pin_bit_diameter o /\
  0 < tail_thickness o /\
  0 < pin_thickness o /\
  0 < width o /\
  0 < width_tails o /\
  (1 <= num_tails o)%Z.

(** A state the parameter check has accepted, with whatever has been drawn
    since. *)
Definition validated (s : Extension) : Prop :=
  exists (s0 s1 : Extension) (es : list Element),
    calc_and_check_parameters s0 = Normal None s1 /\ s = layer_extend es s1.

(** The elements added between two states of the layer. *)
Definition added (s s' : Extension) (es : list Element) : Prop :=
  current_layer s' = current_layer s ++ es.

Definition is_rectangle (e : Element) : bool :=
  match e with
  | Rectangle _ _ _ _ _ _ => true
  | _ => false
  end.

Definition element_style (e : Element) : Style :=
  match e with
  | Rectangle _ _ _ _ st _ => st
  | PathElement _ st _ => st
  | Polygon _ st => st
  | TextElement _ _ _ st => st
  end.

Definition element_depth (e : Element) : option CutDepth :=
  match e with
  | Rectangle _ _ _ _ _ d => d
  | PathElement _ _ d => d
  | Polygon _ _ => None
  | TextElement _ _ _ _ => None
  end.

(** The corner points of the outline of an element, in the order in which
    the outline runs through them. *)
Definition corners (e : Element) : list Point :=
  match e with
  | Rectangle x y w h _ _ => [(x, y); (x + w, y); (x + w, y + h); (x, y + h)]
  | PathElement points _ _ => points
  | Polygon points _ => points
  | TextElement _ _ _ _ => []
  end.

(** The edge from [a] to [b] crosses the ray that starts at [p] and runs
    to the right. An edge holds its upper end and not its lower one, so a
    ray through a corner meets one of the two edges there, and a horizontal
    edge is never crossed. *)
Definition crosses (a b p : Point) : Prop :=
  (snd a <= snd p < snd b /\
   (fst p - fst a) * (snd b - snd a) < (snd p - snd a) * (fst b - fst a)) \/
  (snd b <= snd p < snd a /\
   (fst p - fst b) * (snd a - snd b) < (snd p - snd b) * (fst a - fst b)).

(** An odd number of the edges of the outline through [ps], which closes
    at [first], cross the ray of [p]. *)
Fixpoint odd_crossings (first : Point) (ps : list Point) (p : Point) : Prop :=
  match ps with
  | [] => False
  | a :: rest =>
      let b := match rest with [] => first | b :: _ => b end in
      (crosses a b p /\ ~ odd_crossings first rest p) \/
      (~ crosses a b p /\ odd_crossings first rest p)
  end.

(** [p] lies in the region that the outline of [e] encloses, whichever way
    the outline runs and also where it crosses itself: a ray from [p]
    crosses the outline an odd number of times. For the outlines of three
    and four corners drawn here this is the region that is filled. Of the
    outline itself, the edges on the left and at the top belong to the
    region. *)
Definition inside (e : Element) (p : Point) : Prop :=
  match corners e with
  | [] => False
  | a :: rest => odd_crossings a (a :: rest) p
  end.

Definition overlap (e1 e2 : Element) : Prop :=
  exists p : Point, inside e1 p /\ inside e2 p.

(** The five attributes hold the derived values of the options. *)
Definition resolved (s : Extension) : Prop :=
  let o := options s in
  tan_cut_angle s = Some (Derived.tan_cut_angle o) /\
  is_odd_number_of_tails s = Some (Derived.is_odd_tail_count o) /\
  upper_tail_diameter s = Some (Derived.upper_tail_diameter o) /\
  smaller_width_tails s = Some (Derived.smaller_tail_width o) /\
  individual_width_of_tail_cut s =
    Some (Derived.individual_inter_tail_cut_width o).

(** None of the four checks fires. *)
Definition checks_pass (o : Options) : Prop :=
  ~ Derived.upper_tail_diameter o <= 0 /\
  ~ Derived.smaller_tail_width o < pin_bit_diameter o /\
  ~ Derived.cumulative_tail_width o >= width o /\
  ~ Derived.individual_inter_tail_cut_width o < Derived.upper_tail_diameter o.

(** The cut rectangles of [add_tail_cuts] on an accepted state. *)
Definition tail_cut_elements (sc : R) (o : Options) (y_origin_tail_board : R)
    : list Element :=
  let start_y :=
    y_origin_tail_board - tail_bit_diameter o * __OVERCUTTING_BUFFER_FACTOR__ in
  let end_y :=
    y_origin_tail_board + tail_thickness o +
    tail_bit_diameter o * __LOWER_OVERCUTTING_BUFFER_DOVETAIL_BIT_FACTOR__ in
  let iw := Derived.individual_inter_tail_cut_width o in
  if Derived.is_odd_tail_count o then
    tail_boxes sc (pin_thickness o) iw (width_tails o) start_y end_y
               (Z.to_nat (num_tails o + 1)) (width_tails o / 2)
  else
    box_of sc (- __HORIZONTAL_BUFFER__) start_y (iw / 2) end_y
           INTERIOR (Some (pin_thickness o))
    :: box_of sc (width o - iw / 2) start_y (width o + __HORIZONTAL_BUFFER__)
              end_y INTERIOR (Some (pin_thickness o))
    :: tail_boxes sc (pin_thickness o) iw (width_tails o) start_y end_y
                  (Z.to_nat (num_tails o - 1)) (iw / 2 + width_tails o).

(** The trapezoids of [add_pin_cuts] on an accepted state: the half-tails
    of the odd branch, then the full ones. *)
Definition pin_half_elements (sc : R) (o : Options) : list Element :=
  let buffer := pin_bit_diameter o * __OVERCUTTING_BUFFER_FACTOR__ in
  if Derived.is_odd_tail_count o then
    half_tail_paths sc (Derived.smaller_tail_width o)
      (width_tails o) (width o) (buffer * Derived.tan_cut_angle o)
      (- buffer) (pin_thickness o + buffer)
  else [].

Definition pin_full_elements (sc : R) (o : Options) : list Element :=
  let buffer := pin_bit_diameter o * __OVERCUTTING_BUFFER_FACTOR__ in
  let iw := Derived.individual_inter_tail_cut_width o in
  pin_paths sc (Derived.smaller_tail_width o)
    (width_tails o) iw (buffer * Derived.tan_cut_angle o)
    (- buffer) (pin_thickness o + buffer)
    (Z.to_nat (num_tails o))
    (if Derived.is_odd_tail_count o then width_tails o + iw
     else (width_tails o + iw) / 2).

(** [calculate_upper_tail_diameter] called as the parameter check calls it:
    on a fresh extension, right after the tangent has been stored. *)
Definition upper_tail_diameter_at (o : Options) : Completion R :=
  calculate_upper_tail_diameter
    (set_tan_cut_angle (tan (radians (cut_angle o))) (init o 1 [])).

(** Options with a 45 degree cutter (whose tangent is 1). *)
Definition options_45 (pin_board tails_width board : R) (tails : Z) : Options :=
  mkOptions 45 (138 / 10) 8 15 pin_board board tails_width tails.

(** A computation that returns [v] normally. *)
Definition returns {A : Type} (c : Completion A) (v : A) : Prop :=
  exists s : Extension, c = Normal v s.

Definition rect_x (e : Element) : option R :=
  match e with
  | Rectangle x _ _ _ _ _ => Some x
  | _ => None
  end.

Definition rect_width (e : Element) : option R :=
  match e with
  | Rectangle _ _ w _ _ _ => Some w
  | _ => None
  end.

(** Measures of a four-cornered cut region [top left; top right; bottom
    right; bottom left]. *)
Definition center_x (e : Element) : option R :=
  match corners e with
  | [tl; tr; br; bl] => Some ((fst tl + fst tr + fst br + fst bl) / 4)
  | _ => None
  end.



Definition top_edge_width (e : Element) : option R :=
  match corners e with
  | [tl; tr; br; bl] => Some (fst tr - fst tl)
  | _ => None
  end.



(** The elements of [add_pin_board] on an accepted state. *)
Definition pin_board_elements (sc : R) (o : Options) : list Element :=
  let lower_end :=
    pin_thickness o + pin_bit_diameter o * __OVERCUTTING_BUFFER_FACTOR__ in
  box_of sc 0 0 (width o) (pin_thickness o) GUIDE None
  :: pin_half_elements sc o ++ pin_full_elements sc o
  ++ [ create_anchor_polygon RT 0 (pin_thickness o / sc)
                             (pin_thickness o / 2 / sc);
       text_of sc 0 (lower_end + __LINE_HEIGHT__) PinPatternNote false;
       text_of sc 0 (lower_end + 2 * __LINE_HEIGHT__)
               (SetCuttingDepthNote (tail_thickness o)) false ].

(** The elements of [add_tail_board] on an accepted state. *)
Definition tail_board_elements (sc : R) (o : Options) (y0 : R)
    : list Element :=
  let lower_end :=
    y0 + tail_thickness o +
    tail_bit_diameter o * __LOWER_OVERCUTTING_BUFFER_DOVETAIL_BIT_FACTOR__ in
  box_of sc 0 y0 (width o) (y0 + tail_thickness o) GUIDE None
  :: tail_cut_elements sc o y0
  ++ [ create_anchor_polygon RT 0 ((y0 + tail_thickness o) / sc)
                             (tail_thickness o / 2 / sc);
       text_of sc 0 (lower_end + __LINE_HEIGHT__) TailPatternNote false;
       text_of sc 0 (lower_end + 2 * __LINE_HEIGHT__)
               (SetCuttingDepthNote (pin_thickness o)) false;
       text_of sc 0 (lower_end + 3 * __LINE_HEIGHT__)
               AnyStraightCutterNote false;
       text_of sc 0 (lower_end + (45 / 10) * __LINE_HEIGHT__)
               (CuttingDiameterNote (Derived.upper_tail_diameter o)) true;
       text_of sc 0 (lower_end + (55 / 10) * __LINE_HEIGHT__)
               NoIncrementalDepthNote false;
       text_of sc 0 (lower_end + (65 / 10) * __LINE_HEIGHT__)
               BuffersNote false;
       text_of sc 0 (lower_end + 9 * __LINE_HEIGHT__) SkipTextNote false;
       text_of sc 0 (lower_end + 10 * __LINE_HEIGHT__)
               AmountOfPathsNote false ].

(** ** Vocabulary of the further properties *)

(** What the name of an [AxisOrientation] says: X axis towards the right,
    Y axis towards the top. *)
Definition x_towards_right (o : AxisOrientation) : bool :=
  match o with
  | RT | RB => true
  | LT | LB => false
  end.

Definition y_towards_top (o : AxisOrientation) : bool :=
  match o with
  | RT | LT => true
  | RB | LB => false
  end.

(** Twice the signed area of the triangle [p0 p1 p2]; positive when the
    corners run clockwise on the screen (the y axis points down). *)
Definition winding (p0 p1 p2 : Point) : R :=
  (fst p1 - fst p0) * (snd p2 - snd p0) - (snd p1 - snd p0) * (fst p2 - fst p0).

(** The right edge of a rectangle. *)
Definition rect_right (e : Element) : option R :=
  match e with
  | Rectangle x _ w _ _ _ => Some (x + w)
  | _ => None
  end.

Definition rect_y (e : Element) : option R :=
  match e with
  | Rectangle _ y _ _ _ _ => Some y
  | _ => None
  end.

Definition rect_bottom (e : Element) : option R :=
  match e with
  | Rectangle _ y _ h _ _ => Some (y + h)
  | _ => None
  end.

(** The stretch of the board, in document units, that the [i]-th cut
    rectangle of [add_tail_cuts] covers on an accepted state. *)
Definition tail_cut_span (o : Options) (i : nat) : R * R :=
  let iw := Derived.individual_inter_tail_cut_width o in
  let step := iw + width_tails o in
  if Derived.is_odd_tail_count o then
    let x := width_tails o / 2 + INR i * step in (x, x + iw)
  else
    match i with
    | O => (- __HORIZONTAL_BUFFER__, iw / 2)
    | S O => (width o - iw / 2, width o + __HORIZONTAL_BUFFER__)
    | S (S k) =>
        let x := iw / 2 + width_tails o + INR k * step in (x, x + iw)
    end.

(** The line, in document units, about which the slanted sides of the
    [i]-th trapezoid of [add_pin_cuts] are placed: the board edges for the
    two half-tails of the odd branch, the centre for a full trapezoid. *)
Definition pin_cut_center (o : Options) (i : nat) : R :=
  let iw := Derived.individual_inter_tail_cut_width o in
  let step := iw + width_tails o in
  if Derived.is_odd_tail_count o then
    match i with
    | O => 0
    | S O => width o
    | S (S k) => width_tails o + iw + INR k * step
    end
  else (width_tails o + iw) / 2 + INR i * step.

(** Half the width of a pocket at the height [y] of the pin board, in
    document units: half the smaller tail width at the face [y = 0],
    growing with the tangent of the cut angle. It is negative where the
    sides of the pocket have crossed. *)
Definition pocket_half_width (o : Options) (y : R) : R :=
  Derived.smaller_tail_width o / 2 + Derived.tan_cut_angle o * y.

(** The stretch, in document units, between the two sides of the [i]-th
    trapezoid of [add_pin_cuts] at the height [y]: from the 2 mm buffer to
    the slanted side for the two half-tails of the odd branch, between the
    two slanted sides of a full trapezoid. *)
Definition pin_cut_sides (o : Options) (i : nat) (y : R) : R * R :=
  let h := pocket_half_width o y in
  let c := pin_cut_center o i in
  if Derived.is_odd_tail_count o then
    match i with
    | O => (- __HORIZONTAL_BUFFER__, h)
    | S O => (width o - h, width o + __HORIZONTAL_BUFFER__)
    | S (S _) => (c - h, c + h)
    end
  else (c - h, c + h).

(** Bounds in document units of a region drawn on a document of scale [sc].
    On a positive scale a region holds its first bound and not its last; a
    negative scale turns the sheet by half a turn, and the bounds with it. *)
Definition lower_bound (sc a x : R) : Prop :=
  (0 < sc /\ a <= x) \/ (sc < 0 /\ a < x).

Definition upper_bound (sc x b : R) : Prop :=
  (0 < sc /\ x < b) \/ (sc < 0 /\ x <= b).

Definition span (sc a x b : R) : Prop :=
  lower_bound sc a x /\ upper_bound sc x b.

(** Elements by their kind. *)
Definition is_path (e : Element) : bool :=
  match e with
  | PathElement _ _ _ => true
  | _ => false
  end.

Definition is_bold (e : Element) : bool := style_bold (element_style e).

(** ** shaper_origin_type_and_depth.py *)

Module TypeAndDepth.

(** The command line options ([add_arguments]); the two without a
    default are [None] when not given. *)
Record Options : Type := mkOptions {
  routing_type : option string;
  use_depth : bool;
  depth : R;
  depth_dimension : option string
}.

(** A selected element, as far as the extension touches it: its style and
    its [shaper:cutDepth] attribute. *)
Record Node : Type := mkNode {
  node_style : Style;
  node_cut_depth : option CutDepth
}.

Inductive Error : Type :=
| KeyError
| TypeError.

(** How [shaper_effect] ends, with the selection as it then is. *)
Inductive Outcome : Type :=
| Done (selection : list Node)
| Raises (e : Error) (selection : list Node).

(** [RoutingType[name]]: the member of that name, if there is one. *)
Definition member (name : option string) : option RoutingType :=
  match name with
  | None => None
  | Some n =>
      if String.eqb n "GUIDE" then Some GUIDE
      else if String.eqb n "INTERIOR" then Some INTERIOR
      else if String.eqb n "EXTERIOR" then Some EXTERIOR
      else if String.eqb n "ON_LINE" then Some ON_LINE
      else if String.eqb n "POCKET" then Some POCKET
      else None
  end.

(** [routing_type.apply_to(elem)]. *)
Definition restyle (t : RoutingType) (n : Node) : Node :=
  mkNode (apply_to t true (node_style n)) (node_cut_depth n).

(** The [for elem in self.svg.selection] loop. The depth is encoded as the
    formatted number followed by the dimension, which raises [TypeError]
    when the dimension is [None]. *)
Fixpoint for_selection (t : RoutingType) (o : Options) (selection : list Node)
    : Outcome :=
  match selection with
  | [] => Done []
  | elem :: rest =>
      let elem1 := restyle t elem in
      if use_depth o then
        match depth_dimension o with
        | None => Raises TypeError (elem1 :: rest)
        | Some dimension =>
            let elem2 :=
              mkNode (node_style elem1)
                     (Some (add_depth_info (depth o) dimension)) in
            match for_selection t o rest with
            | Done rest' => Done (elem2 :: rest')
            | Raises e rest' => Raises e (elem2 :: rest')
            end
        end
      else
        match for_selection t o rest with
        | Done rest' => Done (elem1 :: rest')
        | Raises e rest' => Raises e (elem1 :: rest')
        end
  end.

(** [shaper_effect]. *)
Definition shaper_effect (o : Options) (selection : list Node) : Outcome :=
  match member (routing_type o) with
  | None => Raises KeyError selection
  | Some t => for_selection t o selection
  end.

(** What a run that succeeds makes of one element. *)
Definition retyped (t : RoutingType) (o : Options) (n : Node) : Node :=
  mkNode (apply_to t true (node_style n))
         (if use_depth o then
            match depth_dimension o with
            | Some dimension => Some (add_depth_info (depth o) dimension)
            | None => node_cut_depth n
            end
          else node_cut_depth n).

End TypeAndDepth.

(** [__calc_and_check_parameters] as one decision tree. *)
Lemma calc_and_check_parameters_eq (s : Extension) :
  calc_and_check_parameters s =
  let o := options s in
  if Rle_dec (Derived.upper_tail_diameter o) 0 then
    Normal (Some (DiameterNonPositive (cut_angle o) (tail_bit_diameter o)
                                      (pin_thickness o)))
           (after_diameter s)
  else if Rlt_dec (Derived.smaller_tail_width o) (pin_bit_diameter o) then
    Normal (Some (TailNarrowerThanPinBit (width_tails o)
                    (Derived.smaller_tail_width o) (pin_bit_diameter o)))
           (after_smaller_width s)
  else if Rge_dec (Derived.cumulative_tail_width o) (width o) then
    Normal (Some (TailsExceedBoardWidth (Derived.cumulative_tail_width o)
                    (width o) (Derived.is_odd_tail_count o)))
           (after_smaller_width s)
  else if Rgt_dec (width o - Derived.cumulative_tail_width o) 0 then
    if Z.eqb (Derived.num_tail_cuts o) 0 then Raised ZeroDivisionError
    else if Rlt_dec (Derived.individual_inter_tail_cut_width o)
                    (Derived.upper_tail_diameter o) then
      Normal (Some (InterTailCutTooNarrow
                      (Derived.individual_inter_tail_cut_width o)
                      (Derived.upper_tail_diameter o) (pin_thickness o)))
             (after_cut_width s)
    else Normal None (after_cut_width s)
  else Raised AssertionError.
Proof.
  unfold calc_and_check_parameters, calculate_upper_tail_diameter,
    num_tail_cuts, div_int, assert, bind, gets, modify, attr, truthy, ret, raise.
  unfold after_cut_width, after_smaller_width, after_diameter,
    Derived.individual_inter_tail_cut_width, Derived.cumulative_tail_width,
    Derived.num_tail_cuts, Derived.smaller_tail_width,
    Derived.upper_tail_diameter, Derived.is_odd_tail_count,
    Derived.tan_cut_angle.
  cbn.
  destruct (Rle_dec _ 0); [reflexivity|]. cbn.
  destruct (Rlt_dec _ (pin_bit_diameter _)); [reflexivity|]. cbn.
  destruct (Rge_dec _ _); [reflexivity|]. cbn.
  destruct (Rgt_dec _ _); [|reflexivity]. cbn.
  destruct (Z.eqb _ 0) eqn:Hcuts; [reflexivity|]. cbn.
  rewrite Hcuts. cbn.
  destruct (Rlt_dec _ _); reflexivity.
Qed.

(** ** The drawing primitives *)

Lemma layer_add_extend (e : Element) (s : Extension) :
  layer_add e s = layer_extend [e] s.
Proof. reflexivity. Qed.

Lemma layer_extend_nil (s : Extension) : layer_extend [] s = s.
Proof.
  destruct s; unfold layer_extend; cbn. now rewrite app_nil_r.
Qed.

Lemma layer_extend_app (es1 es2 : list Element) (s : Extension) :
  layer_extend es2 (layer_extend es1 s) = layer_extend (es1 ++ es2) s.
Proof.
  unfold layer_extend; cbn. now rewrite app_assoc.
Qed.

Lemma du2uu_ok (v : R) (s : Extension) :
  inkscape_scale s <> 0 ->
  du2uu v s = Normal (v / inkscape_scale s) s.
Proof.
  intros Hsc. unfold du2uu, bind, gets, ret, raise.
  destruct (Req_dec_T (inkscape_scale s) 0); [contradiction|reflexivity].
Qed.

Lemma du2uu_points_ok (ps : list Point) (s : Extension) :
  inkscape_scale s <> 0 ->
  du2uu_points ps s = Normal (map (scale_point (inkscape_scale s)) ps) s.
Proof.
  intros Hsc. induction ps as [|p ps IH]; [reflexivity|].
  cbn [du2uu_points map]. unfold bind.
  rewrite !du2uu_ok by assumption. rewrite IH. reflexivity.
Qed.

Lemma add_box_ok (x0 y0 x1 y1 : R) (rt : RoutingType) (d : option R)
    (s : Extension) :
  inkscape_scale s <> 0 ->
  add_box x0 y0 x1 y1 rt d s =
  let box := box_of (inkscape_scale s) x0 y0 x1 y1 rt d in
  Normal box (layer_extend [box] s).
Proof.
  intros Hsc. unfold add_box, bind.
  rewrite !du2uu_ok by assumption. reflexivity.
Qed.

Lemma add_polygon_ok (args : list Point) (s : Extension) :
  inkscape_scale s <> 0 ->
  add_polygon args s =
  let path := path_of (inkscape_scale s) args in
  Normal path (layer_extend [path] s).
Proof.
  intros Hsc. unfold add_polygon, bind.
  rewrite du2uu_points_ok by assumption. reflexivity.
Qed.

Lemma add_text_ok (x y : R) (text : Annotation) (bold : bool) (s : Extension) :
  inkscape_scale s <> 0 ->
  add_text x y text bold s =
  Normal tt (layer_extend [text_of (inkscape_scale s) x y text bold] s).
Proof.
  intros Hsc. unfold add_text, bind.
  rewrite !du2uu_ok by assumption. reflexivity.
Qed.

(** ** The loops *)

Lemma tail_cuts_for_ok (n : nat) :
  forall (start_y end_y x iw : R) (s : Extension),
  inkscape_scale s <> 0 ->
  individual_width_of_tail_cut s = Some iw ->
  tail_cuts_for n start_y end_y x s =
  Normal tt
    (layer_extend
       (tail_boxes (inkscape_scale s) (pin_thickness (options s)) iw
                   (width_tails (options s)) start_y end_y n x) s).
Proof.
  induction n as [|n IH]; intros start_y end_y x iw s Hsc Hiw.
  - cbn. now rewrite layer_extend_nil.
  - cbn [tail_cuts_for tail_boxes]. unfold bind, gets, attr.
    rewrite Hiw, add_box_ok by assumption. cbn zeta.
    cbn [individual_width_of_tail_cut layer_extend]. rewrite Hiw.
    rewrite (IH _ _ _ iw) by assumption.
    rewrite layer_extend_app. reflexivity.
Qed.

Lemma tail_cuts_while_ok (k : nat) :
  forall (fuel : nat) (start_y end_y x iw : R) (s : Extension),
  inkscape_scale s <> 0 ->
  individual_width_of_tail_cut s = Some iw ->
  (k < fuel)%nat ->
  (forall j : nat, (j < k)%nat ->
     x + INR j * (iw + width_tails (options s)) < width (options s)) ->
  ~ x + INR k * (iw + width_tails (options s)) < width (options s) ->
  tail_cuts_while fuel start_y end_y x s =
  Normal tt
    (layer_extend
       (tail_boxes (inkscape_scale s) (pin_thickness (options s)) iw
                   (width_tails (options s)) start_y end_y k x) s).
Proof.
  induction k as [|k IH]; intros fuel start_y end_y x iw s Hsc Hiw Hfuel Hin Hout.
  - destruct fuel as [|fuel]; [lia|].
    cbn [tail_cuts_while tail_boxes]. unfold bind, gets, ret.
    destruct (Rlt_dec x (width (options s))) as [Hlt|_].
    + exfalso. apply Hout. cbn [INR]. lra.
    + now rewrite layer_extend_nil.
  - destruct fuel as [|fuel]; [lia|].
    cbn [tail_cuts_while tail_boxes]. unfold bind, gets, attr.
    destruct (Rlt_dec x (width (options s))) as [_|Hge].
    + rewrite Hiw, add_box_ok by assumption. cbn zeta.
      cbn [individual_width_of_tail_cut layer_extend]. rewrite Hiw.
      rewrite (IH fuel _ _ _ iw); cbn [options inkscape_scale
        individual_width_of_tail_cut layer_extend]; try assumption; try lia.
      * rewrite layer_extend_app. reflexivity.
      * intros j Hj. specialize (Hin (S j) ltac:(lia)).
        rewrite S_INR in Hin. lra.
      * rewrite S_INR in Hout. lra.
    + exfalso. apply Hge. specialize (Hin O ltac:(lia)). cbn [INR] in Hin. lra.
Qed.

Lemma pin_cuts_for_ok (n : nat) :
  forall (start_y end_y delta_x x swt iw : R) (s : Extension),
  inkscape_scale s <> 0 ->
  smaller_width_tails s = Some swt ->
  individual_width_of_tail_cut s = Some iw ->
  pin_cuts_for n start_y end_y delta_x x s =
  Normal tt
    (layer_extend
       (pin_paths (inkscape_scale s) swt
                  (width_tails (options s)) iw delta_x start_y end_y n x) s).
Proof.
  induction n as [|n IH]; intros start_y end_y delta_x x swt iw s Hsc Hswt Hiw.
  - cbn. now rewrite layer_extend_nil.
  - cbn [pin_cuts_for pin_paths]. unfold bind, gets, attr.
    rewrite Hswt. cbn beta iota. rewrite Hswt. cbn beta iota.
    rewrite add_polygon_ok by assumption. cbn zeta.
    cbn [individual_width_of_tail_cut layer_extend]. rewrite Hiw.
    rewrite (IH _ _ _ _ swt iw) by assumption.
    rewrite layer_extend_app. reflexivity.
Qed.

(** ** What an accepted state looks like *)

Lemma validated_inv (s : Extension) :
  validated s ->
  resolved s /\ checks_pass (options s) /\
  Derived.num_tail_cuts (options s) <> 0%Z.
Proof.
  intros (s0 & s1 & es & H & ->).
  rewrite calc_and_check_parameters_eq in H. cbn zeta in H.
  destruct (Rle_dec _ 0) as [|H1]; [discriminate|].
  destruct (Rlt_dec _ (pin_bit_diameter _)) as [|H2]; [discriminate|].
  destruct (Rge_dec _ _) as [|H3]; [discriminate|].
  destruct (Rgt_dec _ _) as [_|]; [|discriminate].
  destruct (Z.eqb _ 0) eqn:Hcuts; [discriminate|].
  destruct (Rlt_dec _ _) as [|H4]; [discriminate|].
  injection H as <-.
  apply Z.eqb_neq in Hcuts.
  repeat split; assumption.
Qed.

Lemma validated_by_check (s s' : Extension) :
  calc_and_check_parameters s = Normal None s' -> validated s'.
Proof.
  intros H. exists s, s', []. split; [exact H|].
  symmetry. apply layer_extend_nil.
Qed.

Lemma validated_extend (es : list Element) (s : Extension) :
  validated s -> validated (layer_extend es s).
Proof.
  intros (s0 & s1 & es0 & H & ->). exists s0, s1, (es0 ++ es).
  split; [exact H|]. apply layer_extend_app.
Qed.

Lemma odd_cuts (o : Options) :
  Derived.is_odd_tail_count o = true ->
  Derived.num_tail_cuts o = (num_tails o + 1)%Z.
Proof. unfold Derived.num_tail_cuts. now intros ->. Qed.

Lemma even_cuts (o : Options) :
  Derived.is_odd_tail_count o = false ->
  Derived.num_tail_cuts o = num_tails o.
Proof. unfold Derived.num_tail_cuts. now intros ->. Qed.

Lemma cuts_positive (o : Options) :
  (1 <= num_tails o)%Z -> (1 <= Derived.num_tail_cuts o)%Z.
Proof.
  unfold Derived.num_tail_cuts. destruct (Derived.is_odd_tail_count o); lia.
Qed.

(** The step of the loops times the number of cuts is the board width. *)
Lemma step_times_cuts (o : Options) :
  Derived.num_tail_cuts o <> 0%Z ->
  (Derived.individual_inter_tail_cut_width o + width_tails o)
  * IZR (Derived.num_tail_cuts o) = width o.
Proof.
  intros Hn. unfold Derived.individual_inter_tail_cut_width,
    Derived.cumulative_tail_width.
  assert (IZR (Derived.num_tail_cuts o) <> 0) by (now apply not_0_IZR).
  field. assumption.
Qed.

Lemma inter_width_positive (o : Options) :
  (1 <= num_tails o)%Z ->
  ~ Derived.cumulative_tail_width o >= width o ->
  0 < Derived.individual_inter_tail_cut_width o.
Proof.
  intros Hn Hc. unfold Derived.individual_inter_tail_cut_width.
  apply Rdiv_lt_0_compat; [lra|].
  apply IZR_lt. pose proof (cuts_positive o Hn). lia.
Qed.

(** The [while] loop of the odd branch runs [num_tails + 1] times. *)
Lemma while_bounds (o : Options) :
  valid_parameters o ->
  Derived.is_odd_tail_count o = true ->
  ~ Derived.cumulative_tail_width o >= width o ->
  let step := Derived.individual_inter_tail_cut_width o + width_tails o in
  let k := Z.to_nat (num_tails o + 1) in
  (forall j : nat, (j < k)%nat ->
     width_tails o / 2 + INR j * step < width o) /\
  ~ width_tails o / 2 + INR k * step < width o.
Proof.
  intros Hv Hodd Hc step k.
  destruct Hv as (_ & _ & _ & _ & _ & HW & Hwt & Hn).
  pose proof (inter_width_positive o Hn Hc) as Hiw.
  assert (Hcuts : Derived.num_tail_cuts o <> 0%Z).
  { pose proof (cuts_positive o Hn). lia. }
  pose proof (step_times_cuts o Hcuts) as Hstep. fold step in Hstep.
  rewrite (odd_cuts o Hodd) in Hstep.
  assert (Hk : INR k = IZR (num_tails o + 1)).
  { unfold k. rewrite INR_IZR_INZ, Z2Nat.id by lia. reflexivity. }
  assert (Hs : 0 < step) by (unfold step; lra).
  split.
  - intros j Hj.
    assert (Hj' : INR j <= INR k - 1).
    { assert (Hle : (S j <= k)%nat) by lia.
      apply le_INR in Hle. rewrite S_INR in Hle. lra. }
    rewrite Hk in Hj'.
    assert (INR j * step <= (IZR (num_tails o + 1) - 1) * step)
      by (apply Rmult_le_compat_r; lra).
    unfold step in *. lra.
  - rewrite Hk. rewrite Rmult_comm, Hstep. lra.
Qed.

(** ** The two cut generators on an accepted state *)

Lemma add_tail_cuts_ok (fuel : nat) (y0 : R) (s : Extension) :
  valid_parameters (options s) ->
  validated s ->
  inkscape_scale s <> 0 ->
  (Z.to_nat (num_tails (options s) + 1) < fuel)%nat ->
  add_tail_cuts fuel y0 s =
  Normal (y0 + tail_thickness (options s) +
          tail_bit_diameter (options s) *
          __LOWER_OVERCUTTING_BUFFER_DOVETAIL_BIT_FACTOR__)
         (layer_extend (tail_cut_elements (inkscape_scale s) (options s) y0) s).
Proof.
  intros Hv Hval Hsc Hfuel.
  destruct (validated_inv s Hval) as ((_ & Hodd & _ & _ & Hiw) & Hchk & _).
  destruct Hchk as (_ & _ & Hc & _).
  unfold add_tail_cuts, tail_cut_elements, bind, gets, truthy, attr, ret.
  rewrite Hodd.
  destruct (Derived.is_odd_tail_count (options s)) eqn:Hparity.
  - destruct (while_bounds (options s) Hv Hparity Hc) as [Hin Hout].
    rewrite (tail_cuts_while_ok (Z.to_nat (num_tails (options s) + 1))
               fuel _ _ _ _ s Hsc Hiw Hfuel Hin Hout).
    reflexivity.
  - rewrite Hiw. rewrite add_box_ok by assumption. cbn zeta.
    cbn [individual_width_of_tail_cut layer_extend]. rewrite Hiw.
    rewrite add_box_ok by assumption. cbn zeta.
    cbn [individual_width_of_tail_cut layer_extend]. rewrite Hiw.
    erewrite tail_cuts_for_ok;
      [|assumption|cbn [individual_width_of_tail_cut]; exact Hiw].
    unfold layer_extend. cbn. rewrite <- !app_assoc. reflexivity.
Qed.

Lemma add_pin_cuts_ok (s : Extension) :
  validated s ->
  inkscape_scale s <> 0 ->
  add_pin_cuts s =
  Normal (pin_thickness (options s) +
          pin_bit_diameter (options s) * __OVERCUTTING_BUFFER_FACTOR__)
         (layer_extend (pin_half_elements (inkscape_scale s) (options s) ++
                        pin_full_elements (inkscape_scale s) (options s)) s).
Proof.
  intros Hval Hsc.
  destruct (validated_inv s Hval) as ((Htan & Hodd & _ & Hswt & Hiw) & _ & _).
  unfold add_pin_cuts, pin_half_elements, pin_full_elements,
    bind, gets, truthy, attr, ret.
  rewrite Htan, Hodd.
  destruct (Derived.is_odd_tail_count (options s)) eqn:Hparity.
  - rewrite Hswt. rewrite add_polygon_ok by assumption. cbn zeta.
    cbn [smaller_width_tails layer_extend]. rewrite Hswt.
    rewrite add_polygon_ok by assumption. cbn zeta.
    cbn [individual_width_of_tail_cut layer_extend]. rewrite Hiw.
    erewrite pin_cuts_for_ok;
      [|assumption
       |cbn [smaller_width_tails]; exact Hswt
       |cbn [individual_width_of_tail_cut]; exact Hiw].
    unfold layer_extend, half_tail_paths. cbn. rewrite <- !app_assoc.
    reflexivity.
  - rewrite Hiw. cbn beta iota.
    erewrite pin_cuts_for_ok; [|assumption|exact Hswt|exact Hiw].
    reflexivity.
Qed.

(** ** The parameter check *)

Lemma calc_frame (s s' : Extension) (r : option ErrorMessage) :
  calc_and_check_parameters s = Normal r s' ->
  options s' = options s /\
  inkscape_scale s' = inkscape_scale s /\
  current_layer s' = current_layer s /\
  errormsgs s' = errormsgs s.
Proof.
  rewrite calc_and_check_parameters_eq. cbn zeta.
  repeat match goal with
         | |- context [if ?c then _ else _] => destruct c
         end;
    intros H; try discriminate; injection H as _ <-; repeat split.
Qed.

Lemma radians_45 : radians 45 = PI / 4.
Proof. unfold radians. field. Qed.

Lemma tan_45 (p w b : R) (n : Z) :
  Derived.tan_cut_angle (options_45 p w b n) = 1.
Proof.
  unfold Derived.tan_cut_angle. cbn [cut_angle options_45].
  rewrite radians_45. apply tan_PI4.
Qed.

Lemma tan_positive (a : R) : 0 < a < 90 -> 0 < tan (radians a).
Proof.
  intros [Hlo Hhi]. pose proof PI_RGT_0 as Hpi.
  apply tan_gt_0; unfold radians; nra.
Qed.

(** Closing the side conditions of concrete options. *)
Ltac concrete_parameters :=
  unfold valid_parameters; cbn; repeat split; try lra; lia.

(** C1. For valid parameters the check returns normally; it returns [None]
    exactly when none of the four violations holds, and otherwise the
    message of the first violated constraint in the order diameter, tail
    narrower than pin bit, tails exceed board, cut too narrow. After a
    failure the attributes derived later are left as they were. *)
Theorem check_reports_first_violation (s : Extension) :
  valid_parameters (options s) ->
  let o := options s in
  exists (r : option ErrorMessage) (s' : Extension),
    calc_and_check_parameters s = Normal r s' /\
    (r = None <-> checks_pass o) /\
    (Derived.upper_tail_diameter o <= 0 ->
       r = Some (DiameterNonPositive (cut_angle o) (tail_bit_diameter o)
                                     (pin_thickness o)) /\
       smaller_width_tails s' = smaller_width_tails s /\
       individual_width_of_tail_cut s' = individual_width_of_tail_cut s) /\
    (~ Derived.upper_tail_diameter o <= 0 ->
     Derived.smaller_tail_width o < pin_bit_diameter o ->
       r = Some (TailNarrowerThanPinBit (width_tails o)
                   (Derived.smaller_tail_width o) (pin_bit_diameter o)) /\
       individual_width_of_tail_cut s' = individual_width_of_tail_cut s) /\
    (~ Derived.upper_tail_diameter o <= 0 ->
     ~ Derived.smaller_tail_width o < pin_bit_diameter o ->
     Derived.cumulative_tail_width o >= width o ->
       r = Some (TailsExceedBoardWidth (Derived.cumulative_tail_width o)
                   (width o) (Derived.is_odd_tail_count o)) /\
       individual_width_of_tail_cut s' = individual_width_of_tail_cut s) /\
    (~ Derived.upper_tail_diameter o <= 0 ->
     ~ Derived.smaller_tail_width o < pin_bit_diameter o ->
     ~ Derived.cumulative_tail_width o >= width o ->
     Derived.individual_inter_tail_cut_width o < Derived.upper_tail_diameter o ->
       r = Some (InterTailCutTooNarrow
                   (Derived.individual_inter_tail_cut_width o)
                   (Derived.upper_tail_diameter o) (pin_thickness o))).
Proof.
  intros Hv o.
  assert (Hn : (1 <= num_tails o)%Z) by (apply Hv).
  pose proof (cuts_positive o Hn) as Hcuts.
  rewrite calc_and_check_parameters_eq. fold o. cbn zeta.
  unfold checks_pass.
  destruct (Rle_dec (Derived.upper_tail_diameter o) 0) as [H1|H1].
  { do 2 eexists. split; [reflexivity|].
    repeat split; try discriminate; try tauto. }
  destruct (Rlt_dec (Derived.smaller_tail_width o) (pin_bit_diameter o))
    as [H2|H2].
  { do 2 eexists. split; [reflexivity|].
    repeat split; try discriminate; try tauto. }
  destruct (Rge_dec (Derived.cumulative_tail_width o) (width o)) as [H3|H3].
  { do 2 eexists. split; [reflexivity|].
    repeat split; try discriminate; try tauto. }
  destruct (Rgt_dec (width o - Derived.cumulative_tail_width o) 0)
    as [_|Hassert]; [|exfalso; lra].
  destruct (Z.eqb_spec (Derived.num_tail_cuts o) 0) as [Hz|_]; [lia|].
  destruct (Rlt_dec (Derived.individual_inter_tail_cut_width o)
                    (Derived.upper_tail_diameter o)) as [H4|H4].
  { do 2 eexists. split; [reflexivity|].
    repeat split; try discriminate; try tauto. }
  do 2 eexists. split; [reflexivity|].
  repeat split; try discriminate; try tauto.
Qed.

Lemma check_reports_first_violation_default :
  valid_parameters default_options /\
  exists (r : option ErrorMessage) (s' : Extension),
    calc_and_check_parameters (init default_options 1 []) = Normal r s' /\
    (r = None <-> checks_pass default_options).
Proof.
  assert (Hv : valid_parameters default_options) by concrete_parameters.
  split; [exact Hv|].
  destruct (check_reports_first_violation (init default_options 1 []) Hv)
    as (r & s' & Hrun & Hiff & _).
  exists r, s'. split; assumption.
Defined.

Lemma parity_as_odd (n : Z) : Z.eqb (n mod 2) 1 = Z.odd n.
Proof.
  rewrite Zmod_odd. destruct (Z.odd n); reflexivity.
Qed.

(** The check accepts 45 degree options whose numbers fit. *)
Lemma accepts_45 (p w b : R) (n : Z) (sc : R) (layer : list Element) :
  let o := options_45 p w b n in
  2 * p < 138 / 10 ->
  8 <= w - 2 * p ->
  IZR (Derived.num_tail_cuts o) * w < b ->
  Derived.num_tail_cuts o <> 0%Z ->
  138 / 10 - 2 * p <= (b - IZR (Derived.num_tail_cuts o) * w)
                      / IZR (Derived.num_tail_cuts o) ->
  calc_and_check_parameters (init o sc layer) =
  Normal None (after_cut_width (init o sc layer)).
Proof.
  intros o H1 H2 H3 Hn H4.
  rewrite calc_and_check_parameters_eq. cbn zeta. cbn [options init].
  fold o.
  assert (Hu : Derived.upper_tail_diameter o = 138 / 10 - 2 * p).
  { unfold Derived.upper_tail_diameter. unfold o at 2. rewrite tan_45.
    cbn. lra. }
  assert (Hs : Derived.smaller_tail_width o = w - 2 * p).
  { unfold Derived.smaller_tail_width. rewrite Hu. cbn. lra. }
  assert (Hc : Derived.cumulative_tail_width o
               = IZR (Derived.num_tail_cuts o) * w) by reflexivity.
  assert (Hi : Derived.individual_inter_tail_cut_width o
               = (b - IZR (Derived.num_tail_cuts o) * w)
                 / IZR (Derived.num_tail_cuts o)) by reflexivity.
  destruct (Rle_dec _ 0); [lra|].
  destruct (Rlt_dec _ (pin_bit_diameter o)); [cbn in *; lra|].
  destruct (Rge_dec _ _); [cbn in *; lra|].
  destruct (Rgt_dec _ _); [|cbn in *; lra].
  destruct (Z.eqb_spec (Derived.num_tail_cuts o) 0); [contradiction|].
  destruct (Rlt_dec _ _); [lra|].
  reflexivity.
Qed.

(** C2. When the check succeeds, the stored values are
    [tail_bit_diameter - 2 * tan(radians(cut_angle)) * pin_thickness],
    [tail_width - (tail_bit_diameter - upper_tail_diameter)], and the board
    width less the tails divided by the number of cuts, where that number
    is [num_tails + 1] for an odd [num_tails] and [num_tails] otherwise. *)
Theorem derived_values_on_success (s s' : Extension) :
  calc_and_check_parameters s = Normal None s' ->
  let o := options s in
  let utd :=
    tail_bit_diameter o - 2 * tan (radians (cut_angle o)) * pin_thickness o in
  let cuts := if Z.odd (num_tails o) then (num_tails o + 1)%Z else num_tails o in
  upper_tail_diameter s' = Some utd /\
  smaller_width_tails s' = Some (width_tails o - (tail_bit_diameter o - utd)) /\
  num_tail_cuts s' = Normal cuts s' /\
  individual_width_of_tail_cut s' =
    Some ((width o - IZR cuts * width_tails o) / IZR cuts).
Proof.
  intros Hrun o utd cuts.
  assert (Hval : validated s') by (exact (validated_by_check s s' Hrun)).
  destruct (validated_inv s' Hval) as ((_ & Hodd & Hutd & Hswt & Hiw) & _ & _).
  destruct (calc_frame s s' None Hrun) as (Ho & _).
  rewrite Ho in *. fold o in Hodd, Hutd, Hswt, Hiw.
  assert (Hcuts : Derived.num_tail_cuts o = cuts).
  { unfold Derived.num_tail_cuts, Derived.is_odd_tail_count, cuts.
    now rewrite parity_as_odd. }
  repeat split.
  - exact Hutd.
  - exact Hswt.
  - unfold num_tail_cuts, bind, gets, truthy, ret. rewrite Hodd, Ho.
    fold o. unfold Derived.is_odd_tail_count. rewrite parity_as_odd.
    reflexivity.
  - rewrite Hiw. unfold Derived.individual_inter_tail_cut_width,
      Derived.cumulative_tail_width. rewrite Hcuts. reflexivity.
Qed.

Lemma derived_values_on_success_45 :
  let s := init (options_45 5 20 150 2) 1 [] in
  let s' := after_cut_width s in
  calc_and_check_parameters s = Normal None s' /\
  upper_tail_diameter s' =
    Some (138 / 10 - 2 * tan (radians 45) * 5) /\
  individual_width_of_tail_cut s' = Some ((150 - 2 * 20) / 2).
Proof.
  intros s s'.
  assert (Hrun : calc_and_check_parameters s = Normal None s').
  { apply accepts_45; cbn; try lra; try lia. }
  split; [exact Hrun|].
  destruct (derived_values_on_success s s' Hrun) as (Hu & _ & _ & Hi).
  split; [exact Hu|exact Hi].
Defined.

(** C3. When the check returns a message, [shaper_effect] only hands that
    message to the host: the layer is left as it was and nothing but the
    one message is reported. *)
Theorem failure_draws_nothing (fuel : nat) (s s1 : Extension)
    (msg : ErrorMessage) :
  calc_and_check_parameters s = Normal (Some msg) s1 ->
  shaper_effect fuel s = Normal tt (emit_errormsg msg s1) /\
  current_layer (emit_errormsg msg s1) = current_layer s /\
  errormsgs (emit_errormsg msg s1) = errormsgs s ++ [msg].
Proof.
  intros Hrun.
  destruct (calc_frame s s1 (Some msg) Hrun) as (_ & _ & Hlayer & Herr).
  unfold shaper_effect, bind. rewrite Hrun. unfold modify.
  repeat split.
  - cbn. exact Hlayer.
  - cbn. now rewrite Herr.
Qed.

Lemma rejects_45_diameter (p w b : R) (n : Z) (sc : R) (layer : list Element) :
  let o := options_45 p w b n in
  138 / 10 <= 2 * p ->
  calc_and_check_parameters (init o sc layer) =
  Normal (Some (DiameterNonPositive 45 (138 / 10) p))
         (after_diameter (init o sc layer)).
Proof.
  intros o Hp.
  rewrite calc_and_check_parameters_eq. cbn zeta. cbn [options init].
  fold o.
  assert (Hu : Derived.upper_tail_diameter o = 138 / 10 - 2 * p).
  { unfold Derived.upper_tail_diameter. unfold o at 2. rewrite tan_45.
    cbn. lra. }
  destruct (Rle_dec _ 0); [reflexivity|lra].
Qed.

Lemma failure_draws_nothing_45 :
  let s := init (options_45 60 20 150 2) 1 [] in
  let msg := DiameterNonPositive 45 (138 / 10) 60 in
  calc_and_check_parameters s = Normal (Some msg) (after_diameter s) /\
  shaper_effect 0 s = Normal tt (emit_errormsg msg (after_diameter s)) /\
  current_layer (emit_errormsg msg (after_diameter s)) = [] /\
  errormsgs (emit_errormsg msg (after_diameter s)) = [msg].
Proof.
  intros s msg.
  assert (Hrun : calc_and_check_parameters s
                 = Normal (Some msg) (after_diameter s)).
  { apply rejects_45_diameter. lra. }
  split; [exact Hrun|].
  exact (failure_draws_nothing 0 s (after_diameter s) msg Hrun).
Defined.

Lemma upper_tail_diameter_at_eq (o : Options) :
  returns (upper_tail_diameter_at o) (Derived.upper_tail_diameter o).
Proof.
  unfold returns, upper_tail_diameter_at, calculate_upper_tail_diameter,
    bind, gets, attr, ret. cbn. eexists. reflexivity.
Qed.

(** C7. The diameter computed by [calculate_upper_tail_diameter] strictly
    decreases when the pin board gets thicker (angle between 0 and 90
    degrees), strictly decreases when the angle grows within 0 to 90 degrees
    (pin board of positive thickness), and strictly increases with the
    diameter of the dovetail bit, the other options being fixed. *)
Theorem upper_tail_diameter_monotone
    (a tbd pbd tt pt W wt : R) (n : Z) :
  (forall pt' : R, 0 < a < 90 -> pt < pt' ->
     exists d d' : R,
       returns (upper_tail_diameter_at (mkOptions a tbd pbd tt pt W wt n)) d /\
       returns (upper_tail_diameter_at (mkOptions a tbd pbd tt pt' W wt n)) d' /\
       d' < d) /\
  (forall a' : R, 0 < a -> a < a' -> a' < 90 -> 0 < pt ->
     exists d d' : R,
       returns (upper_tail_diameter_at (mkOptions a tbd pbd tt pt W wt n)) d /\
       returns (upper_tail_diameter_at (mkOptions a' tbd pbd tt pt W wt n)) d' /\
       d' < d) /\
  (forall tbd' : R, tbd < tbd' ->
     exists d d' : R,
       returns (upper_tail_diameter_at (mkOptions a tbd pbd tt pt W wt n)) d /\
       returns (upper_tail_diameter_at (mkOptions a tbd' pbd tt pt W wt n)) d' /\
       d < d').
Proof.
  repeat split.
  - intros pt' Ha Hpt. do 2 eexists.
    split; [apply upper_tail_diameter_at_eq|].
    split; [apply upper_tail_diameter_at_eq|].
    unfold Derived.upper_tail_diameter, Derived.tan_cut_angle. cbn.
    pose proof (tan_positive a Ha). nra.
  - intros a' Ha Haa' Ha' Hpt. do 2 eexists.
    split; [apply upper_tail_diameter_at_eq|].
    split; [apply upper_tail_diameter_at_eq|].
    unfold Derived.upper_tail_diameter, Derived.tan_cut_angle. cbn.
    assert (Htan : tan (radians a) < tan (radians a')).
    { pose proof PI_RGT_0 as Hpi.
      apply tan_increasing; unfold radians; nra. }
    nra.
  - intros tbd' Htbd. do 2 eexists.
    split; [apply upper_tail_diameter_at_eq|].
    split; [apply upper_tail_diameter_at_eq|].
    unfold Derived.upper_tail_diameter, Derived.tan_cut_angle. cbn. lra.
Qed.

Lemma upper_tail_diameter_monotone_default :
  exists d d' : R,
    returns (upper_tail_diameter_at (mkOptions 15 (138 / 10) 8 15 15 150 20 2)) d /\
    returns (upper_tail_diameter_at (mkOptions 15 (138 / 10) 8 15 60 150 20 2)) d' /\
    d' < d.
Proof.
  destruct (upper_tail_diameter_monotone 15 (138 / 10) 8 15 15 150 20 2)
    as (Hpt & _ & _).
  apply (Hpt 60); lra.
Defined.

Lemma num_tail_cuts_after_diameter (s : Extension) :
  num_tail_cuts (after_diameter s) =
  Normal (Derived.num_tail_cuts (options s)) (after_diameter s).
Proof. reflexivity. Qed.

(** C9, as the code has it. With at least one tail, [num_tail_cuts()] is at
    least 1, the assertion holds whenever the board width check has passed,
    and the check returns without raising. With no tail and a positive
    board width, the check divides by zero once the first two checks have
    passed. *)
Theorem division_by_cut_count (s : Extension) :
  let o := options s in
  ((1 <= num_tails o)%Z ->
     (exists n : Z,
        returns (num_tail_cuts (after_diameter s)) n /\ (1 <= n)%Z) /\
     (~ Derived.cumulative_tail_width o >= width o ->
        width o - Derived.cumulative_tail_width o > 0) /\
     (exists (r : option ErrorMessage) (s' : Extension),
        calc_and_check_parameters s = Normal r s')) /\
  (num_tails o = 0%Z ->
   ~ Derived.upper_tail_diameter o <= 0 ->
   ~ Derived.smaller_tail_width o < pin_bit_diameter o ->
   0 < width o ->
     calc_and_check_parameters s = Raised ZeroDivisionError).
Proof.
  intros o. split.
  - intros Hn. pose proof (cuts_positive o Hn) as Hcuts.
    split; [|split].
    + exists (Derived.num_tail_cuts o). split; [|exact Hcuts].
      exists (after_diameter s). apply num_tail_cuts_after_diameter.
    + intros Hc. lra.
    + rewrite calc_and_check_parameters_eq. fold o. cbn zeta.
      destruct (Rle_dec _ 0); [do 2 eexists; reflexivity|].
      destruct (Rlt_dec _ (pin_bit_diameter o)); [do 2 eexists; reflexivity|].
      destruct (Rge_dec _ _); [do 2 eexists; reflexivity|].
      destruct (Rgt_dec _ _); [|exfalso; lra].
      destruct (Z.eqb_spec (Derived.num_tail_cuts o) 0); [lia|].
      destruct (Rlt_dec _ _); do 2 eexists; reflexivity.
  - intros Hn H1 H2 HW.
    assert (Hcuts : Derived.num_tail_cuts o = 0%Z).
    { unfold Derived.num_tail_cuts, Derived.is_odd_tail_count.
      rewrite Hn. reflexivity. }
    assert (Hcum : Derived.cumulative_tail_width o = 0).
    { unfold Derived.cumulative_tail_width. rewrite Hcuts. lra. }
    rewrite calc_and_check_parameters_eq. fold o. cbn zeta.
    destruct (Rle_dec _ 0); [contradiction|].
    destruct (Rlt_dec _ (pin_bit_diameter o)); [contradiction|].
    destruct (Rge_dec _ _); [lra|].
    destruct (Rgt_dec _ _); [|lra].
    rewrite Hcuts. reflexivity.
Qed.

Lemma division_by_cut_count_45 :
  calc_and_check_parameters (init (options_45 5 20 150 0) 1 [])
  = Raised ZeroDivisionError.
Proof.
  destruct (division_by_cut_count (init (options_45 5 20 150 0) 1 []))
    as [_ Hzero].
  assert (Hu : Derived.upper_tail_diameter (options_45 5 20 150 0)
               = 138 / 10 - 2 * 5).
  { unfold Derived.upper_tail_diameter. rewrite tan_45. cbn. lra. }
  apply Hzero.
  - reflexivity.
  - cbn [options init]. rewrite Hu. lra.
  - cbn [options init]. unfold Derived.smaller_tail_width. rewrite Hu.
    cbn. lra.
  - cbn. lra.
Defined.

(** C9, as stated, fails: with no tail and a pin board of 60 mm the check
    returns the diameter message; nothing is divided. *)
Lemma zero_tails_diameter_message :
  let s := init (options_45 60 20 150 0) 1 [] in
  num_tails (options s) = 0%Z /\
  calc_and_check_parameters s =
    Normal (Some (DiameterNonPositive 45 (138 / 10) 60)) (after_diameter s) /\
  calc_and_check_parameters s <> Raised ZeroDivisionError.
Proof.
  intros s.
  assert (Hrun : calc_and_check_parameters s
                 = Normal (Some (DiameterNonPositive 45 (138 / 10) 60))
                          (after_diameter s)).
  { apply rejects_45_diameter. lra. }
  split; [reflexivity|]. split; [exact Hrun|].
  rewrite Hrun. discriminate.
Qed.

(** ** The elements of the loops *)

Lemma tail_boxes_length (sc d iw wt sy ey : R) (n : nat) :
  forall x : R, List.length (tail_boxes sc d iw wt sy ey n x) = n.
Proof.
  induction n as [|n IH]; intros x; cbn; [reflexivity|]. now rewrite IH.
Qed.

Lemma tail_boxes_nth (sc d iw wt sy ey : R) (n : nat) :
  forall (x : R) (i : nat) (e : Element),
  nth_error (tail_boxes sc d iw wt sy ey n x) i = Some e ->
  e = box_of sc (x + INR i * (iw + wt)) sy (x + INR i * (iw + wt) + iw) ey
             INTERIOR (Some d).
Proof.
  induction n as [|n IH]; intros x i e H.
  - destruct i; discriminate.
  - destruct i as [|i].
    + cbn in H. injection H as <-. cbn [INR].
      f_equal; lra.
    + cbn [tail_boxes nth_error] in H. apply IH in H. subst e.
      rewrite S_INR. f_equal; lra.
Qed.

Lemma tail_boxes_in (sc d iw wt sy ey : R) (n : nat) (x : R) (e : Element) :
  In e (tail_boxes sc d iw wt sy ey n x) ->
  exists x' : R, e = box_of sc x' sy (x' + iw) ey INTERIOR (Some d).
Proof.
  intros H. apply In_nth_error in H. destruct H as [i H].
  apply tail_boxes_nth in H. eexists. exact H.
Qed.

Lemma pin_paths_length (sc swt wt iw dx sy ey : R) (n : nat) :
  forall x : R, List.length (pin_paths sc swt wt iw dx sy ey n x) = n.
Proof.
  induction n as [|n IH]; intros x; cbn; [reflexivity|]. now rewrite IH.
Qed.

Lemma pin_paths_nth (sc swt wt iw dx sy ey : R) (n : nat) :
  forall (x : R) (i : nat) (e : Element),
  nth_error (pin_paths sc swt wt iw dx sy ey n x) i = Some e ->
  e = path_of sc (trapezoid swt wt dx sy ey (x + INR i * (iw + wt))).
Proof.
  induction n as [|n IH]; intros x i e H.
  - destruct i; discriminate.
  - destruct i as [|i].
    + cbn in H. injection H as <-. cbn [INR].
      do 2 f_equal. lra.
    + cbn [pin_paths nth_error] in H. apply IH in H. subst e.
      rewrite S_INR. do 2 f_equal. lra.
Qed.

Lemma pin_paths_in (sc swt wt iw dx sy ey : R) (n : nat) (x : R)
    (e : Element) :
  In e (pin_paths sc swt wt iw dx sy ey n x) ->
  exists x' : R, e = path_of sc (trapezoid swt wt dx sy ey x').
Proof.
  intros H. apply In_nth_error in H. destruct H as [i H].
  apply pin_paths_nth in H. eexists. exact H.
Qed.

Lemma added_extend (es : list Element) (s : Extension) :
  added s (layer_extend es s) es.
Proof. reflexivity. Qed.

(** A box between increasing bounds. *)
Lemma box_of_ordered (sc x0 y0 x1 y1 : R) (rt : RoutingType) (d : option R) :
  x0 <= x1 -> y0 <= y1 ->
  box_of sc x0 y0 x1 y1 rt d =
  Rectangle (x0 / sc) (y0 / sc) ((x1 - x0) / sc) ((y1 - y0) / sc)
            (apply_to rt true empty_style)
            (match d with
             | Some v => Some (add_depth_info v "mm")
             | None => None
             end).
Proof.
  intros Hx Hy. unfold box_of.
  rewrite (Rmin_left x0 x1), (Rmin_left y0 y1) by assumption.
  rewrite (Rabs_pos_eq (x1 - x0)), (Rabs_pos_eq (y1 - y0)) by lra.
  reflexivity.
Qed.

Lemma tail_cut_elements_in (sc : R) (o : Options) (y0 : R) (e : Element) :
  In e (tail_cut_elements sc o y0) ->
  exists x0 x1 : R,
    e = box_of sc x0
          (y0 - tail_bit_diameter o * __OVERCUTTING_BUFFER_FACTOR__) x1
          (y0 + tail_thickness o +
           tail_bit_diameter o *
           __LOWER_OVERCUTTING_BUFFER_DOVETAIL_BIT_FACTOR__)
          INTERIOR (Some (pin_thickness o)).
Proof.
  unfold tail_cut_elements. cbn zeta.
  destruct (Derived.is_odd_tail_count o).
  - intros H. apply tail_boxes_in in H. destruct H as [x' ->].
    do 2 eexists. reflexivity.
  - intros [<-|[<-|H]]; try (do 2 eexists; reflexivity).
    apply tail_boxes_in in H. destruct H as [x' ->].
    do 2 eexists. reflexivity.
Qed.

(** C5, as the code has it. Every cut rectangle of the tail board starts
    [0.55] bit diameters above the origin of the tail board and ends one
    full bit diameter below its thickness, and carries the pin board
    thickness as depth. The trapezoids of the pin board carry no depth:
    [add_polygon] sets the tail board thickness on the polygon it builds,
    and the path element that it adds to the layer in its place does not
    have it. *)
Theorem tail_cut_rectangles_span (fuel : nat) (y0 : R) (s : Extension) :
  valid_parameters (options s) ->
  validated s ->
  inkscape_scale s <> 0 ->
  (Z.to_nat (num_tails (options s) + 1) < fuel)%nat ->
  let o := options s in
  let sc := inkscape_scale s in
  (exists (end_y : R) (s' : Extension) (boxes : list Element),
     add_tail_cuts fuel y0 s = Normal end_y s' /\
     added s s' boxes /\
     forall e : Element, In e boxes ->
       exists (x w h : R) (st : Style),
         e = Rectangle x ((y0 - tail_bit_diameter o * (55 / 100)) / sc) w h st
                       (Some (pin_thickness o, "mm"%string)) /\
         (y0 - tail_bit_diameter o * (55 / 100)) / sc + h =
         (y0 + tail_thickness o + tail_bit_diameter o * 1) / sc) /\
  (exists (end_y : R) (s' : Extension) (paths : list Element),
     add_pin_cuts s = Normal end_y s' /\
     added s s' paths /\
     forall e : Element, In e paths ->
       exists (points : list Point) (st : Style),
         e = PathElement points st None) /\
  (forall args : list Point,
     exists polygon : Shape,
       shape_depth polygon = Some (tail_thickness o, "mm"%string) /\
       add_polygon args s =
       Normal (to_path_element polygon)
              (layer_add (to_path_element polygon) s) /\
       element_depth (to_path_element polygon) = None).
Proof.
  intros Hv Hval Hsc Hfuel o sc. split; [|split].
  - do 3 eexists. split; [apply add_tail_cuts_ok; assumption|].
    split; [apply added_extend|].
    intros e He. apply tail_cut_elements_in in He.
    destruct He as (x0 & x1 & ->). fold o.
    destruct Hv as (_ & Htbd & _ & Htt & _). fold o in Htbd, Htt.
    unfold box_of, __OVERCUTTING_BUFFER_FACTOR__,
      __LOWER_OVERCUTTING_BUFFER_DOVETAIL_BIT_FACTOR__, add_depth_info.
    rewrite (Rmin_left (y0 - _)) by lra. rewrite (Rabs_pos_eq (_ - (y0 - _))) by lra.
    do 4 eexists. split; [reflexivity|].
    unfold sc, Rdiv. ring.
  - do 3 eexists. split; [apply add_pin_cuts_ok; assumption|].
    split; [apply added_extend|].
    intros e He. apply in_app_or in He. destruct He as [He|He].
    + unfold pin_half_elements, half_tail_paths in He.
      destruct (Derived.is_odd_tail_count (options s)); [|contradiction].
      destruct He as [<-|[<-|[]]]; do 2 eexists; reflexivity.
    + apply pin_paths_in in He. destruct He as [x' ->].
      do 2 eexists. reflexivity.
  - intros args. eexists (mkShape _ _ _).
    split; [reflexivity|]. split; [|reflexivity].
    unfold add_polygon, bind, gets, modify, ret.
    rewrite du2uu_points_ok by assumption. reflexivity.
Qed.

Lemma validated_45 (p w b : R) (n : Z) (sc : R) (layer : list Element) :
  let o := options_45 p w b n in
  2 * p < 138 / 10 ->
  8 <= w - 2 * p ->
  IZR (Derived.num_tail_cuts o) * w < b ->
  Derived.num_tail_cuts o <> 0%Z ->
  138 / 10 - 2 * p <= (b - IZR (Derived.num_tail_cuts o) * w)
                      / IZR (Derived.num_tail_cuts o) ->
  validated (after_cut_width (init o sc layer)).
Proof.
  intros o H1 H2 H3 Hn H4.
  apply (validated_by_check (init o sc layer)). now apply accepts_45.
Qed.

Lemma tail_cut_rectangles_span_45 :
  let s := after_cut_width (init (options_45 5 20 150 2) 1 []) in
  exists (end_y : R) (s' : Extension) (boxes : list Element),
    add_tail_cuts 4 0 s = Normal end_y s' /\
    added s s' boxes /\
    forall e : Element, In e boxes ->
      exists (x w h : R) (st : Style),
        e = Rectangle x ((0 - 138 / 10 * (55 / 100)) / 1) w h st
                      (Some (5, "mm"%string)) /\
        (0 - 138 / 10 * (55 / 100)) / 1 + h = (0 + 15 + 138 / 10 * 1) / 1.
Proof.
  intros s.
  assert (Hv : valid_parameters (options s)) by concrete_parameters.
  assert (Hval : validated s).
  { apply validated_45; cbn; try lra; lia. }
  assert (Hsc : inkscape_scale s <> 0) by (cbn; lra).
  assert (Hfuel : (Z.to_nat (num_tails (options s) + 1) < 4)%nat)
    by (cbn; lia).
  exact (proj1 (tail_cut_rectangles_span 4 0 s Hv Hval Hsc Hfuel)).
Defined.

(** C5, as stated, fails for the trapezoids: with a 45 degree cutter, a
    pin board of 5 mm, two tails of 20 mm and a board of 150 mm the check
    passes, the tail board is 15 mm thick, and none of the two trapezoids
    that [add_pin_cuts] draws carries a depth. *)
Lemma pin_trapezoids_carry_no_depth_45 :
  let s := after_cut_width (init (options_45 5 20 150 2) 1 []) in
  valid_parameters (options s) /\
  validated s /\
  tail_thickness (options s) = 15 /\
  exists (end_y : R) (s' : Extension) (paths : list Element),
    add_pin_cuts s = Normal end_y s' /\
    added s s' paths /\
    List.length paths = 2%nat /\
    forall e : Element, In e paths ->
      is_path e = true /\
      element_depth e = None /\
      element_depth e <> Some (tail_thickness (options s), "mm"%string).
Proof.
  intros s.
  assert (Hv : valid_parameters (options s)) by concrete_parameters.
  assert (Hval : validated s).
  { apply validated_45; cbn; try lra; lia. }
  assert (Hsc : inkscape_scale s <> 0) by (cbn; lra).
  split; [exact Hv|]. split; [exact Hval|]. split; [reflexivity|].
  do 3 eexists. split; [apply add_pin_cuts_ok; assumption|].
  split; [apply added_extend|].
  split; [reflexivity|].
  intros e He. apply in_app_or in He. destruct He as [He|He].
  - unfold pin_half_elements, half_tail_paths in He.
    destruct (Derived.is_odd_tail_count (options s)); [|contradiction].
    destruct He as [<-|[<-|[]]]; repeat split; discriminate.
  - apply pin_paths_in in He. destruct He as [x' ->].
    repeat split; discriminate.
Qed.

Lemma checks_facts (o : Options) :
  valid_parameters o -> checks_pass o ->
  0 < Derived.upper_tail_diameter o /\
  pin_bit_diameter o <= Derived.smaller_tail_width o /\
  0 < Derived.individual_inter_tail_cut_width o /\
  0 < Derived.tan_cut_angle o.
Proof.
  intros Hv (H1 & H2 & H3 & H4).
  assert (Hn : (1 <= num_tails o)%Z) by apply Hv.
  pose proof (inter_width_positive o Hn H3).
  assert (0 < Derived.tan_cut_angle o) by (apply tan_positive, Hv).
  repeat split; try lra; assumption.
Qed.

Lemma parity_even (n : Z) : Z.even n = true -> Z.eqb (n mod 2) 1 = false.
Proof.
  intros H. rewrite parity_as_odd, <- Z.negb_even, H. reflexivity.
Qed.



Lemma pin_full_elements_nth (sc : R) (o : Options) (i : nat) (e : Element) :
  nth_error (pin_full_elements sc o) i = Some e ->
  let buffer := pin_bit_diameter o * __OVERCUTTING_BUFFER_FACTOR__ in
  let iw := Derived.individual_inter_tail_cut_width o in
  e = path_of sc
        (trapezoid (Derived.smaller_tail_width o) (width_tails o)
           (buffer * Derived.tan_cut_angle o) (- buffer)
           (pin_thickness o + buffer)
           ((if Derived.is_odd_tail_count o then width_tails o + iw
             else (width_tails o + iw) / 2)
            + INR i * (iw + width_tails o))).
Proof.
  unfold pin_full_elements. cbn zeta. apply pin_paths_nth.
Qed.

Lemma pin_half_elements_length (sc : R) (o : Options) :
  List.length (pin_half_elements sc o) =
  if Z.odd (num_tails o) then 2%nat else 0%nat.
Proof.
  unfold pin_half_elements, Derived.is_odd_tail_count. cbn zeta.
  rewrite parity_as_odd. destruct (Z.odd (num_tails o)); reflexivity.
Qed.

Lemma center_of_trapezoid (sc swt wt dx sy ey x : R) :
  center_x (path_of sc (trapezoid swt wt dx sy ey x)) = Some (x / sc).
Proof.
  unfold center_x, path_of, trapezoid, scale_point. cbn.
  f_equal. unfold Rdiv. lra.
Qed.

(** C6. For an even [num_tails], the trapezoids of the pin board mirror
    each other about the middle of the board: the centres of the i-th and
    of the (num_tails - 1 - i)-th add up to the board width. *)
Theorem pin_centers_symmetric (s : Extension) :
  validated s ->
  inkscape_scale s <> 0 ->
  Z.even (num_tails (options s)) = true ->
  let o := options s in
  let sc := inkscape_scale s in
  exists (end_y : R) (s' : Extension) (paths : list Element),
    add_pin_cuts s = Normal end_y s' /\
    added s s' paths /\
    List.length paths = Z.to_nat (num_tails o) /\
    forall (i j : nat) (ei ej : Element),
      (i + j + 1 = Z.to_nat (num_tails o))%nat ->
      nth_error paths i = Some ei ->
      nth_error paths j = Some ej ->
      exists ci cj : R,
        center_x ei = Some ci /\ center_x ej = Some cj /\
        ci + cj = width o / sc.
Proof.
  intros Hval Hsc Heven o sc.
  destruct (validated_inv s Hval) as (_ & _ & Hcuts). fold o in Hcuts.
  assert (Hparity : Derived.is_odd_tail_count o = false).
  { unfold Derived.is_odd_tail_count. now apply parity_even. }
  do 3 eexists. split; [apply add_pin_cuts_ok; assumption|].
  split; [apply added_extend|]. fold o sc.
  assert (Hhalf : pin_half_elements sc o = []).
  { unfold pin_half_elements. cbn zeta. now rewrite Hparity. }
  rewrite Hhalf. cbn [app].
  split.
  - unfold pin_full_elements. cbn zeta. apply pin_paths_length.
  - intros i j ei ej Hij Hi Hj.
    apply pin_full_elements_nth in Hi, Hj. cbn zeta in Hi, Hj.
    rewrite Hparity in Hi, Hj. subst ei ej.
    rewrite !center_of_trapezoid. do 2 eexists.
    split; [reflexivity|]. split; [reflexivity|].
    pose proof (step_times_cuts o Hcuts) as Hstep.
    rewrite (even_cuts o Hparity) in Hstep.
    assert (Hn : IZR (num_tails o) = INR i + INR j + 1).
    { replace (num_tails o) with (Z.of_nat (i + j + 1)) by lia.
      rewrite <- INR_IZR_INZ, !plus_INR. cbn [INR]. reflexivity. }
    rewrite Hn in Hstep.
    set (step := Derived.individual_inter_tail_cut_width o + width_tails o)
      in *.
    replace (width_tails o + Derived.individual_inter_tail_cut_width o)
      with step by (unfold step; ring).
    rewrite <- Hstep. unfold sc. field. exact Hsc.
Qed.

Lemma pin_centers_symmetric_45 :
  let s := after_cut_width (init (options_45 5 20 150 2) 1 []) in
  exists (end_y : R) (s' : Extension) (paths : list Element),
    add_pin_cuts s = Normal end_y s' /\
    added s s' paths /\
    List.length paths = 2%nat /\
    forall (i j : nat) (ei ej : Element),
      (i + j + 1 = 2)%nat ->
      nth_error paths i = Some ei ->
      nth_error paths j = Some ej ->
      exists ci cj : R,
        center_x ei = Some ci /\ center_x ej = Some cj /\
        ci + cj = 150 / 1.
Proof.
  intros s.
  assert (Hval : validated s).
  { apply validated_45; cbn; try lra; lia. }
  assert (Hsc : inkscape_scale s <> 0) by (cbn; lra).
  assert (Heven : Z.even (num_tails (options s)) = true) by reflexivity.
  exact (pin_centers_symmetric s Hval Hsc Heven).
Defined.

Lemma values_45 (p w b : R) (n : Z) :
  let o := options_45 p w b n in
  Derived.upper_tail_diameter o = 138 / 10 - 2 * p /\
  Derived.smaller_tail_width o = w - 2 * p.
Proof.
  intros o.
  assert (Hu : Derived.upper_tail_diameter o = 138 / 10 - 2 * p).
  { unfold Derived.upper_tail_diameter. unfold o at 2. rewrite tan_45.
    cbn. lra. }
  split; [exact Hu|].
  unfold Derived.smaller_tail_width. rewrite Hu. cbn. lra.
Qed.

Lemma taper_of_tail (o : Options) :
  width_tails o - Derived.smaller_tail_width o =
  2 * Derived.tan_cut_angle o * pin_thickness o.
Proof.
  unfold Derived.smaller_tail_width, Derived.upper_tail_diameter. ring.
Qed.





(** ** Cut regions that stay apart *)

Lemma scale_point_back (sc : R) (p : Point) :
  sc <> 0 -> p = scale_point sc (fst p * sc, snd p * sc).
Proof.
  intros Hsc. destruct p as [x y]. unfold scale_point. cbn [fst snd].
  f_equal; field; exact Hsc.
Qed.

Lemma scaled_le (sc x y : R) : 0 < sc -> (x / sc <= y / sc <-> x <= y).
Proof.
  intros Hsc. assert (Hinv : 0 < / sc) by now apply Rinv_0_lt_compat.
  unfold Rdiv. split; intros H.
  - apply (Rmult_le_reg_r (/ sc)); assumption.
  - apply Rmult_le_compat_r; lra.
Qed.

Lemma scaled_lt (sc x y : R) : 0 < sc -> (x / sc < y / sc <-> x < y).
Proof.
  intros Hsc. assert (Hinv : 0 < / sc) by now apply Rinv_0_lt_compat.
  unfold Rdiv. split; intros H.
  - apply (Rmult_lt_reg_r (/ sc)); assumption.
  - apply Rmult_lt_compat_r; assumption.
Qed.

Lemma turned_le (sc x y : R) : sc < 0 -> (x / sc <= y / sc <-> y <= x).
Proof.
  intros Hsc.
  replace (x / sc) with (- x / - sc) by (field; lra).
  replace (y / sc) with (- y / - sc) by (field; lra).
  rewrite scaled_le by lra. lra.
Qed.

Lemma turned_lt (sc x y : R) : sc < 0 -> (x / sc < y / sc <-> y < x).
Proof.
  intros Hsc.
  replace (x / sc) with (- x / - sc) by (field; lra).
  replace (y / sc) with (- y / - sc) by (field; lra).
  rewrite scaled_lt by lra. lra.
Qed.

Lemma scaled_products (sc x1 x2 y1 y2 z1 z2 w1 w2 : R) :
  sc <> 0 ->
  ((x1 / sc - x2 / sc) * (y1 / sc - y2 / sc)
     < (z1 / sc - z2 / sc) * (w1 / sc - w2 / sc)
   <-> (x1 - x2) * (y1 - y2) < (z1 - z2) * (w1 - w2)).
Proof.
  intros Hsc.
  assert (Hk : 0 < / sc * / sc).
  { assert (/ sc <> 0) by now apply Rinv_neq_0_compat. nra. }
  replace ((x1 / sc - x2 / sc) * (y1 / sc - y2 / sc))
    with ((x1 - x2) * (y1 - y2) * (/ sc * / sc)) by (field; exact Hsc).
  replace ((z1 / sc - z2 / sc) * (w1 / sc - w2 / sc))
    with ((z1 - z2) * (w1 - w2) * (/ sc * / sc)) by (field; exact Hsc).
  split; intros H.
  - apply (Rmult_lt_reg_r (/ sc * / sc)); assumption.
  - apply Rmult_lt_compat_r; assumption.
Qed.

Lemma crosses_sym (a b p : Point) : crosses a b p <-> crosses b a p.
Proof. unfold crosses. tauto. Qed.

Lemma level_not_crossed (a b p : Point) : snd a = snd b -> ~ crosses a b p.
Proof. unfold crosses. intros H [[? _]|[? _]]; lra. Qed.

Lemma bounds_scaled (sc : R) :
  0 < sc ->
  (forall a x : R, lower_bound sc a x <-> a <= x) /\
  (forall x b : R, upper_bound sc x b <-> x < b) /\
  (forall P Q : Prop, (0 < sc /\ P \/ sc < 0 /\ Q) <-> P).
Proof.
  intros Hsc. unfold lower_bound, upper_bound.
  repeat split; try tauto; intros; try (left; split; assumption);
    match goal with
    | H : _ \/ _ |- _ => destruct H as [[_ H]|[H _]]; [exact H|lra]
    end.
Qed.

Lemma bounds_turned (sc : R) :
  sc < 0 ->
  (forall a x : R, lower_bound sc a x <-> a < x) /\
  (forall x b : R, upper_bound sc x b <-> x <= b) /\
  (forall P Q : Prop, (0 < sc /\ P \/ sc < 0 /\ Q) <-> Q).
Proof.
  intros Hsc. unfold lower_bound, upper_bound.
  repeat split; try tauto; intros; try (right; split; assumption);
    match goal with
    | H : _ \/ _ |- _ => destruct H as [[H _]|[_ H]]; [lra|exact H]
    end.
Qed.

(** A side that runs down the sheet from [(a, t)] with the slope [k], on a
    document of scale [sc]: which points have it to their right. *)
Lemma side_crossed (sc a b t u k : R) (q : Point) :
  sc <> 0 -> t < u -> b = a + k * (u - t) ->
  (crosses (scale_point sc (a, t)) (scale_point sc (b, u)) (scale_point sc q)
   <->
   span sc t (snd q) u /\
   ((0 < sc /\ fst q < a + k * (snd q - t)) \/
    (sc < 0 /\ a + k * (snd q - t) < fst q))).
Proof.
  intros Hsc Htu Hb. destruct q as [x y].
  unfold crosses, scale_point, span.
  cbn [fst snd].
  rewrite !(scaled_products sc) by exact Hsc.
  assert (Hright : (x - a) * (u - t) < (y - t) * (b - a)
                   <-> x < a + k * (y - t)).
  { subst b. split; intros H; nra. }
  assert (Hleft : (x - b) * (t - u) < (y - u) * (a - b)
                  <-> a + k * (y - t) < x).
  { subst b. split; intros H; nra. }
  rewrite Hright, Hleft. clear Hright Hleft.
  destruct (Rtotal_order 0 sc) as [Hpos|[Hzero|Hneg]]; [| lra |].
  - destruct (bounds_scaled sc Hpos) as (HL & HU & HX).
    rewrite HL, HU, HX.
    rewrite !(scaled_le sc), !(scaled_lt sc) by exact Hpos.
    split.
    + intros [[[H1 H2] H3]|[[H1 H2] H3]]; [tauto|lra].
    + intros [[H1 H2] H3]. left. tauto.
  - destruct (bounds_turned sc Hneg) as (HL & HU & HX).
    rewrite HL, HU, HX.
    rewrite !(turned_le sc), !(turned_lt sc) by exact Hneg.
    split.
    + intros [[[H1 H2] H3]|[[H1 H2] H3]]; [lra|tauto].
    + intros [[H1 H2] H3]. right. tauto.
Qed.

Lemma span_order (sc a x b : R) : span sc a x b -> a < b /\ a <= x <= b.
Proof. unfold span, lower_bound, upper_bound. intuition lra. Qed.

Lemma span_eq (sc a a' x b b' : R) :
  a = a' -> b = b' -> span sc a x b -> span sc a' x b'.
Proof. now intros -> ->. Qed.

(** A bound that has been passed is not reached again. *)
Lemma bounds_apart (sc b c x : R) :
  b <= c -> upper_bound sc x b -> lower_bound sc c x -> False.
Proof. unfold lower_bound, upper_bound. intuition lra. Qed.

(** The region of an outline of four corners whose upper and lower edges
    are level, in document units: between the two edges and between the
    two sides, also where the sides have crossed. *)
Lemma inside_quad (sc a b c d t u kl kr : R) (e : Element) (p : Point) :
  sc <> 0 -> t < u ->
  d = a + kl * (u - t) -> c = b + kr * (u - t) ->
  corners e = map (scale_point sc) [(a, t); (b, t); (c, u); (d, u)] ->
  (inside e p <->
   span sc t (snd p * sc) u /\
   (span sc (a + kl * (snd p * sc - t)) (fst p * sc)
         (b + kr * (snd p * sc - t)) \/
    span sc (b + kr * (snd p * sc - t)) (fst p * sc)
         (a + kl * (snd p * sc - t)))).
Proof.
  intros Hsc Htu Hd Hc Hcorners.
  set (qx := fst p * sc). set (qy := snd p * sc).
  unfold inside. rewrite Hcorners. cbn [map odd_crossings].
  rewrite (scale_point_back sc p Hsc). fold qx qy.
  pose proof (level_not_crossed (scale_point sc (a, t)) (scale_point sc (b, t))
                (scale_point sc (qx, qy)) eq_refl) as Htop.
  pose proof (level_not_crossed (scale_point sc (c, u)) (scale_point sc (d, u))
                (scale_point sc (qx, qy)) eq_refl) as Hbottom.
  pose proof (side_crossed sc b c t u kr (qx, qy) Hsc Htu Hc) as Hright.
  pose proof (side_crossed sc a d t u kl (qx, qy) Hsc Htu Hd) as Hleft.
  rewrite crosses_sym in Hleft.
  cbn [fst snd] in Hright, Hleft.
  set (xl := a + kl * (qy - t)) in *. set (xr := b + kr * (qy - t)) in *.
  set (E1 := crosses (scale_point sc (a, t)) (scale_point sc (b, t)) _) in *.
  set (E2 := crosses (scale_point sc (b, t)) (scale_point sc (c, u)) _) in *.
  set (E3 := crosses (scale_point sc (c, u)) (scale_point sc (d, u)) _) in *.
  set (E4 := crosses (scale_point sc (d, u)) (scale_point sc (a, t)) _) in *.
  assert (Hodd : (E1 /\ ~ (E2 /\ ~ (E3 /\ ~ (E4 /\ ~ False \/ ~ E4 /\ False)
                                  \/ ~ E3 /\ (E4 /\ ~ False \/ ~ E4 /\ False))
                         \/ ~ E2 /\ (E3 /\ ~ (E4 /\ ~ False \/ ~ E4 /\ False)
                                     \/ ~ E3 /\ (E4 /\ ~ False \/ ~ E4 /\ False)))
                  \/ ~ E1 /\ (E2 /\ ~ (E3 /\ ~ (E4 /\ ~ False \/ ~ E4 /\ False)
                                        \/ ~ E3 /\ (E4 /\ ~ False \/ ~ E4 /\ False))
                              \/ ~ E2 /\ (E3 /\ ~ (E4 /\ ~ False \/ ~ E4 /\ False)
                                          \/ ~ E3 /\ (E4 /\ ~ False
                                                      \/ ~ E4 /\ False))))
                 <-> (E2 /\ ~ E4 \/ ~ E2 /\ E4)) by tauto.
  rewrite Hodd. clear Hodd Htop Hbottom E1 E3.
  rewrite Hright, Hleft. clear Hright Hleft E2 E4.
  unfold span.
  destruct (Rtotal_order 0 sc) as [Hpos|[Hzero|Hneg]]; [| lra |].
  - destruct (bounds_scaled sc Hpos) as (HL & HU & HX).
    rewrite !HL, !HU, !HX.
    assert (Hl : xl <= qx <-> ~ qx < xl) by (split; lra).
    assert (Hr : xr <= qx <-> ~ qx < xr) by (split; lra).
    rewrite Hl, Hr. tauto.
  - destruct (bounds_turned sc Hneg) as (HL & HU & HX).
    rewrite !HL, !HU, !HX.
    assert (Hl : qx <= xl <-> ~ xl < qx) by (split; lra).
    assert (Hr : qx <= xr <-> ~ xr < qx) by (split; lra).
    rewrite Hl, Hr. tauto.
Qed.

Lemma region_eq (sc t u x y l r l' r' : R) :
  l = l' -> r = r' ->
  (span sc t y u /\ (span sc l x r \/ span sc r x l) <->
   span sc t y u /\ (span sc l' x r' \/ span sc r' x l')).
Proof. now intros -> ->. Qed.

(** The region of the rectangle of one [add_box] call. *)
Lemma inside_box_of (sc x0 y0 x1 y1 : R) (rt : RoutingType) (d : option R)
    (p : Point) :
  sc <> 0 -> x0 <= x1 -> y0 < y1 ->
  (inside (box_of sc x0 y0 x1 y1 rt d) p <->
   span sc y0 (snd p * sc) y1 /\ span sc x0 (fst p * sc) x1).
Proof.
  intros Hsc Hx Hy.
  assert (Hc : corners (box_of sc x0 y0 x1 y1 rt d) =
               map (scale_point sc) [(x0, y0); (x1, y0); (x1, y1); (x0, y1)]).
  { rewrite box_of_ordered by lra. unfold scale_point.
    cbn [corners map fst snd].
    replace (x0 / sc + (x1 - x0) / sc) with (x1 / sc) by (field; exact Hsc).
    replace (y0 / sc + (y1 - y0) / sc) with (y1 / sc) by (field; exact Hsc).
    reflexivity. }
  assert (E0 : x0 = x0 + 0 * (y1 - y0)) by ring.
  assert (E1 : x1 = x1 + 0 * (y1 - y0)) by ring.
  rewrite (inside_quad sc x0 x1 x1 x0 y0 y1 0 0 _ p Hsc Hy E0 E1 Hc).
  split.
  - intros [Hy' [H|H]]; split; try exact Hy'.
    + eapply span_eq; [| |exact H]; ring.
    + apply span_order in H. lra.
  - intros [Hy' H]. split; [exact Hy'|]. left.
    eapply span_eq; [| |exact H]; ring.
Qed.

Lemma overlap_sym (e1 e2 : Element) : overlap e1 e2 -> overlap e2 e1.
Proof. intros [p [H1 H2]]. exists p. now split. Qed.

Lemma boxes_side_by_side (sc a b c d y0 y1 : R) (d1 d2 : option R) :
  sc <> 0 -> a <= b -> b <= c -> c <= d -> y0 < y1 ->
  ~ overlap (box_of sc a y0 b y1 INTERIOR d1)
            (box_of sc c y0 d y1 INTERIOR d2).
Proof.
  intros Hsc Hab Hbc Hcd Hy [p [H1 H2]].
  apply inside_box_of in H1; try assumption.
  apply inside_box_of in H2; try assumption.
  destruct H1 as (_ & _ & R1). destruct H2 as (_ & L2 & _).
  exact (bounds_apart sc b c (fst p * sc) Hbc R1 L2).
Qed.

(** ** The trapezoids of the pin board *)

Lemma smaller_tail_width_eq (o : Options) :
  Derived.smaller_tail_width o =
  width_tails o - 2 * tan (radians (cut_angle o)) * pin_thickness o.
Proof.
  unfold Derived.smaller_tail_width, Derived.upper_tail_diameter,
    Derived.tan_cut_angle. ring.
Qed.

Lemma INR_to_nat (z : Z) : (0 <= z)%Z -> INR (Z.to_nat z) = IZR z.
Proof. intros Hz. rewrite INR_IZR_INZ, Z2Nat.id by assumption. reflexivity. Qed.

Lemma pin_elements_length (sc : R) (o : Options) :
  List.length (pin_half_elements sc o ++ pin_full_elements sc o) =
  (Z.to_nat (num_tails o) + (if Derived.is_odd_tail_count o then 2 else 0))%nat.
Proof.
  rewrite length_app, pin_half_elements_length.
  unfold pin_full_elements. cbn zeta. rewrite pin_paths_length.
  unfold Derived.is_odd_tail_count. rewrite parity_as_odd.
  destruct (Z.odd (num_tails o)); lia.
Qed.

(** The region of a full trapezoid about [x]. *)
Lemma inside_pocket (sc : R) (o : Options) (x : R) (p : Point) :
  sc <> 0 -> valid_parameters o ->
  let buffer := pin_bit_diameter o * __OVERCUTTING_BUFFER_FACTOR__ in
  let h := pocket_half_width o (snd p * sc) in
  (inside (path_of sc
             (trapezoid (Derived.smaller_tail_width o) (width_tails o)
                (buffer * Derived.tan_cut_angle o) (- buffer)
                (pin_thickness o + buffer) x)) p <->
   span sc (- buffer) (snd p * sc) (pin_thickness o + buffer) /\
   (span sc (x - h) (fst p * sc) (x + h) \/
    span sc (x + h) (fst p * sc) (x - h))).
Proof.
  intros Hsc Hv buffer h.
  pose proof Hv as (_ & _ & Hpbd & _ & Hpt & _).
  assert (Htu : - buffer < pin_thickness o + buffer)
    by (unfold buffer, __OVERCUTTING_BUFFER_FACTOR__; lra).
  rewrite (inside_quad sc
             (x - Derived.smaller_tail_width o / 2
                + buffer * Derived.tan_cut_angle o)
             (x + Derived.smaller_tail_width o / 2
                - buffer * Derived.tan_cut_angle o)
             (x + width_tails o / 2 + buffer * Derived.tan_cut_angle o)
             (x - width_tails o / 2 - buffer * Derived.tan_cut_angle o)
             (- buffer) (pin_thickness o + buffer)
             (- Derived.tan_cut_angle o) (Derived.tan_cut_angle o)
             _ p Hsc Htu).
  - apply region_eq; unfold h, pocket_half_width; field.
  - unfold Derived.smaller_tail_width, Derived.upper_tail_diameter. field.
  - unfold Derived.smaller_tail_width, Derived.upper_tail_diameter. field.
  - reflexivity.
Qed.

(** The region of each trapezoid of [add_pin_cuts]: between the upper and
    the lower edge and between its two sides. *)
Lemma pin_cut_region (sc : R) (o : Options) (i : nat) (e : Element)
    (p : Point) :
  sc <> 0 -> valid_parameters o ->
  nth_error (pin_half_elements sc o ++ pin_full_elements sc o) i = Some e ->
  let buffer := pin_bit_diameter o * __OVERCUTTING_BUFFER_FACTOR__ in
  let sides := pin_cut_sides o i (snd p * sc) in
  (inside e p <->
   span sc (- buffer) (snd p * sc) (pin_thickness o + buffer) /\
   (span sc (fst sides) (fst p * sc) (snd sides) \/
    span sc (snd sides) (fst p * sc) (fst sides))).
Proof.
  intros Hsc Hv He buffer sides.
  pose proof Hv as (_ & _ & Hpbd & _ & Hpt & _).
  assert (Htu : - buffer < pin_thickness o + buffer)
    by (unfold buffer, __OVERCUTTING_BUFFER_FACTOR__; lra).
  unfold pin_half_elements, half_tail_paths in He. cbn zeta in He.
  fold buffer in He.
  subst sides. unfold pin_cut_sides, pin_cut_center. cbn zeta.
  destruct (Derived.is_odd_tail_count o) eqn:Hparity.
  - destruct i as [|[|k]]; cbn [app nth_error] in He.
    + (* the left half-tail *)
      injection He as <-. cbn [fst snd].
      rewrite (inside_quad sc (- __HORIZONTAL_BUFFER__)
                 (Derived.smaller_tail_width o / 2
                    - buffer * Derived.tan_cut_angle o)
                 (width_tails o / 2 + buffer * Derived.tan_cut_angle o)
                 (- __HORIZONTAL_BUFFER__)
                 (- buffer) (pin_thickness o + buffer)
                 0 (Derived.tan_cut_angle o) _ p Hsc Htu).
      * apply region_eq; unfold pocket_half_width; field.
      * ring.
      * unfold Derived.smaller_tail_width, Derived.upper_tail_diameter. field.
      * reflexivity.
    + (* the right half-tail *)
      injection He as <-. cbn [fst snd].
      rewrite (inside_quad sc
                 (width o - Derived.smaller_tail_width o / 2
                    + buffer * Derived.tan_cut_angle o)
                 (width o + __HORIZONTAL_BUFFER__)
                 (width o + __HORIZONTAL_BUFFER__)
                 (width o - width_tails o / 2
                    - buffer * Derived.tan_cut_angle o)
                 (- buffer) (pin_thickness o + buffer)
                 (- Derived.tan_cut_angle o) 0 _ p Hsc Htu).
      * apply region_eq; unfold pocket_half_width; field.
      * unfold Derived.smaller_tail_width, Derived.upper_tail_diameter. field.
      * ring.
      * reflexivity.
    + (* a full trapezoid *)
      apply pin_full_elements_nth in He. cbn zeta in He.
      rewrite Hparity in He. subst e.
      cbn [fst snd]. unfold buffer.
      rewrite (inside_pocket sc o _ p Hsc Hv). cbv zeta.
      apply region_eq; field.
  - cbn [app] in He.
    apply pin_full_elements_nth in He. cbn zeta in He.
      rewrite Hparity in He. subst e.
    cbn [fst snd]. unfold buffer.
    rewrite (inside_pocket sc o _ p Hsc Hv). cbv zeta.
    apply region_eq; field.
Qed.

Lemma pin_cut_centers_apart (o : Options) (i j : nat) :
  valid_parameters o -> checks_pass o ->
  (i < j)%nat ->
  (j < Z.to_nat (num_tails o)
       + (if Derived.is_odd_tail_count o then 2 else 0))%nat ->
  let step := Derived.individual_inter_tail_cut_width o + width_tails o in
  0 <= pin_cut_center o i <= width o /\
  0 <= pin_cut_center o j <= width o /\
  (pin_cut_center o i + step <= pin_cut_center o j \/
   pin_cut_center o j + step <= pin_cut_center o i).
Proof.
  intros Hv Hchk Hij Hj step.
  destruct (checks_facts o Hv Hchk) as (_ & _ & Hiw & _).
  pose proof Hv as (_ & _ & _ & _ & _ & HW & Hwt & Hn).
  assert (Hcuts : Derived.num_tail_cuts o <> 0%Z).
  { pose proof (cuts_positive o Hn). lia. }
  pose proof (step_times_cuts o Hcuts) as Hstep. fold step in Hstep.
  assert (Hs : 0 < step) by (unfold step; lra).
  unfold pin_cut_center. cbn zeta. fold step.
  replace (width_tails o + Derived.individual_inter_tail_cut_width o)
    with step by (unfold step; ring).
  destruct (Derived.is_odd_tail_count o) eqn:Hparity.
  - rewrite (odd_cuts o Hparity), plus_IZR in Hstep.
    rewrite <- (INR_to_nat (num_tails o)) in Hstep by lia.
    set (n := Z.to_nat (num_tails o)) in *.
    assert (Hrank : forall k : nat, (k < n)%nat ->
              step <= step + INR k * step /\
              step + INR k * step + step <= width o).
    { intros k Hk. pose proof (pos_INR k) as Hk0.
      assert (Hle : INR k + 1 <= INR n).
      { assert (Hkn : (S k <= n)%nat) by lia.
        apply le_INR in Hkn. now rewrite S_INR in Hkn. }
      assert (0 <= INR k * step) by nra.
      assert ((INR k + 1) * step <= INR n * step)
        by (apply Rmult_le_compat_r; lra).
      split; lra. }
    assert (Hn1 : 1 <= INR n).
    { change 1 with (INR 1). apply le_INR. lia. }
    assert (step <= INR n * step) by nra.
    destruct i as [|[|k]]; destruct j as [|[|l]]; try lia.
    + repeat split; first [lra | left; lra].
    + destruct (Hrank l ltac:(lia)).
      repeat split; first [lra | left; lra].
    + destruct (Hrank l ltac:(lia)).
      repeat split; first [lra | right; lra].
    + destruct (Hrank k ltac:(lia)). destruct (Hrank l ltac:(lia)).
      assert (Hle : INR k + 1 <= INR l).
      { assert (Hkl : (S k <= l)%nat) by lia.
        apply le_INR in Hkl. now rewrite S_INR in Hkl. }
      assert ((INR k + 1) * step <= INR l * step)
        by (apply Rmult_le_compat_r; lra).
      repeat split; first [lra | left; lra].
  - rewrite (even_cuts o Hparity) in Hstep.
    rewrite <- (INR_to_nat (num_tails o)) in Hstep by lia.
    set (n := Z.to_nat (num_tails o)) in *.
    assert (Hrank : forall k : nat, (k < n)%nat ->
              0 <= step / 2 + INR k * step <= width o).
    { intros k Hk. pose proof (pos_INR k) as Hk0.
      assert (Hle : INR k + 1 <= INR n).
      { assert (Hkn : (S k <= n)%nat) by lia.
        apply le_INR in Hkn. now rewrite S_INR in Hkn. }
      assert (0 <= INR k * step) by nra.
      assert ((INR k + 1) * step <= INR n * step)
        by (apply Rmult_le_compat_r; lra).
      split; lra. }
    destruct (Hrank i ltac:(lia)). destruct (Hrank j ltac:(lia)).
    assert (Hle : INR i + 1 <= INR j).
    { assert (Hkl : (S i <= j)%nat) by lia.
      apply le_INR in Hkl. now rewrite S_INR in Hkl. }
    assert ((INR i + 1) * step <= INR j * step)
      by (apply Rmult_le_compat_r; lra).
    repeat split; first [lra | left; lra].
Qed.

Lemma pin_cut_sides_apart (o : Options) (i j : nat) (y : R) :
  valid_parameters o -> checks_pass o ->
  (i < j)%nat ->
  (j < Z.to_nat (num_tails o)
       + (if Derived.is_odd_tail_count o then 2 else 0))%nat ->
  let step := Derived.individual_inter_tail_cut_width o + width_tails o in
  - step <= 2 * pocket_half_width o y <= step ->
  let s1 := pin_cut_sides o i y in
  let s2 := pin_cut_sides o j y in
  (fst s1 <= fst s2 /\ fst s1 <= snd s2 /\
   snd s1 <= fst s2 /\ snd s1 <= snd s2) \/
  (fst s2 <= fst s1 /\ fst s2 <= snd s1 /\
   snd s2 <= fst s1 /\ snd s2 <= snd s1).
Proof.
  intros Hv Hchk Hij Hj step Hh s1 s2.
  destruct (checks_facts o Hv Hchk) as (_ & _ & Hiw & _).
  pose proof Hv as (_ & _ & _ & _ & _ & HW & Hwt & _).
  destruct (pin_cut_centers_apart o i j Hv Hchk Hij Hj) as (Hci & Hcj & Hgap).
  fold step in Hgap.
  assert (Hstep : 0 < step) by (unfold step; lra).
  subst s1 s2. unfold pin_cut_sides. cbn zeta.
  set (h := pocket_half_width o y) in *.
  unfold __HORIZONTAL_BUFFER__.
  destruct (Derived.is_odd_tail_count o) eqn:Hparity.
  - unfold pin_cut_center in Hci, Hcj, Hgap. cbn zeta in Hci, Hcj, Hgap.
    rewrite Hparity in Hci, Hcj, Hgap.
    destruct i as [|[|k]]; destruct j as [|[|l]]; try lia;
      unfold pin_cut_center; cbn zeta; rewrite ?Hparity; cbn [fst snd];
      (destruct Hgap as [Hgap|Hgap]; [left|right]; repeat split; lra).
  - cbn [fst snd].
    destruct Hgap as [Hgap|Hgap]; [left|right]; repeat split; lra.
Qed.

(** Two different trapezoids share no point at a height at which a pocket
    is at most as wide as the step from one pocket to the next. *)
Lemma pin_cuts_apart_at (sc : R) (o : Options) (i j : nat)
    (e1 e2 : Element) (p : Point) :
  sc <> 0 -> valid_parameters o -> checks_pass o ->
  i <> j ->
  nth_error (pin_half_elements sc o ++ pin_full_elements sc o) i = Some e1 ->
  nth_error (pin_half_elements sc o ++ pin_full_elements sc o) j = Some e2 ->
  let step := Derived.individual_inter_tail_cut_width o + width_tails o in
  - step <= 2 * pocket_half_width o (snd p * sc) <= step ->
  ~ (inside e1 p /\ inside e2 p).
Proof.
  intros Hsc Hv Hchk Hij H1 H2 step Hh.
  assert (Hlt : forall (i j : nat) (e1 e2 : Element),
            (i < j)%nat ->
            nth_error (pin_half_elements sc o ++ pin_full_elements sc o) i
              = Some e1 ->
            nth_error (pin_half_elements sc o ++ pin_full_elements sc o) j
              = Some e2 ->
            ~ (inside e1 p /\ inside e2 p)).
  { clear i j e1 e2 Hij H1 H2. intros i j e1 e2 Hij H1 H2 [Hin1 Hin2].
    assert (Hj : (j < Z.to_nat (num_tails o)
                      + (if Derived.is_odd_tail_count o then 2 else 0))%nat).
    { assert (Hsome : nth_error (pin_half_elements sc o
                                 ++ pin_full_elements sc o) j <> None)
        by (rewrite H2; discriminate).
      apply nth_error_Some in Hsome.
      now rewrite pin_elements_length in Hsome. }
    pose proof (proj1 (pin_cut_region sc o i e1 p Hsc Hv H1) Hin1) as R1.
    pose proof (proj1 (pin_cut_region sc o j e2 p Hsc Hv H2) Hin2) as R2.
    cbv zeta in R1, R2.
    pose proof (pin_cut_sides_apart o i j (snd p * sc) Hv Hchk Hij Hj Hh)
      as Hsides.
    cbv zeta in Hsides.
    destruct R1 as (_ & [[L1 U1]|[L1 U1]]);
      destruct R2 as (_ & [[L2 U2]|[L2 U2]]);
      destruct Hsides as [(A & B & C & D)|(A & B & C & D)];
      first [ exact (bounds_apart sc _ _ _ A U1 L2)
            | exact (bounds_apart sc _ _ _ B U1 L2)
            | exact (bounds_apart sc _ _ _ C U1 L2)
            | exact (bounds_apart sc _ _ _ D U1 L2)
            | exact (bounds_apart sc _ _ _ A U2 L1)
            | exact (bounds_apart sc _ _ _ B U2 L1)
            | exact (bounds_apart sc _ _ _ C U2 L1)
            | exact (bounds_apart sc _ _ _ D U2 L1) ]. }
  destruct (Nat.lt_ge_cases i j) as [Hlt'|Hge].
  - exact (Hlt i j e1 e2 Hlt' H1 H2).
  - intros [Hin1 Hin2].
    apply (Hlt j i e2 e1 ltac:(lia) H2 H1). now split.
Qed.

(** Between the faces of the board a pocket is at most a tail wide. *)
Lemma half_width_in_board (o : Options) (y : R) :
  valid_parameters o -> checks_pass o ->
  0 <= y <= pin_thickness o ->
  let step := Derived.individual_inter_tail_cut_width o + width_tails o in
  0 < 2 * pocket_half_width o y <= width_tails o /\
  - step <= 2 * pocket_half_width o y <= step.
Proof.
  intros Hv Hchk Hy step.
  destruct (checks_facts o Hv Hchk) as (_ & Hswt & Hiw & Htan).
  pose proof Hv as (_ & _ & Hpbd & _ & Hpt & _ & Hwt & _).
  pose proof (taper_of_tail o) as Htaper.
  unfold pocket_half_width, step.
  assert (0 <= Derived.tan_cut_angle o * y) by nra.
  assert (Derived.tan_cut_angle o * y
          <= Derived.tan_cut_angle o * pin_thickness o) by nra.
  lra.
Qed.

(** Through the buffers it is at most [2 * delta_x] wider. *)
Lemma half_width_in_buffers (o : Options) (y : R) :
  valid_parameters o -> checks_pass o ->
  let buffer := pin_bit_diameter o * __OVERCUTTING_BUFFER_FACTOR__ in
  let delta_x := buffer * Derived.tan_cut_angle o in
  let step := Derived.individual_inter_tail_cut_width o + width_tails o in
  2 * delta_x <= Derived.individual_inter_tail_cut_width o ->
  - buffer <= y <= pin_thickness o + buffer ->
  - step <= 2 * pocket_half_width o y <= step.
Proof.
  intros Hv Hchk buffer delta_x step Hgap Hy.
  destruct (checks_facts o Hv Hchk) as (_ & Hswt & Hiw & Htan).
  pose proof Hv as (_ & _ & Hpbd & _ & Hpt & _ & Hwt & _).
  pose proof (taper_of_tail o) as Htaper.
  unfold pocket_half_width, step. unfold delta_x in Hgap.
  assert (- (buffer * Derived.tan_cut_angle o)
          <= Derived.tan_cut_angle o * y) by nra.
  assert (Derived.tan_cut_angle o * y
          <= Derived.tan_cut_angle o * pin_thickness o
             + buffer * Derived.tan_cut_angle o) by nra.
  lra.
Qed.

Lemma pin_cuts_apart_in_board (sc : R) (o : Options) (i j : nat)
    (e1 e2 : Element) (p : Point) :
  sc <> 0 -> valid_parameters o -> checks_pass o ->
  i <> j ->
  nth_error (pin_half_elements sc o ++ pin_full_elements sc o) i = Some e1 ->
  nth_error (pin_half_elements sc o ++ pin_full_elements sc o) j = Some e2 ->
  0 <= snd p * sc <= pin_thickness o ->
  ~ (inside e1 p /\ inside e2 p).
Proof.
  intros Hsc Hv Hchk Hij H1 H2 Hy.
  apply (pin_cuts_apart_at sc o i j); try assumption.
  apply (half_width_in_board o _ Hv Hchk Hy).
Qed.

Lemma pin_cuts_disjoint (sc : R) (o : Options) (i j : nat)
    (e1 e2 : Element) :
  sc <> 0 -> valid_parameters o -> checks_pass o ->
  i <> j ->
  nth_error (pin_half_elements sc o ++ pin_full_elements sc o) i = Some e1 ->
  nth_error (pin_half_elements sc o ++ pin_full_elements sc o) j = Some e2 ->
  2 * (pin_bit_diameter o * __OVERCUTTING_BUFFER_FACTOR__
       * Derived.tan_cut_angle o)
    <= Derived.individual_inter_tail_cut_width o ->
  ~ overlap e1 e2.
Proof.
  intros Hsc Hv Hchk Hij H1 H2 Hgap [p [Hin1 Hin2]].
  pose proof (proj1 (pin_cut_region sc o i e1 p Hsc Hv H1) Hin1) as R1.
  cbv zeta in R1. destruct R1 as (Hy & _). apply span_order in Hy.
  apply (pin_cuts_apart_at sc o i j e1 e2 p); try assumption; [|now split].
  apply (half_width_in_buffers o _ Hv Hchk Hgap). lra.
Qed.

(** Each trapezoid holds the point of its centre line ([pin_cut_center])
    half way through the board. *)
Lemma pin_cut_holds_center (sc : R) (o : Options) (i : nat) (e : Element) :
  sc <> 0 -> valid_parameters o -> checks_pass o ->
  nth_error (pin_half_elements sc o ++ pin_full_elements sc o) i = Some e ->
  inside e (pin_cut_center o i / sc, pin_thickness o / 2 / sc).
Proof.
  intros Hsc Hv Hchk He.
  apply (pin_cut_region sc o i e _ Hsc Hv He). cbv zeta. cbn [fst snd].
  replace (pin_thickness o / 2 / sc * sc) with (pin_thickness o / 2)
    by (field; exact Hsc).
  replace (pin_cut_center o i / sc * sc) with (pin_cut_center o i)
    by (field; exact Hsc).
  pose proof Hv as (_ & _ & Hpbd & _ & Hpt & HW & _).
  assert (Hy : 0 <= pin_thickness o / 2 <= pin_thickness o) by lra.
  destruct (half_width_in_board o _ Hv Hchk Hy) as ((Hh & _) & _).
  set (h := pocket_half_width o (pin_thickness o / 2)) in *.
  assert (Hspan : forall a x b : R, a < x -> x < b -> span sc a x b).
  { intros a x b Ha Hb. unfold span, lower_bound, upper_bound.
    destruct (Rtotal_order 0 sc) as [Hpos|[Hzero|Hneg]];
      [split; left; lra | lra | split; right; lra]. }
  split.
  - apply Hspan; unfold __OVERCUTTING_BUFFER_FACTOR__; lra.
  - left. unfold pin_cut_sides. cbn zeta. fold h.
    unfold __HORIZONTAL_BUFFER__.
    destruct (Derived.is_odd_tail_count o) eqn:Hparity.
    + destruct i as [|[|k]]; cbn [fst snd];
        unfold pin_cut_center; cbn zeta; rewrite ?Hparity;
        apply Hspan; lra.
    + cbn [fst snd]. apply Hspan; lra.
Qed.

(** ** A single tail *)

Lemma single_tail_odd (o : Options) :
  num_tails o = 1%Z -> Derived.is_odd_tail_count o = true.
Proof. unfold Derived.is_odd_tail_count. now intros ->. Qed.

Lemma single_tail_board_width (o : Options) :
  num_tails o = 1%Z ->
  width o = 2 * (width_tails o + Derived.individual_inter_tail_cut_width o).
Proof.
  intros Hn.
  assert (Hcuts : Derived.num_tail_cuts o = 2%Z).
  { rewrite (odd_cuts o (single_tail_odd o Hn)), Hn. reflexivity. }
  assert (Hne : Derived.num_tail_cuts o <> 0%Z) by lia.
  pose proof (step_times_cuts o Hne) as H. rewrite Hcuts in H. lra.
Qed.

Lemma single_tail_pin_elements (sc : R) (o : Options) :
  num_tails o = 1%Z ->
  let buffer := pin_bit_diameter o * __OVERCUTTING_BUFFER_FACTOR__ in
  let delta_x := buffer * Derived.tan_cut_angle o in
  let swt := Derived.smaller_tail_width o in
  let iw := Derived.individual_inter_tail_cut_width o in
  pin_half_elements sc o ++ pin_full_elements sc o =
  [ path_of sc
      [ (- __HORIZONTAL_BUFFER__, - buffer);
        (swt / 2 - delta_x, - buffer);
        (width_tails o / 2 + delta_x, pin_thickness o + buffer);
        (- __HORIZONTAL_BUFFER__, pin_thickness o + buffer) ];
    path_of sc
      [ (width o - swt / 2 + delta_x, - buffer);
        (width o + __HORIZONTAL_BUFFER__, - buffer);
        (width o + __HORIZONTAL_BUFFER__, pin_thickness o + buffer);
        (width o - width_tails o / 2 - delta_x, pin_thickness o + buffer) ];
    path_of sc
      (trapezoid swt (width_tails o) delta_x (- buffer)
                 (pin_thickness o + buffer) (width_tails o + iw)) ].
Proof.
  intros Hn. unfold pin_half_elements, pin_full_elements, half_tail_paths.
  cbn zeta. rewrite (single_tail_odd o Hn), Hn. reflexivity.
Qed.

Lemma single_tail_cut_elements (sc : R) (o : Options) (y0 : R) :
  num_tails o = 1%Z ->
  let start_y := y0 - tail_bit_diameter o * __OVERCUTTING_BUFFER_FACTOR__ in
  let end_y :=
    y0 + tail_thickness o +
    tail_bit_diameter o * __LOWER_OVERCUTTING_BUFFER_DOVETAIL_BIT_FACTOR__ in
  let iw := Derived.individual_inter_tail_cut_width o in
  let x := width_tails o / 2 in
  tail_cut_elements sc o y0 =
  [ box_of sc x start_y (x + iw) end_y INTERIOR (Some (pin_thickness o));
    box_of sc (x + iw + width_tails o) start_y
           (x + iw + width_tails o + iw) end_y
           INTERIOR (Some (pin_thickness o)) ].
Proof.
  intros Hn. unfold tail_cut_elements. cbn zeta.
  rewrite (single_tail_odd o Hn), Hn. reflexivity.
Qed.

(** C8, as the code has it. With a single tail the pin board gets the two
    half-tail trapezoids, which start 2 mm outside the board, and one full
    trapezoid in the middle; the tail board gets two rectangles, which
    never overlap. Each trapezoid holds the point of its centre line half
    way through the board. Within the thickness of the pin board no two
    trapezoids overlap; in the buffers they stay apart when the cut between
    the tails is at least [2 * delta_x] wide. *)
Theorem single_tail_layout (fuel : nat) (y0 : R) (s : Extension) :
  valid_parameters (options s) ->
  validated s ->
  inkscape_scale s <> 0 ->
  num_tails (options s) = 1%Z ->
  (2 < fuel)%nat ->
  let o := options s in
  let sc := inkscape_scale s in
  let buffer := pin_bit_diameter o * (55 / 100) in
  let delta_x := buffer * tan (radians (cut_angle o)) in
  let swt := Derived.smaller_tail_width o in
  let iw := Derived.individual_inter_tail_cut_width o in
  (exists (end_y : R) (s' : Extension) (left right full : Element),
     add_pin_cuts s = Normal end_y s' /\
     added s s' [left; right; full] /\
     corners left =
       map (scale_point sc)
         [ (- 2, - buffer); (swt / 2 - delta_x, - buffer);
           (width_tails o / 2 + delta_x, pin_thickness o + buffer);
           (- 2, pin_thickness o + buffer) ] /\
     corners right =
       map (scale_point sc)
         [ (width o - swt / 2 + delta_x, - buffer);
           (width o + 2, - buffer);
           (width o + 2, pin_thickness o + buffer);
           (width o - width_tails o / 2 - delta_x, pin_thickness o + buffer) ] /\
     corners full =
       map (scale_point sc)
         (trapezoid swt (width_tails o) delta_x (- buffer)
                    (pin_thickness o + buffer) (width_tails o + iw)) /\
     inside left (0 / sc, pin_thickness o / 2 / sc) /\
     inside full ((width_tails o + iw) / sc, pin_thickness o / 2 / sc) /\
     inside right (width o / sc, pin_thickness o / 2 / sc) /\
     (forall p : Point, 0 <= snd p * sc <= pin_thickness o ->
        ~ (inside left p /\ inside full p) /\
        ~ (inside full p /\ inside right p) /\
        ~ (inside left p /\ inside right p)) /\
     (2 * delta_x <= iw ->
        ~ overlap left full /\ ~ overlap full right /\ ~ overlap left right)) /\
  (exists (end_y : R) (s' : Extension) (box1 box2 : Element),
     add_tail_cuts fuel y0 s = Normal end_y s' /\
     added s s' [box1; box2] /\
     is_rectangle box1 = true /\ is_rectangle box2 = true /\
     rect_x box1 = Some (width_tails o / 2 / sc) /\
     rect_x box2 = Some ((width_tails o / 2 + iw + width_tails o) / sc) /\
     rect_width box1 = Some (iw / sc) /\
     rect_width box2 = Some (iw / sc) /\
     ~ overlap box1 box2).
Proof.
  intros Hv Hval Hsc Hn Hfuel o sc buffer delta_x swt iw.
  destruct (validated_inv s Hval) as (_ & Hchk & _). fold o in Hchk.
  destruct (checks_facts o Hv Hchk) as (_ & _ & Hiw & _).
  fold iw in Hiw.
  pose proof Hv as (_ & Htbd & Hpbd & Htt & Hpt & _ & Hwt & _).
  fold o in Hv, Htbd, Hpbd, Htt, Hpt, Hwt.
  pose proof (single_tail_pin_elements sc o Hn) as Hlist. cbv zeta in Hlist.
  assert (Hparity : Derived.is_odd_tail_count o = true)
    by now apply single_tail_odd.
  set (left := path_of sc _) in Hlist at 1.
  set (right := path_of sc _) in Hlist at 1.
  set (full := path_of sc _) in Hlist at 1.
  assert (H0 : nth_error (pin_half_elements sc o ++ pin_full_elements sc o) 0
               = Some left) by now rewrite Hlist.
  assert (H1 : nth_error (pin_half_elements sc o ++ pin_full_elements sc o) 1
               = Some right) by now rewrite Hlist.
  assert (H2 : nth_error (pin_half_elements sc o ++ pin_full_elements sc o) 2
               = Some full) by now rewrite Hlist.
  split.
  - exists (pin_thickness o + pin_bit_diameter o * __OVERCUTTING_BUFFER_FACTOR__),
      (layer_extend (pin_half_elements sc o ++ pin_full_elements sc o) s),
      left, right, full.
    split; [apply add_pin_cuts_ok; assumption|].
    split; [unfold added, layer_extend; cbn [current_layer]; fold o sc;
            now rewrite Hlist|].
    split; [reflexivity|]. split; [reflexivity|]. split; [reflexivity|].
    split.
    { pose proof (pin_cut_holds_center sc o 0 left Hsc Hv Hchk H0) as Hc.
      unfold pin_cut_center in Hc. cbn zeta in Hc.
      now rewrite Hparity in Hc. }
    split.
    { pose proof (pin_cut_holds_center sc o 2 full Hsc Hv Hchk H2) as Hc.
      unfold pin_cut_center in Hc. cbn zeta in Hc.
      rewrite Hparity in Hc. cbn [INR] in Hc. fold iw in Hc.
      replace (width_tails o + iw + 0 * (iw + width_tails o))
        with (width_tails o + iw) in Hc by ring.
      exact Hc. }
    split.
    { pose proof (pin_cut_holds_center sc o 1 right Hsc Hv Hchk H1) as Hc.
      unfold pin_cut_center in Hc. cbn zeta in Hc.
      now rewrite Hparity in Hc. }
    split.
    + intros p Hp. repeat split.
      * apply (pin_cuts_apart_in_board sc o 0 2); try assumption. lia.
      * apply (pin_cuts_apart_in_board sc o 2 1); try assumption. lia.
      * apply (pin_cuts_apart_in_board sc o 0 1); try assumption. lia.
    + intros Hgap.
      assert (Hgap' : 2 * (pin_bit_diameter o * __OVERCUTTING_BUFFER_FACTOR__
                           * Derived.tan_cut_angle o)
                      <= Derived.individual_inter_tail_cut_width o).
      { unfold delta_x, buffer in Hgap.
        unfold __OVERCUTTING_BUFFER_FACTOR__, Derived.tan_cut_angle.
        exact Hgap. }
      repeat split.
      * apply (pin_cuts_disjoint sc o 0 2); try assumption. lia.
      * apply (pin_cuts_disjoint sc o 2 1); try assumption. lia.
      * apply (pin_cuts_disjoint sc o 0 1); try assumption. lia.
  - do 4 eexists. split; [apply add_tail_cuts_ok; try assumption|].
    { rewrite Hn. cbn. lia. }
    split.
    { unfold added, layer_extend. cbn [current_layer]. fold o sc.
      rewrite (single_tail_cut_elements sc o y0 Hn). reflexivity. }
    cbv zeta. fold iw.
    unfold __OVERCUTTING_BUFFER_FACTOR__,
      __LOWER_OVERCUTTING_BUFFER_DOVETAIL_BIT_FACTOR__.
    repeat split;
      try (rewrite box_of_ordered by lra; cbn [is_rectangle rect_x rect_width];
           first [reflexivity | do 2 f_equal; lra]).
    apply boxes_side_by_side; try assumption; lra.
Qed.

Lemma single_tail_layout_45 :
  let s := after_cut_width (init (options_45 2 12 150 1) 1 []) in
  (exists (end_y : R) (s' : Extension) (left right full : Element),
     add_pin_cuts s = Normal end_y s' /\
     added s s' [left; right; full] /\
     top_edge_width full = Some ((8 - 2 * (8 * (55 / 100) * 1)) / 1) /\
     inside left (0 / 1, 2 / 2 / 1) /\
     inside full ((12 + 63) / 1, 2 / 2 / 1) /\
     inside right (150 / 1, 2 / 2 / 1) /\
     ~ overlap left full /\ ~ overlap full right /\ ~ overlap left right) /\
  (exists (end_y : R) (s' : Extension) (box1 box2 : Element),
     add_tail_cuts 3 0 s = Normal end_y s' /\
     added s s' [box1; box2] /\
     is_rectangle box1 = true /\ is_rectangle box2 = true /\
     ~ overlap box1 box2).
Proof.
  intros s.
  assert (Hv : valid_parameters (options s)) by concrete_parameters.
  assert (Hval : validated s).
  { apply validated_45; cbn; try lra; lia. }
  assert (Hsc : inkscape_scale s <> 0) by (cbn; lra).
  assert (Hn : num_tails (options s) = 1%Z) by reflexivity.
  assert (Hfuel : (2 < 3)%nat) by lia.
  destruct (values_45 2 12 150 1) as [_ Hs]. cbv zeta in Hs.
  pose proof (tan_45 2 12 150 1) as Ht.
  assert (Hi : Derived.individual_inter_tail_cut_width
                 (options_45 2 12 150 1) = 63).
  { unfold Derived.individual_inter_tail_cut_width,
      Derived.cumulative_tail_width. cbn. lra. }
  destruct (single_tail_layout 3 0 s Hv Hval Hsc Hn Hfuel) as [Hpin Htail].
  split.
  - destruct Hpin
      as (end_y & s' & left & right & full & Hrun & Hadd & _ & _ & Hfull
          & Hl & Hf & Hr & _ & Hwide).
    exists end_y, s', left, right, full.
    split; [exact Hrun|]. split; [exact Hadd|].
    change (options s) with (options_45 2 12 150 1)
      in Hfull, Hl, Hf, Hr, Hwide.
    change (inkscape_scale s) with 1 in Hfull, Hl, Hf, Hr.
    change (tan (radians (cut_angle (options_45 2 12 150 1))))
      with (Derived.tan_cut_angle (options_45 2 12 150 1)) in Hfull, Hwide.
    rewrite Ht in Hfull, Hwide. rewrite Hs in Hfull. rewrite Hi in Hf, Hwide.
    cbn [pin_bit_diameter pin_thickness width_tails width options_45]
      in Hfull, Hl, Hf, Hr, Hwide.
    split.
    { unfold top_edge_width. rewrite Hfull.
      unfold trapezoid, scale_point. cbn [map fst snd].
      f_equal. lra. }
    split; [exact Hl|]. split; [exact Hf|]. split; [exact Hr|].
    apply Hwide. lra.
  - destruct Htail
      as (end_y & s' & box1 & box2 & Hrun & Hadd & Hr1 & Hr2 & _ & _ & _ & _
          & Hapart).
    exists end_y, s', box1, box2. repeat split; assumption.
Defined.

(** C8, as stated, fails: with a 45 degree cutter, an 8 mm straight bit, a
    6.5 mm pin board, one 23 mm tail and a board of 48 mm the check
    passes (the cut between the tails is 1 mm, the cutter 0.8 mm), and the
    left half-tail trapezoid and the full trapezoid both contain the point
    (12, 10), which lies in the buffer below the board. *)
Lemma single_tail_trapezoids_overlap_45 :
  let s := after_cut_width (init (options_45 (65 / 10) 23 48 1) 1 []) in
  valid_parameters (options s) /\
  validated s /\
  exists (end_y : R) (s' : Extension) (left right full : Element),
    add_pin_cuts s = Normal end_y s' /\
    added s s' [left; right; full] /\
    inside left (12, 10) /\
    inside full (12, 10) /\
    overlap left full.
Proof.
  intros s.
  assert (Hv : valid_parameters (options s)) by concrete_parameters.
  assert (Hval : validated s).
  { apply validated_45; cbn; try lra; lia. }
  assert (Hsc : inkscape_scale s <> 0) by (cbn; lra).
  assert (Hn : num_tails (options s) = 1%Z) by reflexivity.
  split; [exact Hv|]. split; [exact Hval|].
  destruct (validated_inv s Hval) as (_ & Hchk & _).
  change (options s) with (options_45 (65 / 10) 23 48 1) in Hv, Hn, Hchk.
  change (inkscape_scale s) with 1 in Hsc.
  destruct (values_45 (65 / 10) 23 48 1) as [_ Hs]. cbv zeta in Hs.
  pose proof (tan_45 (65 / 10) 23 48 1) as Ht.
  pose proof (single_tail_odd _ Hn) as Hparity.
  assert (Hi : Derived.individual_inter_tail_cut_width
                 (options_45 (65 / 10) 23 48 1) = 1).
  { unfold Derived.individual_inter_tail_cut_width,
      Derived.cumulative_tail_width. cbn. lra. }
  pose proof (single_tail_pin_elements 1 _ Hn) as Hlist. cbv zeta in Hlist.
  set (left := path_of 1 _) in Hlist at 1.
  set (right := path_of 1 _) in Hlist at 1.
  set (full := path_of 1 _) in Hlist at 1.
  assert (H0 : nth_error
                 (pin_half_elements 1 (options_45 (65 / 10) 23 48 1)
                  ++ pin_full_elements 1 (options_45 (65 / 10) 23 48 1)) 0
               = Some left) by now rewrite Hlist.
  assert (H2 : nth_error
                 (pin_half_elements 1 (options_45 (65 / 10) 23 48 1)
                  ++ pin_full_elements 1 (options_45 (65 / 10) 23 48 1)) 2
               = Some full) by now rewrite Hlist.
  assert (Hleft : inside left (12, 10)).
  { apply (pin_cut_region 1 _ 0 left (12, 10) Hsc Hv H0).
    cbv zeta. cbn [fst snd].
    unfold pin_cut_sides, pocket_half_width. cbn zeta.
    rewrite Hparity, Hs, Ht. cbn [fst snd].
    unfold span, lower_bound, upper_bound, __HORIZONTAL_BUFFER__,
      __OVERCUTTING_BUFFER_FACTOR__.
    cbn [pin_bit_diameter pin_thickness options_45].
    split; [split; left; lra|left; split; left; lra]. }
  assert (Hfull : inside full (12, 10)).
  { apply (pin_cut_region 1 _ 2 full (12, 10) Hsc Hv H2).
    cbv zeta. cbn [fst snd].
    unfold pin_cut_sides, pin_cut_center, pocket_half_width. cbn zeta.
    rewrite Hparity, Hs, Ht, Hi. cbn [fst snd INR].
    unfold span, lower_bound, upper_bound, __OVERCUTTING_BUFFER_FACTOR__.
    cbn [pin_bit_diameter pin_thickness width_tails options_45].
    split; [split; left; lra|left; split; left; lra]. }
  exists (pin_thickness (options s)
          + pin_bit_diameter (options s) * __OVERCUTTING_BUFFER_FACTOR__),
    (layer_extend (pin_half_elements (inkscape_scale s) (options s)
                   ++ pin_full_elements (inkscape_scale s) (options s)) s),
    left, right, full.
  split; [apply add_pin_cuts_ok; [exact Hval|cbn; lra]|].
  split.
  { unfold added, layer_extend. cbn [current_layer].
    change (options s) with (options_45 (65 / 10) 23 48 1).
    change (inkscape_scale s) with 1.
    now rewrite Hlist. }
  split; [exact Hleft|]. split; [exact Hfull|].
  exists (12, 10). split; [exact Hleft|exact Hfull].
Qed.
(** ** The whole effect on accepted parameters *)

Lemma scale_extend (es : list Element) (s : Extension) :
  inkscape_scale (layer_extend es s) = inkscape_scale s.
Proof. reflexivity. Qed.

Lemma options_extend (es : list Element) (s : Extension) :
  options (layer_extend es s) = options s.
Proof. reflexivity. Qed.

Lemma upper_tail_diameter_extend (es : list Element) (s : Extension) :
  upper_tail_diameter (layer_extend es s) = upper_tail_diameter s.
Proof. reflexivity. Qed.

(** After a drawing step: one extension of the layer of the first state. *)
Ltac drawn :=
  cbn beta iota zeta;
  rewrite ?layer_add_extend, ?layer_extend_app, ?scale_extend,
    ?options_extend, ?upper_tail_diameter_extend.

Lemma add_pin_board_ok (s : Extension) :
  validated s ->
  inkscape_scale s <> 0 ->
  add_pin_board s =
  Normal (pin_thickness (options s) +
          pin_bit_diameter (options s) * __OVERCUTTING_BUFFER_FACTOR__)
         (layer_extend (pin_board_elements (inkscape_scale s) (options s)) s).
Proof.
  intros Hval Hsc. unfold add_pin_board, bind, gets, modify, ret.
  rewrite add_box_ok by assumption. drawn.
  rewrite add_pin_cuts_ok by (try apply validated_extend; assumption). drawn.
  rewrite du2uu_ok by assumption. drawn.
  rewrite du2uu_ok by assumption. drawn.
  rewrite add_text_ok by assumption. drawn.
  rewrite add_text_ok by assumption. drawn.
  unfold pin_board_elements. cbn [app]. rewrite <- !app_assoc. cbn [app].
  reflexivity.
Qed.

Lemma add_tail_board_ok (fuel : nat) (y0 : R) (s : Extension) :
  valid_parameters (options s) ->
  validated s ->
  inkscape_scale s <> 0 ->
  (Z.to_nat (num_tails (options s) + 1) < fuel)%nat ->
  add_tail_board fuel y0 s =
  Normal tt
    (layer_extend (tail_board_elements (inkscape_scale s) (options s) y0) s).
Proof.
  intros Hv Hval Hsc Hfuel.
  destruct (validated_inv s Hval) as ((_ & _ & Hutd & _) & _).
  unfold add_tail_board, bind, gets, modify, attr, ret.
  rewrite add_box_ok by assumption. drawn.
  rewrite add_tail_cuts_ok by (try apply validated_extend; assumption). drawn.
  rewrite du2uu_ok by assumption. drawn.
  rewrite du2uu_ok by assumption. drawn.
  do 3 (rewrite add_text_ok by assumption; drawn).
  rewrite Hutd. drawn.
  do 5 (rewrite add_text_ok by assumption; drawn).
  unfold tail_board_elements. cbn [app]. rewrite <- !app_assoc. cbn [app].
  reflexivity.
Qed.

(** On valid parameters that pass the check, [shaper_effect] returns after
    drawing the pin board and, 50 mm below its lower end, the tail board. *)
Lemma shaper_effect_ok (fuel : nat) (s s1 : Extension) :
  valid_parameters (options s) ->
  inkscape_scale s <> 0 ->
  (Z.to_nat (num_tails (options s) + 1) < fuel)%nat ->
  calc_and_check_parameters s = Normal None s1 ->
  let o := options s in
  let sc := inkscape_scale s in
  let lower_end :=
    pin_thickness o + pin_bit_diameter o * __OVERCUTTING_BUFFER_FACTOR__ in
  shaper_effect fuel s =
  Normal tt
    (layer_extend
       (pin_board_elements sc o ++
        tail_board_elements sc o (lower_end + __VERTICAL_OFFSET_BOARDS__))
       s1).
Proof.
  intros Hv Hsc Hfuel Hrun o sc lower_end.
  destruct (calc_frame s s1 None Hrun) as (Ho & Hs & _).
  pose proof (validated_by_check s s1 Hrun) as Hval.
  unfold shaper_effect, bind. rewrite Hrun.
  rewrite add_pin_board_ok by (try rewrite Hs; assumption).
  rewrite add_tail_board_ok;
    cbn [options inkscape_scale layer_extend];
    try (apply validated_extend; assumption);
    try rewrite Ho; try rewrite Hs; try assumption.
  rewrite layer_extend_app. reflexivity.
Qed.

(** * Further properties of the code *)

(** ** The parameter check as a whole *)

Lemma check_accepts_iff (s : Extension) :
  valid_parameters (options s) ->
  ((exists s' : Extension, calc_and_check_parameters s = Normal None s')
   <-> checks_pass (options s)).
Proof.
  intros Hv.
  assert (Hn : (1 <= num_tails (options s))%Z) by apply Hv.
  pose proof (cuts_positive _ Hn) as Hcuts.
  rewrite calc_and_check_parameters_eq. cbn zeta. unfold checks_pass.
  destruct (Rle_dec _ 0) as [H1|H1].
  { split; [intros [s' H]; discriminate|tauto]. }
  destruct (Rlt_dec _ (pin_bit_diameter _)) as [H2|H2].
  { split; [intros [s' H]; discriminate|tauto]. }
  destruct (Rge_dec _ _) as [H3|H3].
  { split; [intros [s' H]; discriminate|tauto]. }
  destruct (Rgt_dec _ _) as [_|Hassert]; [|exfalso; lra].
  destruct (Z.eqb_spec (Derived.num_tail_cuts (options s)) 0) as [Hz|_];
    [lia|].
  destruct (Rlt_dec _ _) as [H4|H4].
  { split; [intros [s' H]; discriminate|tauto]. }
  split; [tauto|]. intros _. eexists. reflexivity.
Qed.

(** X1. Which parameters the check accepts, in terms of the options alone:
    the cutter keeps a positive diameter at the top of the pin board, the
    tail is at least the straight bit plus the taper wide, and the board
    holds [num_tail_cuts] tails with a cut of the upper cutter diameter
    beside each. The board width check never decides acceptance: what it
    rejects the last check rejects too. *)
Theorem acceptance_in_closed_form (s : Extension) :
  valid_parameters (options s) ->
  let o := options s in
  let t := tan (radians (cut_angle o)) in
  let cuts := if Z.odd (num_tails o) then (num_tails o + 1)%Z else num_tails o in
  (exists s' : Extension, calc_and_check_parameters s = Normal None s')
  <->
  (2 * t * pin_thickness o < tail_bit_diameter o /\
   pin_bit_diameter o + 2 * t * pin_thickness o <= width_tails o /\
   IZR cuts * (width_tails o + (tail_bit_diameter o - 2 * t * pin_thickness o))
     <= width o).
Proof.
  intros Hv o t cuts.
  rewrite (check_accepts_iff s Hv). fold o.
  assert (Hn : (1 <= num_tails o)%Z) by apply Hv.
  assert (Hcuts : Derived.num_tail_cuts o = cuts).
  { unfold Derived.num_tail_cuts, Derived.is_odd_tail_count, cuts.
    now rewrite parity_as_odd. }
  pose proof (cuts_positive o Hn) as Hpos. rewrite Hcuts in Hpos.
  assert (Hc : 0 < IZR cuts) by (apply IZR_lt; lia).
  unfold checks_pass, Derived.individual_inter_tail_cut_width,
    Derived.cumulative_tail_width, Derived.smaller_tail_width,
    Derived.upper_tail_diameter, Derived.tan_cut_angle.
  rewrite Hcuts. fold t.
  set (u := tail_bit_diameter o - 2 * t * pin_thickness o).
  set (q := (width o - IZR cuts * width_tails o) / IZR cuts).
  assert (Hq : q * IZR cuts = width o - IZR cuts * width_tails o).
  { unfold q. field. lra. }
  split.
  - intros (H1 & H2 & H3 & H4). unfold u in *. repeat split; nra.
  - intros (H1 & H2 & H3). unfold u in *. repeat split; nra.
Qed.

Lemma acceptance_in_closed_form_default :
  valid_parameters default_options /\
  ((exists s' : Extension,
      calc_and_check_parameters (init default_options 1 []) = Normal None s')
   <->
   (2 * tan (radians 15) * 15 < 138 / 10 /\
    8 + 2 * tan (radians 15) * 15 <= 20 /\
    2 * (20 + (138 / 10 - 2 * tan (radians 15) * 15)) <= 150)).
Proof.
  assert (Hv : valid_parameters default_options) by concrete_parameters.
  split; [exact Hv|].
  exact (acceptance_in_closed_form (init default_options 1 []) Hv).
Defined.

Lemma check_returns (s : Extension) :
  valid_parameters (options s) ->
  exists (r : option ErrorMessage) (s1 : Extension),
    calc_and_check_parameters s = Normal r s1.
Proof.
  intros Hv.
  assert (Hn : (1 <= num_tails (options s))%Z) by apply Hv.
  pose proof (cuts_positive _ Hn) as Hcuts.
  rewrite calc_and_check_parameters_eq. cbn zeta.
  destruct (Rle_dec _ 0); [do 2 eexists; reflexivity|].
  destruct (Rlt_dec _ (pin_bit_diameter _)); [do 2 eexists; reflexivity|].
  destruct (Rge_dec _ _); [do 2 eexists; reflexivity|].
  destruct (Rgt_dec _ _); [|exfalso; lra].
  destruct (Z.eqb_spec (Derived.num_tail_cuts (options s)) 0); [lia|].
  destruct (Rlt_dec _ _); do 2 eexists; reflexivity.
Qed.

Lemma after_diameter_twice (s : Extension) :
  after_diameter (after_diameter s) = after_diameter s.
Proof. reflexivity. Qed.

Lemma after_smaller_width_twice (s : Extension) :
  after_smaller_width (after_smaller_width s) = after_smaller_width s.
Proof. reflexivity. Qed.

Lemma after_cut_width_twice (s : Extension) :
  after_cut_width (after_cut_width s) = after_cut_width s.
Proof. reflexivity. Qed.

(** X2. The check keeps no hidden state. Run again on the state it left,
    it returns the same result and leaves that state as it is; run on any
    other extension with the same options, whatever its attributes hold
    from earlier runs, it returns the same result and stores the same
    tangent, parity and upper diameter. *)
Theorem check_has_no_hidden_state (s s' : Extension)
    (r : option ErrorMessage) :
  calc_and_check_parameters s = Normal r s' ->
  calc_and_check_parameters s' = Normal r s' /\
  forall t : Extension, options t = options s ->
    exists t' : Extension,
      calc_and_check_parameters t = Normal r t' /\
      tan_cut_angle t' = tan_cut_angle s' /\
      is_odd_number_of_tails t' = is_odd_number_of_tails s' /\
      upper_tail_diameter t' = upper_tail_diameter s'.
Proof.
  intros H. split.
  - destruct (calc_frame s s' r H) as (Ho & _).
    rewrite calc_and_check_parameters_eq. cbn zeta. rewrite Ho.
    rewrite calc_and_check_parameters_eq in H. cbn zeta in H.
    destruct (Rle_dec _ 0).
    { injection H as <- <-. now rewrite after_diameter_twice. }
    destruct (Rlt_dec _ (pin_bit_diameter _)).
    { injection H as <- <-. now rewrite after_smaller_width_twice. }
    destruct (Rge_dec _ _).
    { injection H as <- <-. now rewrite after_smaller_width_twice. }
    destruct (Rgt_dec _ _); [|discriminate].
    destruct (Z.eqb _ 0); [discriminate|].
    destruct (Rlt_dec _ _); injection H as <- <-;
      now rewrite after_cut_width_twice.
  - intros t Ht.
    rewrite calc_and_check_parameters_eq. cbn zeta. rewrite Ht.
    rewrite calc_and_check_parameters_eq in H. cbn zeta in H.
    destruct (Rle_dec _ 0).
    { injection H as <- <-. eexists. split; [reflexivity|].
      unfold after_diameter. rewrite Ht. repeat split. }
    destruct (Rlt_dec _ (pin_bit_diameter _)).
    { injection H as <- <-. eexists. split; [reflexivity|].
      unfold after_smaller_width, after_diameter. rewrite Ht. repeat split. }
    destruct (Rge_dec _ _).
    { injection H as <- <-. eexists. split; [reflexivity|].
      unfold after_smaller_width, after_diameter. rewrite Ht. repeat split. }
    destruct (Rgt_dec _ _); [|discriminate].
    destruct (Z.eqb _ 0); [discriminate|].
    destruct (Rlt_dec _ _); injection H as <- <-;
      (eexists; split; [reflexivity|]);
      unfold after_cut_width, after_smaller_width, after_diameter;
      rewrite Ht; repeat split.
Qed.

Lemma check_has_no_hidden_state_45 :
  let s := init (options_45 5 20 150 2) 1 [] in
  let s' := after_cut_width s in
  calc_and_check_parameters s = Normal None s' /\
  calc_and_check_parameters s' = Normal None s'.
Proof.
  intros s s'.
  assert (Hrun : calc_and_check_parameters s = Normal None s').
  { apply accepts_45; cbn; try lra; try lia. }
  split; [exact Hrun|].
  exact (proj1 (check_has_no_hidden_state s s' None Hrun)).
Defined.

(** ** The effect as a whole *)

Lemma pin_board_elements_length (sc : R) (o : Options) :
  List.length (pin_board_elements sc o) =
  (Z.to_nat (num_tails o) + 4 + (if Z.odd (num_tails o) then 2 else 0))%nat.
Proof.
  unfold pin_board_elements. cbn zeta. cbn [List.length].
  rewrite !length_app, pin_half_elements_length.
  unfold pin_full_elements. cbn zeta. rewrite pin_paths_length.
  cbn [List.length]. destruct (Z.odd (num_tails o)); lia.
Qed.

Lemma tail_cut_elements_length (sc : R) (o : Options) (y0 : R) :
  (1 <= num_tails o)%Z ->
  List.length (tail_cut_elements sc o y0) = Z.to_nat (num_tails o + 1).
Proof.
  intros Hn. unfold tail_cut_elements. cbn zeta.
  destruct (Derived.is_odd_tail_count o).
  - apply tail_boxes_length.
  - cbn [List.length]. rewrite tail_boxes_length. lia.
Qed.

Lemma tail_board_elements_length (sc : R) (o : Options) (y0 : R) :
  (1 <= num_tails o)%Z ->
  List.length (tail_board_elements sc o y0) = (Z.to_nat (num_tails o) + 11)%nat.
Proof.
  intros Hn. unfold tail_board_elements. cbn zeta. cbn [List.length].
  rewrite length_app, tail_cut_elements_length by assumption.
  cbn [List.length]. lia.
Qed.

(** X3. On valid parameters, a document of non-zero scale and enough fuel
    for the loop, [shaper_effect] never raises and does exactly one of two
    things: it reports one message and draws nothing (the check fails), or
    it reports nothing and appends, after what the layer held,
    [2 * num_tails + 15] elements, two more for an odd [num_tails] (the
    check passes). *)
Theorem shaper_effect_reports_or_draws (fuel : nat) (s : Extension) :
  valid_parameters (options s) ->
  inkscape_scale s <> 0 ->
  (Z.to_nat (num_tails (options s) + 1) < fuel)%nat ->
  let o := options s in
  exists s' : Extension,
    shaper_effect fuel s = Normal tt s' /\
    ((~ checks_pass o /\
      current_layer s' = current_layer s /\
      exists msg : ErrorMessage, errormsgs s' = errormsgs s ++ [msg]) \/
     (checks_pass o /\
      errormsgs s' = errormsgs s /\
      exists es : list Element,
        current_layer s' = current_layer s ++ es /\
        List.length es =
          (2 * Z.to_nat (num_tails o) + 15
           + (if Z.odd (num_tails o) then 2 else 0))%nat)).
Proof.
  intros Hv Hsc Hfuel o.
  assert (Hn : (1 <= num_tails o)%Z) by apply Hv.
  destruct (check_returns s Hv) as (r & s1 & Hrun).
  destruct (calc_frame s s1 r Hrun) as (_ & _ & Hlayer & Herr).
  destruct r as [msg|].
  - exists (emit_errormsg msg s1). split.
    + unfold shaper_effect, bind. rewrite Hrun. reflexivity.
    + left. split; [|split].
      * intros Hpass. apply (check_accepts_iff s Hv) in Hpass.
        destruct Hpass as [s2 H2]. rewrite Hrun in H2. discriminate.
      * cbn. exact Hlayer.
      * exists msg. cbn. now rewrite Herr.
  - eexists. split; [apply (shaper_effect_ok fuel s s1); assumption|].
    right. split; [|split].
    + apply (check_accepts_iff s Hv). now exists s1.
    + cbn. exact Herr.
    + eexists. split.
      * cbn [current_layer layer_extend]. rewrite Hlayer. reflexivity.
      * fold o. rewrite length_app, pin_board_elements_length,
          tail_board_elements_length by assumption.
        destruct (Z.odd (num_tails o)); lia.
Qed.

Lemma shaper_effect_reports_or_draws_45 :
  let s := init (options_45 5 20 150 2) 1 [] in
  exists s' : Extension,
    shaper_effect 4 s = Normal tt s' /\
    errormsgs s' = [] /\
    List.length (current_layer s') = 19%nat.
Proof.
  intros s.
  assert (Hv : valid_parameters (options s)) by concrete_parameters.
  assert (Hsc : inkscape_scale s <> 0) by (cbn; lra).
  assert (Hfuel : (Z.to_nat (num_tails (options s) + 1) < 4)%nat)
    by (cbn; lia).
  destruct (shaper_effect_reports_or_draws 4 s Hv Hsc Hfuel)
    as (s' & Hrun & [(Hfail & _)|(_ & Herr & es & Hlayer & Hlen)]).
  - exfalso. apply Hfail.
    apply (check_accepts_iff s Hv).
    exists (after_cut_width s). apply accepts_45; cbn; try lra; try lia.
  - exists s'. split; [exact Hrun|]. split; [exact Herr|].
    rewrite Hlayer. cbn [current_layer s init app]. exact Hlen.
Defined.

(** ** Boxes and anchors *)

(** X4. [add_box] does not care which two opposite corners it is given, nor
    in which order: swapping the corners, or only the x coordinates, draws
    the same rectangle. On a document of positive scale the rectangle has
    a width and a height that are not negative and spans from the smaller
    to the larger coordinate on each axis. *)
Theorem add_box_normalises_corners (x0 y0 x1 y1 : R) (rt : RoutingType)
    (d : option R) (s : Extension) :
  add_box x0 y0 x1 y1 rt d s = add_box x1 y1 x0 y0 rt d s /\
  add_box x0 y0 x1 y1 rt d s = add_box x1 y0 x0 y1 rt d s /\
  (0 < inkscape_scale s ->
   exists (box : Element) (x y w h : R),
     add_box x0 y0 x1 y1 rt d s = Normal box (layer_add box s) /\
     rect_x box = Some x /\ rect_y box = Some y /\
     rect_width box = Some w /\ rect_right box = Some (x + w) /\
     rect_bottom box = Some (y + h) /\
     0 <= w /\ 0 <= h /\
     x = Rmin x0 x1 / inkscape_scale s /\
     x + w = Rmax x0 x1 / inkscape_scale s /\
     y = Rmin y0 y1 / inkscape_scale s /\
     y + h = Rmax y0 y1 / inkscape_scale s).
Proof.
  split; [|split].
  - unfold add_box.
    now rewrite (Rmin_comm x0 x1), (Rmin_comm y0 y1),
      (Rabs_minus_sym x1 x0), (Rabs_minus_sym y1 y0).
  - unfold add_box.
    now rewrite (Rmin_comm x0 x1), (Rabs_minus_sym x1 x0).
  - intros Hsc.
    assert (Hne : inkscape_scale s <> 0) by lra.
    rewrite add_box_ok by assumption. cbn zeta. unfold box_of.
    do 5 eexists. split; [reflexivity|].
    cbn [rect_x rect_y rect_width rect_right rect_bottom].
    assert (Hinv : 0 < / inkscape_scale s) by now apply Rinv_0_lt_compat.
    pose proof (Rabs_pos (x1 - x0)) as Hw.
    pose proof (Rabs_pos (y1 - y0)) as Hh.
    repeat split.
    + unfold Rdiv. nra.
    + unfold Rdiv. nra.
    + unfold Rmin, Rmax, Rabs.
      destruct (Rle_dec x0 x1), (Rcase_abs (x1 - x0));
        unfold Rdiv; try lra; try nra.
    + unfold Rmin, Rmax, Rabs.
      destruct (Rle_dec y0 y1), (Rcase_abs (y1 - y0));
        unfold Rdiv; try lra; try nra.
Qed.

Lemma add_box_normalises_corners_1 :
  exists (box : Element) (s' : Extension),
    add_box 3 4 1 2 INTERIOR None (init default_options 1 []) = Normal box s' /\
    add_box 1 2 3 4 INTERIOR None (init default_options 1 []) = Normal box s' /\
    rect_x box = Some (Rmin 3 1 / 1).
Proof.
  destruct (add_box_normalises_corners 3 4 1 2 INTERIOR None
              (init default_options 1 [])) as (Hswap & _ & Hpos).
  destruct Hpos as (box & x & y & w & h & Hrun & Hx & _ & _ & _ & _ & _ & _
                    & Hxv & _); [cbn; lra|].
  exists box, (layer_add box (init default_options 1 [])).
  split; [exact Hrun|]. split; [rewrite <- Hswap; exact Hrun|].
  rewrite Hx, Hxv. reflexivity.
Defined.

(** X5. The anchor of [create_anchor_polygon] is a right triangle with its
    right angle at the given point: one leg runs along the X axis for
    [x_size], to the right for RT and RB and to the left for LT and LB, the
    other along the Y axis for twice [x_size], up the screen for RT and LT
    and down for RB and LB. It is filled red. Its corners are listed
    clockwise on the screen for RT, RB and LT and counter-clockwise for LB. *)
Theorem anchor_is_right_triangle (o : AxisOrientation) (x y x_size : R) :
  exists (p1 p2 x_end y_end : Point) (st : Style),
    create_anchor_polygon o x y x_size = Polygon [(x, y); p1; p2] st /\
    style_fill st = Some "#ff0000"%string /\
    ((p1 = x_end /\ p2 = y_end) \/ (p1 = y_end /\ p2 = x_end)) /\
    x_end = (x + (if x_towards_right o then x_size else - x_size), y) /\
    y_end = (x, y + (if y_towards_top o then - (2 * x_size) else 2 * x_size)) /\
    (fst x_end - x) * (fst y_end - x) + (snd x_end - y) * (snd y_end - y) = 0 /\
    winding (x, y) p1 p2 =
      match o with
      | LB => - (2 * (x_size * x_size))
      | _ => 2 * (x_size * x_size)
      end.
Proof.
  destruct o; unfold create_anchor_polygon; cbn zeta.
  - exists (x, y - 2 * x_size), (x + x_size, y),
      (x + x_size, y), (x, y + - (2 * x_size)). eexists.
    split; [reflexivity|]. split; [reflexivity|].
    split; [right; split; [f_equal; lra|reflexivity]|].
    unfold winding. cbn. repeat split; lra.
  - exists (x + x_size, y), (x, y + 2 * x_size),
      (x + x_size, y), (x, y + 2 * x_size). eexists.
    split; [reflexivity|]. split; [reflexivity|].
    split; [left; split; reflexivity|].
    unfold winding. cbn. repeat split; lra.
  - exists (x - x_size, y), (x, y - 2 * x_size),
      (x + - x_size, y), (x, y + - (2 * x_size)). eexists.
    split; [reflexivity|]. split; [reflexivity|].
    split; [left; split; f_equal; lra|].
    unfold winding. cbn. repeat split; lra.
  - exists (x - x_size, y), (x, y + 2 * x_size),
      (x + - x_size, y), (x, y + 2 * x_size). eexists.
    split; [reflexivity|]. split; [reflexivity|].
    split; [left; split; [f_equal; lra|reflexivity]|].
    unfold winding. cbn. repeat split; lra.
Qed.

(** X6. The anchor of each board sits on the guide rectangle of that board:
    its right angle is the lower left corner of the guide, its Y leg ends
    on the upper left corner, and its X leg runs along the lower edge for
    half the thickness of the board. The guide is the first element drawn
    for the board, spans the board width and thickness, and is a GUIDE
    without depth. *)
Theorem anchors_sit_on_guides (fuel : nat) (y0 : R) (s : Extension) :
  valid_parameters (options s) ->
  validated s ->
  inkscape_scale s <> 0 ->
  (Z.to_nat (num_tails (options s) + 1) < fuel)%nat ->
  let o := options s in
  let sc := inkscape_scale s in
  (exists (lower_end : R) (s' : Extension) (es : list Element)
          (guide : Element) (p1 p2 : Point) (st : Style),
     add_pin_board s = Normal lower_end s' /\
     added s s' es /\
     nth_error es 0 = Some guide /\
     element_style guide = apply_to GUIDE true empty_style /\
     element_depth guide = None /\
     rect_x guide = Some 0 /\ rect_y guide = Some 0 /\
     rect_right guide = Some (width o / sc) /\
     rect_bottom guide = Some (pin_thickness o / sc) /\
     In (Polygon [(0, pin_thickness o / sc); p1; p2] st) es /\
     p1 = (0, 0) /\
     p2 = (pin_thickness o / 2 / sc, pin_thickness o / sc)) /\
  (exists (s' : Extension) (es : list Element)
          (guide : Element) (p1 p2 : Point) (st : Style),
     add_tail_board fuel y0 s = Normal tt s' /\
     added s s' es /\
     nth_error es 0 = Some guide /\
     element_style guide = apply_to GUIDE true empty_style /\
     element_depth guide = None /\
     rect_x guide = Some 0 /\ rect_y guide = Some (y0 / sc) /\
     rect_right guide = Some (width o / sc) /\
     rect_bottom guide = Some ((y0 + tail_thickness o) / sc) /\
     In (Polygon [(0, (y0 + tail_thickness o) / sc); p1; p2] st) es /\
     p1 = (0, y0 / sc) /\
     p2 = (tail_thickness o / 2 / sc, (y0 + tail_thickness o) / sc)).
Proof.
  intros Hv Hval Hsc Hfuel o sc.
  pose proof Hv as (_ & _ & _ & Htt & Hpt & HW & _ & _).
  fold o in Htt, Hpt, HW.
  split.
  - do 7 eexists. split; [apply add_pin_board_ok; assumption|].
    split; [apply added_extend|]. fold o sc.
    unfold pin_board_elements. cbn zeta.
    split; [reflexivity|].
    rewrite box_of_ordered by lra.
    cbn [element_style element_depth rect_x rect_y rect_right rect_bottom].
    split; [reflexivity|]. split; [reflexivity|].
    split; [f_equal; unfold Rdiv; lra|].
    split; [f_equal; unfold Rdiv; lra|].
    split; [f_equal; unfold Rdiv; lra|].
    split; [f_equal; unfold Rdiv; lra|].
    split.
    + right. apply in_or_app. right. apply in_or_app. right.
      left. unfold create_anchor_polygon. cbn zeta. reflexivity.
    + split; f_equal; unfold sc; field; exact Hsc.
  - do 6 eexists. split; [apply add_tail_board_ok; assumption|].
    split; [apply added_extend|]. fold o sc.
    unfold tail_board_elements. cbn zeta.
    split; [reflexivity|].
    rewrite box_of_ordered by lra.
    cbn [element_style element_depth rect_x rect_y rect_right rect_bottom].
    split; [reflexivity|]. split; [reflexivity|].
    split; [f_equal; unfold Rdiv; lra|].
    split; [reflexivity|].
    split; [f_equal; unfold Rdiv; lra|].
    split; [f_equal; unfold Rdiv; lra|].
    split.
    + right. apply in_or_app. right.
      left. unfold create_anchor_polygon. cbn zeta. reflexivity.
    + split; f_equal; unfold sc; field; exact Hsc.
Qed.

Lemma anchors_sit_on_guides_45 :
  let s := after_cut_width (init (options_45 5 20 150 2) 1 []) in
  exists (lower_end : R) (s' : Extension) (es : list Element)
         (p1 p2 : Point) (st : Style),
    add_pin_board s = Normal lower_end s' /\
    added s s' es /\
    In (Polygon [(0, 5 / 1); p1; p2] st) es /\
    p1 = (0, 0) /\
    p2 = (5 / 2 / 1, 5 / 1).
Proof.
  intros s.
  assert (Hv : valid_parameters (options s)) by concrete_parameters.
  assert (Hval : validated s).
  { apply validated_45; cbn; try lra; lia. }
  assert (Hsc : inkscape_scale s <> 0) by (cbn; lra).
  assert (Hfuel : (Z.to_nat (num_tails (options s) + 1) < 4)%nat)
    by (cbn; lia).
  destruct (proj1 (anchors_sit_on_guides 4 0 s Hv Hval Hsc Hfuel))
    as (lower_end & s' & es & guide & p1 & p2 & st & Hrun & Hadd & _ & _ & _
        & _ & _ & _ & _ & Hin & Hp1 & Hp2).
  exists lower_end, s', es, p1, p2, st.
  repeat split; assumption.
Defined.

(** ** Tails and pockets *)

Lemma tail_boxes_nth_some (sc d iw wt sy ey : R) (n : nat) :
  forall (x : R) (i : nat), (i < n)%nat ->
  nth_error (tail_boxes sc d iw wt sy ey n x) i =
  Some (box_of sc (x + INR i * (iw + wt)) sy (x + INR i * (iw + wt) + iw) ey
               INTERIOR (Some d)).
Proof.
  intros x i Hi.
  destruct (nth_error (tail_boxes sc d iw wt sy ey n x) i) as [e|] eqn:He.
  - apply tail_boxes_nth in He. now subst e.
  - apply nth_error_None in He. rewrite tail_boxes_length in He. lia.
Qed.

Lemma box_edges (sc x0 y0 x1 y1 : R) (rt : RoutingType) (d : option R) :
  x0 <= x1 -> y0 <= y1 ->
  rect_x (box_of sc x0 y0 x1 y1 rt d) = Some (x0 / sc) /\
  rect_right (box_of sc x0 y0 x1 y1 rt d) = Some (x1 / sc).
Proof.
  intros Hx Hy. rewrite box_of_ordered by assumption.
  cbn [rect_x rect_right]. split; [reflexivity|].
  f_equal. unfold Rdiv. lra.
Qed.

Lemma tail_box_edges (sc d x iw sy ey : R) :
  0 < iw -> sy <= ey ->
  rect_x (box_of sc x sy (x + iw) ey INTERIOR (Some d)) = Some (x / sc) /\
  rect_right (box_of sc x sy (x + iw) ey INTERIOR (Some d))
  = Some ((x + iw) / sc).
Proof. intros Hiw Hy. apply box_edges; lra. Qed.

(** X7. The two boards fit: for every full trapezoid of the pin board, the
    tail board has a cut that ends half a tail width left of the centre of
    the trapezoid and a cut that starts half a tail width right of it. The
    wood left standing between the two cuts is the tail that goes into
    that pocket, centred on it and [tail_width] wide. *)
Theorem tails_fit_pockets (fuel : nat) (y0 : R) (s : Extension) :
  valid_parameters (options s) ->
  validated s ->
  inkscape_scale s <> 0 ->
  (Z.to_nat (num_tails (options s) + 1) < fuel)%nat ->
  let o := options s in
  let sc := inkscape_scale s in
  exists (end_p : R) (s_p : Extension) (halves fulls : list Element)
         (end_t : R) (s_t : Extension) (boxes : list Element),
    add_pin_cuts s = Normal end_p s_p /\
    added s s_p (halves ++ fulls) /\
    List.length fulls = Z.to_nat (num_tails o) /\
    add_tail_cuts fuel y0 s = Normal end_t s_t /\
    added s s_t boxes /\
    forall (k : nat) (e : Element), nth_error fulls k = Some e ->
      exists (c : R) (cut_left cut_right : Element),
        center_x e = Some c /\
        In cut_left boxes /\ In cut_right boxes /\
        rect_right cut_left = Some (c - width_tails o / 2 / sc) /\
        rect_x cut_right = Some (c + width_tails o / 2 / sc).
Proof.
  intros Hv Hval Hsc Hfuel o sc.
  destruct (validated_inv s Hval) as (_ & Hchk & Hcuts).
  destruct (checks_facts o Hv Hchk) as (_ & _ & Hiw & _).
  pose proof Hv as (_ & Htbd & _ & Htt & _ & _ & Hwt & Hn).
  fold o in Htbd, Htt, Hwt, Hn, Hcuts.
  pose proof (step_times_cuts o Hcuts) as Hstep.
  set (iw := Derived.individual_inter_tail_cut_width o) in *.
  exists (pin_thickness o + pin_bit_diameter o * __OVERCUTTING_BUFFER_FACTOR__),
    (layer_extend (pin_half_elements sc o ++ pin_full_elements sc o) s),
    (pin_half_elements sc o), (pin_full_elements sc o).
  do 3 eexists.
  split; [apply add_pin_cuts_ok; assumption|].
  split; [apply added_extend|].
  split; [unfold pin_full_elements; cbn zeta; apply pin_paths_length|].
  split; [apply add_tail_cuts_ok; assumption|].
  split; [apply added_extend|]. fold o sc.
  intros k e He.
  assert (Hk : (k < Z.to_nat (num_tails o))%nat).
  { assert (Hsome : nth_error (pin_full_elements sc o) k <> None)
      by (rewrite He; discriminate).
    apply nth_error_Some in Hsome. unfold pin_full_elements in Hsome.
    cbn zeta in Hsome. now rewrite pin_paths_length in Hsome. }
  apply pin_full_elements_nth in He. cbn zeta in He. subst e.
  rewrite center_of_trapezoid.
  fold iw.
  assert (Hsy : y0 - tail_bit_diameter o * __OVERCUTTING_BUFFER_FACTOR__
                <= y0 + tail_thickness o + tail_bit_diameter o *
                   __LOWER_OVERCUTTING_BUFFER_DOVETAIL_BIT_FACTOR__).
  { unfold __OVERCUTTING_BUFFER_FACTOR__,
      __LOWER_OVERCUTTING_BUFFER_DOVETAIL_BIT_FACTOR__. lra. }
  unfold tail_cut_elements. cbn zeta. fold iw.
  destruct (Derived.is_odd_tail_count o) eqn:Hparity.
  - (* odd: the cuts [k] and [k + 1] of the loop *)
    eexists. do 2 eexists. split; [reflexivity|].
    split; [eapply nth_error_In;
            apply (tail_boxes_nth_some _ _ _ _ _ _ _ _ k); lia|].
    split; [eapply nth_error_In;
            apply (tail_boxes_nth_some _ _ _ _ _ _ _ _ (S k)); lia|].
    rewrite S_INR.
    split.
    + rewrite (proj2 (tail_box_edges _ _ _ _ _ _ Hiw Hsy)).
      f_equal. unfold sc. field. exact Hsc.
    + rewrite (proj1 (tail_box_edges _ _ _ _ _ _ Hiw Hsy)).
      f_equal. unfold sc. field. exact Hsc.
  - (* even: the edge cuts and the cuts of the loop *)
    rewrite (even_cuts o Hparity) in Hstep.
    assert (Hnat : IZR (num_tails o) = INR (Z.to_nat (num_tails o))).
    { rewrite INR_IZR_INZ, Z2Nat.id by lia. reflexivity. }
    assert (Hbl : - __HORIZONTAL_BUFFER__ <= iw / 2)
      by (unfold __HORIZONTAL_BUFFER__; lra).
    assert (Hbr : width o - iw / 2 <= width o + __HORIZONTAL_BUFFER__)
      by (unfold __HORIZONTAL_BUFFER__; lra).
    eexists.
    assert (Hleft : exists cut_left : Element,
      In cut_left
        (box_of sc (- __HORIZONTAL_BUFFER__)
           (y0 - tail_bit_diameter o * __OVERCUTTING_BUFFER_FACTOR__)
           (iw / 2)
           (y0 + tail_thickness o + tail_bit_diameter o *
              __LOWER_OVERCUTTING_BUFFER_DOVETAIL_BIT_FACTOR__)
           INTERIOR (Some (pin_thickness o))
         :: box_of sc (width o - iw / 2)
              (y0 - tail_bit_diameter o * __OVERCUTTING_BUFFER_FACTOR__)
              (width o + __HORIZONTAL_BUFFER__)
              (y0 + tail_thickness o + tail_bit_diameter o *
                 __LOWER_OVERCUTTING_BUFFER_DOVETAIL_BIT_FACTOR__)
              INTERIOR (Some (pin_thickness o))
         :: tail_boxes sc (pin_thickness o) iw (width_tails o)
              (y0 - tail_bit_diameter o * __OVERCUTTING_BUFFER_FACTOR__)
              (y0 + tail_thickness o + tail_bit_diameter o *
                 __LOWER_OVERCUTTING_BUFFER_DOVETAIL_BIT_FACTOR__)
              (Z.to_nat (num_tails o - 1)) (iw / 2 + width_tails o)) /\
      rect_right cut_left =
        Some (((width_tails o + iw) / 2 + INR k * (iw + width_tails o)) / sc
              - width_tails o / 2 / sc)).
    { destruct k as [|k'].
      - eexists. split; [left; reflexivity|].
        rewrite (proj2 (box_edges _ _ _ _ _ _ _ Hbl Hsy)).
        f_equal. cbn [INR]. unfold sc. field. exact Hsc.
      - eexists. split.
        + right. right. eapply nth_error_In.
          apply (tail_boxes_nth_some _ _ _ _ _ _ _ _ k'). lia.
        + rewrite (proj2 (tail_box_edges _ _ _ _ _ _ Hiw Hsy)).
          f_equal. rewrite S_INR. unfold sc. field. exact Hsc. }
    assert (Hright : exists cut_right : Element,
      In cut_right
        (box_of sc (- __HORIZONTAL_BUFFER__)
           (y0 - tail_bit_diameter o * __OVERCUTTING_BUFFER_FACTOR__)
           (iw / 2)
           (y0 + tail_thickness o + tail_bit_diameter o *
              __LOWER_OVERCUTTING_BUFFER_DOVETAIL_BIT_FACTOR__)
           INTERIOR (Some (pin_thickness o))
         :: box_of sc (width o - iw / 2)
              (y0 - tail_bit_diameter o * __OVERCUTTING_BUFFER_FACTOR__)
              (width o + __HORIZONTAL_BUFFER__)
              (y0 + tail_thickness o + tail_bit_diameter o *
                 __LOWER_OVERCUTTING_BUFFER_DOVETAIL_BIT_FACTOR__)
              INTERIOR (Some (pin_thickness o))
         :: tail_boxes sc (pin_thickness o) iw (width_tails o)
              (y0 - tail_bit_diameter o * __OVERCUTTING_BUFFER_FACTOR__)
              (y0 + tail_thickness o + tail_bit_diameter o *
                 __LOWER_OVERCUTTING_BUFFER_DOVETAIL_BIT_FACTOR__)
              (Z.to_nat (num_tails o - 1)) (iw / 2 + width_tails o)) /\
      rect_x cut_right =
        Some (((width_tails o + iw) / 2 + INR k * (iw + width_tails o)) / sc
              + width_tails o / 2 / sc)).
    { destruct (Nat.eq_dec (S k) (Z.to_nat (num_tails o))) as [Hlast|Hmid].
      - eexists. split; [right; left; reflexivity|].
        rewrite (proj1 (box_edges _ _ _ _ _ _ _ Hbr Hsy)).
        f_equal. rewrite <- Hstep, Hnat, <- Hlast, S_INR.
        unfold sc. field. exact Hsc.
      - eexists. split.
        + right. right. eapply nth_error_In.
          apply (tail_boxes_nth_some _ _ _ _ _ _ _ _ k). lia.
        + rewrite (proj1 (tail_box_edges _ _ _ _ _ _ Hiw Hsy)).
          f_equal. unfold sc. field. exact Hsc. }
    destruct Hleft as (cut_left & Hinl & Hl).
    destruct Hright as (cut_right & Hinr & Hr).
    exists cut_left, cut_right.
    split; [reflexivity|]. repeat split; assumption.
Qed.

Lemma tails_fit_pockets_45 :
  let s := after_cut_width (init (options_45 5 20 150 3) 1 []) in
  exists (end_p : R) (s_p : Extension) (halves fulls : list Element)
         (end_t : R) (s_t : Extension) (boxes : list Element),
    add_pin_cuts s = Normal end_p s_p /\
    added s s_p (halves ++ fulls) /\
    List.length fulls = 3%nat /\
    add_tail_cuts 5 0 s = Normal end_t s_t /\
    added s s_t boxes /\
    forall (k : nat) (e : Element), nth_error fulls k = Some e ->
      exists (c : R) (cut_left cut_right : Element),
        center_x e = Some c /\
        In cut_left boxes /\ In cut_right boxes /\
        rect_right cut_left = Some (c - 20 / 2 / 1) /\
        rect_x cut_right = Some (c + 20 / 2 / 1).
Proof.
  intros s.
  assert (Hv : valid_parameters (options s)) by concrete_parameters.
  assert (Hval : validated s).
  { apply validated_45; cbn; try lra; lia. }
  assert (Hsc : inkscape_scale s <> 0) by (cbn; lra).
  assert (Hfuel : (Z.to_nat (num_tails (options s) + 1) < 5)%nat)
    by (cbn; lia).
  exact (tails_fit_pockets 5 0 s Hv Hval Hsc Hfuel).
Defined.

(** ** The cuts of the tail board *)

Lemma tail_cut_elements_nth (sc : R) (o : Options) (y0 : R) (i : nat)
    (e : Element) :
  nth_error (tail_cut_elements sc o y0) i = Some e ->
  e = box_of sc (fst (tail_cut_span o i))
        (y0 - tail_bit_diameter o * __OVERCUTTING_BUFFER_FACTOR__)
        (snd (tail_cut_span o i))
        (y0 + tail_thickness o +
         tail_bit_diameter o * __LOWER_OVERCUTTING_BUFFER_DOVETAIL_BIT_FACTOR__)
        INTERIOR (Some (pin_thickness o)).
Proof.
  unfold tail_cut_elements, tail_cut_span. cbn zeta.
  destruct (Derived.is_odd_tail_count o).
  - intros H. apply tail_boxes_nth in H. exact H.
  - destruct i as [|[|k]]; cbn [nth_error fst snd].
    + now intros [= <-].
    + now intros [= <-].
    + intros H. apply tail_boxes_nth in H. exact H.
Qed.

(** Where the cuts lie on the board. *)
Lemma tail_cut_span_bounds (o : Options) (i : nat) :
  valid_parameters o -> checks_pass o ->
  (i < Z.to_nat (num_tails o + 1))%nat ->
  let a := fst (tail_cut_span o i) in
  let b := snd (tail_cut_span o i) in
  - 2 <= a /\ a < b /\ b <= width o + 2 /\
  (Derived.is_odd_tail_count o = true ->
   width_tails o / 2 <= a /\ b <= width o - width_tails o / 2).
Proof.
  intros Hv Hchk Hi.
  destruct (checks_facts o Hv Hchk) as (_ & _ & Hiw & _).
  pose proof Hv as (_ & _ & _ & _ & _ & HW & Hwt & Hn).
  assert (Hcuts : Derived.num_tail_cuts o <> 0%Z).
  { pose proof (cuts_positive o Hn). lia. }
  pose proof (step_times_cuts o Hcuts) as Hstep.
  set (iw := Derived.individual_inter_tail_cut_width o) in *.
  pose proof (pos_INR i) as Hi0.
  unfold tail_cut_span. cbn zeta. fold iw. unfold __HORIZONTAL_BUFFER__.
  destruct (Derived.is_odd_tail_count o) eqn:Hparity.
  - rewrite (odd_cuts o Hparity) in Hstep.
    assert (Hk : INR i + 1 <= IZR (num_tails o + 1)).
    { assert (Hle : (S i <= Z.to_nat (num_tails o + 1))%nat) by lia.
      apply le_INR in Hle. rewrite S_INR in Hle.
      rewrite INR_to_nat in Hle by lia. exact Hle. }
    cbn [fst snd].
    assert (Hmul : (INR i + 1) * (iw + width_tails o)
                   <= IZR (num_tails o + 1) * (iw + width_tails o))
      by (apply Rmult_le_compat_r; lra).
    assert (0 <= INR i * (iw + width_tails o)) by nra.
    repeat split; try lra; intros _; lra.
  - rewrite (even_cuts o Hparity) in Hstep.
    assert (Hone : 1 <= IZR (num_tails o)) by (apply IZR_le; lia).
    assert (Hfit : iw + width_tails o <= width o) by nra.
    destruct i as [|[|k]]; cbn [fst snd].
    + repeat split; try lra; intros H; discriminate.
    + repeat split; try lra; intros H; discriminate.
    + assert (Hk : INR k + 2 <= IZR (num_tails o)).
      { assert (Hle : (S (S k) <= Z.to_nat (num_tails o))%nat) by lia.
        apply le_INR in Hle. rewrite !S_INR in Hle.
        rewrite INR_to_nat in Hle by lia. lra. }
      pose proof (pos_INR k) as Hk0.
      assert (Hmul : (INR k + 2) * (iw + width_tails o)
                     <= IZR (num_tails o) * (iw + width_tails o))
        by (apply Rmult_le_compat_r; lra).
      assert (0 <= INR k * (iw + width_tails o)) by nra.
      repeat split; try lra; intros H; discriminate.
Qed.

(** Two different cuts: one ends before the other starts. *)
Lemma tail_cut_spans_apart (o : Options) (i j : nat) :
  valid_parameters o -> checks_pass o ->
  (i < j)%nat -> (j < Z.to_nat (num_tails o + 1))%nat ->
  snd (tail_cut_span o i) <= fst (tail_cut_span o j) \/
  snd (tail_cut_span o j) <= fst (tail_cut_span o i).
Proof.
  intros Hv Hchk Hij Hj.
  destruct (checks_facts o Hv Hchk) as (_ & _ & Hiw & _).
  pose proof Hv as (_ & _ & _ & _ & _ & HW & Hwt & Hn).
  assert (Hcuts : Derived.num_tail_cuts o <> 0%Z).
  { pose proof (cuts_positive o Hn). lia. }
  pose proof (step_times_cuts o Hcuts) as Hstep.
  set (iw := Derived.individual_inter_tail_cut_width o) in *.
  unfold tail_cut_span. cbn zeta. fold iw. unfold __HORIZONTAL_BUFFER__.
  destruct (Derived.is_odd_tail_count o) eqn:Hparity.
  - left. cbn [fst snd].
    assert (Hle : INR i + 1 <= INR j).
    { assert (H : (S i <= j)%nat) by lia.
      apply le_INR in H. now rewrite S_INR in H. }
    assert ((INR i + 1) * (iw + width_tails o)
            <= INR j * (iw + width_tails o))
      by (apply Rmult_le_compat_r; lra).
    lra.
  - rewrite (even_cuts o Hparity) in Hstep.
    destruct i as [|[|k]]; destruct j as [|[|l]]; try lia; cbn [fst snd].
    + (* left edge, right edge *)
      left. assert (1 <= IZR (num_tails o)) by (apply IZR_le; lia). nra.
    + (* left edge, a cut of the loop *)
      left. pose proof (pos_INR l).
      assert (0 <= INR l * (iw + width_tails o)) by nra. lra.
    + (* right edge, a cut of the loop *)
      right.
      assert (Hl : INR l + 2 <= IZR (num_tails o)).
      { assert (Hle : (S (S l) <= Z.to_nat (num_tails o))%nat) by lia.
        apply le_INR in Hle. rewrite !S_INR in Hle.
        rewrite INR_to_nat in Hle by lia. lra. }
      assert ((INR l + 2) * (iw + width_tails o)
              <= IZR (num_tails o) * (iw + width_tails o))
        by (apply Rmult_le_compat_r; lra).
      lra.
    + (* two cuts of the loop *)
      left.
      assert (Hle : INR k + 1 <= INR l).
      { assert (H : (S k <= l)%nat) by lia.
        apply le_INR in H. now rewrite S_INR in H. }
      assert ((INR k + 1) * (iw + width_tails o)
              <= INR l * (iw + width_tails o))
        by (apply Rmult_le_compat_r; lra).
      lra.
Qed.

(** X8. For any number of tails, the cut rectangles of the tail board lie
    side by side: no two of them overlap. Each one starts left of where it
    ends and stays within the board widened by the 2 mm buffer on either
    side; for an odd [num_tails] all of them stay half a tail width inside
    the board edges, where the half tails are left standing. *)
Theorem tail_cuts_stay_apart (fuel : nat) (y0 : R) (s : Extension) :
  valid_parameters (options s) ->
  validated s ->
  inkscape_scale s <> 0 ->
  (Z.to_nat (num_tails (options s) + 1) < fuel)%nat ->
  let o := options s in
  let sc := inkscape_scale s in
  exists (end_y : R) (s' : Extension) (boxes : list Element),
    add_tail_cuts fuel y0 s = Normal end_y s' /\
    added s s' boxes /\
    (forall e : Element, In e boxes ->
       exists a b : R,
         rect_x e = Some (a / sc) /\ rect_right e = Some (b / sc) /\
         - 2 <= a /\ a < b /\ b <= width o + 2 /\
         (Z.odd (num_tails o) = true ->
          width_tails o / 2 <= a /\ b <= width o - width_tails o / 2)) /\
    (forall (i j : nat) (e1 e2 : Element),
       i <> j ->
       nth_error boxes i = Some e1 -> nth_error boxes j = Some e2 ->
       ~ overlap e1 e2).
Proof.
  intros Hv Hval Hsc Hfuel o sc.
  destruct (validated_inv s Hval) as (_ & Hchk & _).
  pose proof Hv as (_ & Htbd & _ & Htt & _ & _ & _ & Hn).
  fold o in Htbd, Htt, Hn, Hchk.
  assert (Hy : y0 - tail_bit_diameter o * __OVERCUTTING_BUFFER_FACTOR__
               < y0 + tail_thickness o + tail_bit_diameter o *
                 __LOWER_OVERCUTTING_BUFFER_DOVETAIL_BIT_FACTOR__).
  { unfold __OVERCUTTING_BUFFER_FACTOR__,
      __LOWER_OVERCUTTING_BUFFER_DOVETAIL_BIT_FACTOR__. lra. }
  assert (Hidx : forall (i : nat) (e : Element),
            nth_error (tail_cut_elements sc o y0) i = Some e ->
            (i < Z.to_nat (num_tails o + 1))%nat).
  { intros i e He.
    assert (Hsome : nth_error (tail_cut_elements sc o y0) i <> None)
      by (rewrite He; discriminate).
    apply nth_error_Some in Hsome.
    now rewrite tail_cut_elements_length in Hsome. }
  do 3 eexists. split; [apply add_tail_cuts_ok; assumption|].
  split; [apply added_extend|]. fold o sc. split.
  - intros e He. apply In_nth_error in He. destruct He as [i He].
    pose proof (Hidx i e He) as Hi.
    apply tail_cut_elements_nth in He. subst e.
    destruct (tail_cut_span_bounds o i Hv Hchk Hi) as (Ha & Hab & Hb & Hodd).
    exists (fst (tail_cut_span o i)), (snd (tail_cut_span o i)).
    destruct (box_edges sc (fst (tail_cut_span o i))
                (y0 - tail_bit_diameter o * __OVERCUTTING_BUFFER_FACTOR__)
                (snd (tail_cut_span o i))
                (y0 + tail_thickness o + tail_bit_diameter o *
                   __LOWER_OVERCUTTING_BUFFER_DOVETAIL_BIT_FACTOR__)
                INTERIOR (Some (pin_thickness o))) as [Hx Hr]; try lra.
    split; [exact Hx|]. split; [exact Hr|].
    repeat split; try assumption.
    + apply Hodd. unfold Derived.is_odd_tail_count.
      now rewrite parity_as_odd.
    + apply Hodd. unfold Derived.is_odd_tail_count.
      now rewrite parity_as_odd.
  - assert (Hlt : forall (i j : nat) (e1 e2 : Element),
              (i < j)%nat ->
              nth_error (tail_cut_elements sc o y0) i = Some e1 ->
              nth_error (tail_cut_elements sc o y0) j = Some e2 ->
              ~ overlap e1 e2).
    { intros i j e1 e2 Hij H1 H2.
      pose proof (Hidx i e1 H1) as Hi. pose proof (Hidx j e2 H2) as Hj.
      apply tail_cut_elements_nth in H1, H2. subst e1 e2.
      destruct (tail_cut_span_bounds o i Hv Hchk Hi) as (_ & Habi & _).
      destruct (tail_cut_span_bounds o j Hv Hchk Hj) as (_ & Habj & _).
      destruct (tail_cut_spans_apart o i j Hv Hchk Hij Hj) as [Hle|Hle].
      - apply boxes_side_by_side; try assumption; lra.
      - intros Hov. apply overlap_sym in Hov. revert Hov.
        apply boxes_side_by_side; try assumption; lra. }
    intros i j e1 e2 Hij H1 H2.
    destruct (Nat.lt_ge_cases i j) as [Hlt'|Hge].
    + exact (Hlt i j e1 e2 Hlt' H1 H2).
    + intros Hov. apply overlap_sym in Hov. revert Hov.
      apply (Hlt j i e2 e1); [lia|assumption|assumption].
Qed.

Lemma tail_cuts_stay_apart_45 :
  let s := after_cut_width (init (options_45 5 20 150 4) 1 []) in
  exists (end_y : R) (s' : Extension) (boxes : list Element),
    add_tail_cuts 6 0 s = Normal end_y s' /\
    added s s' boxes /\
    forall (i j : nat) (e1 e2 : Element),
      i <> j ->
      nth_error boxes i = Some e1 -> nth_error boxes j = Some e2 ->
      ~ overlap e1 e2.
Proof.
  intros s.
  assert (Hv : valid_parameters (options s)) by concrete_parameters.
  assert (Hval : validated s).
  { apply validated_45; cbn; try lra; lia. }
  assert (Hsc : inkscape_scale s <> 0) by (cbn; lra).
  assert (Hfuel : (Z.to_nat (num_tails (options s) + 1) < 6)%nat)
    by (cbn; lia).
  destruct (tail_cuts_stay_apart 6 0 s Hv Hval Hsc Hfuel)
    as (end_y & s' & boxes & Hrun & Hadd & _ & Hapart).
  exists end_y, s', boxes. repeat split; assumption.
Defined.

(** ** The two boards on the sheet *)

Lemma pin_elements_above_lower_end (sc : R) (o : Options) (e : Element)
    (p : Point) :
  sc <> 0 -> valid_parameters o ->
  In e (pin_half_elements sc o ++ pin_full_elements sc o) ->
  inside e p ->
  upper_bound sc (snd p * sc)
    (pin_thickness o + pin_bit_diameter o * __OVERCUTTING_BUFFER_FACTOR__).
Proof.
  intros Hsc Hv He Hin.
  apply In_nth_error in He. destruct He as [i He].
  pose proof (proj1 (pin_cut_region sc o i e p Hsc Hv He) Hin) as Hr.
  cbv zeta in Hr. apply Hr.
Qed.

Lemma pin_elements_are_paths (sc : R) (o : Options) (e : Element) :
  In e (pin_half_elements sc o ++ pin_full_elements sc o) ->
  exists points : list Point, e = path_of sc points.
Proof.
  intros He. apply in_app_or in He. destruct He as [He|He].
  - unfold pin_half_elements, half_tail_paths in He.
    destruct (Derived.is_odd_tail_count o); [|contradiction].
    destruct He as [<-|[<-|[]]]; eexists; reflexivity.
  - unfold pin_full_elements in He. cbn zeta in He.
    apply pin_paths_in in He. destruct He as [x' ->]. eexists. reflexivity.
Qed.

(** Which of the elements of the two boards are the cuts: the paths are
    the trapezoids of the pin board, the INTERIOR rectangles the cuts of
    the tail board. *)
Lemma cuts_of_the_boards (sc : R) (o : Options) (y0 : R) (e : Element) :
  let es := pin_board_elements sc o ++ tail_board_elements sc o y0 in
  (In e es /\ is_path e = true
   <-> In e (pin_half_elements sc o ++ pin_full_elements sc o)) /\
  (In e es /\ is_rectangle e = true /\
   element_style e = apply_to INTERIOR true empty_style
   <-> In e (tail_cut_elements sc o y0)).
Proof.
  intros es. subst es. unfold pin_board_elements, tail_board_elements.
  cbn zeta. split; split.
  - intros [Hin Hpath].
    apply in_app_or in Hin. destruct Hin as [Hin|Hin].
    + destruct Hin as [<-|Hin]; [discriminate|].
      rewrite app_assoc in Hin. apply in_app_or in Hin.
      destruct Hin as [Hin|Hin]; [exact Hin|].
      destruct Hin as [<-|[<-|[<-|[]]]]; discriminate.
    + destruct Hin as [<-|Hin]; [discriminate|].
      apply in_app_or in Hin. destruct Hin as [Hin|Hin].
      * apply tail_cut_elements_in in Hin. destruct Hin as (a & b & ->).
        discriminate.
      * repeat (destruct Hin as [<-|Hin]; [discriminate|]). contradiction.
  - intros Hin. split.
    + apply in_or_app. left. right. rewrite app_assoc.
      apply in_or_app. left. exact Hin.
    + apply pin_elements_are_paths in Hin. destruct Hin as [points ->].
      reflexivity.
  - intros (Hin & Hrect & Hstyle).
    apply in_app_or in Hin. destruct Hin as [Hin|Hin].
    + destruct Hin as [<-|Hin]; [discriminate|].
      rewrite app_assoc in Hin. apply in_app_or in Hin.
      destruct Hin as [Hin|Hin].
      * apply pin_elements_are_paths in Hin. destruct Hin as [points ->].
        discriminate.
      * destruct Hin as [<-|[<-|[<-|[]]]]; discriminate.
    + destruct Hin as [<-|Hin]; [discriminate|].
      apply in_app_or in Hin. destruct Hin as [Hin|Hin]; [exact Hin|].
      repeat (destruct Hin as [<-|Hin]; [discriminate|]). contradiction.
  - intros Hin. split.
    + apply in_or_app. right. right. apply in_or_app. left. exact Hin.
    + apply tail_cut_elements_in in Hin. destruct Hin as (a & b & ->).
      split; reflexivity.
Qed.

(** X9. As long as [0.55] times the diameter of the dovetail bit is at most
    the 50 mm between the boards, no cut of the tail board overlaps a cut
    of the pin board. Of what [shaper_effect] adds to the layer when the
    check passes, the paths are the trapezoids of the pin board and the
    INTERIOR rectangles are the [num_tails + 1] cuts of the tail board,
    and no such path overlaps such a rectangle. *)
Theorem boards_stay_apart (fuel : nat) (s : Extension) :
  valid_parameters (options s) ->
  checks_pass (options s) ->
  inkscape_scale s <> 0 ->
  (Z.to_nat (num_tails (options s) + 1) < fuel)%nat ->
  tail_bit_diameter (options s) * (55 / 100) <= 50 ->
  let o := options s in
  exists (s' : Extension) (es paths boxes : list Element),
    shaper_effect fuel s = Normal tt s' /\
    added s s' es /\
    (forall e : Element, In e es /\ is_path e = true <-> In e paths) /\
    (forall e : Element,
       In e es /\ is_rectangle e = true /\
       element_style e = apply_to INTERIOR true empty_style
       <-> In e boxes) /\
    List.length paths =
      (Z.to_nat (num_tails o) + (if Z.odd (num_tails o) then 2 else 0))%nat /\
    List.length boxes = Z.to_nat (num_tails o + 1) /\
    forall p b : Element, In p paths -> In b boxes -> ~ overlap p b.
Proof.
  intros Hv Hchk Hsc Hfuel Hbit o.
  pose proof Hv as (_ & Htbd & _ & Htt & _ & _ & _ & Hn).
  fold o in Hv, Hchk, Htbd, Htt, Hn, Hbit.
  destruct (proj2 (check_accepts_iff s Hv) Hchk) as [s1 Hrun].
  destruct (calc_frame s s1 None Hrun) as (_ & _ & Hlayer & _).
  set (sc := inkscape_scale s).
  set (lower_end :=
         pin_thickness o + pin_bit_diameter o * __OVERCUTTING_BUFFER_FACTOR__).
  exists (layer_extend
            (pin_board_elements sc o ++
             tail_board_elements sc o (lower_end + __VERTICAL_OFFSET_BOARDS__))
            s1),
    (pin_board_elements sc o ++
     tail_board_elements sc o (lower_end + __VERTICAL_OFFSET_BOARDS__)),
    (pin_half_elements sc o ++ pin_full_elements sc o),
    (tail_cut_elements sc o (lower_end + __VERTICAL_OFFSET_BOARDS__)).
  split; [apply (shaper_effect_ok fuel s s1); assumption|].
  split; [unfold added; cbn [current_layer layer_extend];
          now rewrite Hlayer|].
  split; [intros e; apply (cuts_of_the_boards sc o _ e)|].
  split; [intros e; apply (cuts_of_the_boards sc o _ e)|].
  split.
  { rewrite pin_elements_length. unfold Derived.is_odd_tail_count.
    now rewrite parity_as_odd. }
  split; [apply tail_cut_elements_length; exact Hn|].
  intros p b Hp Hb [q [Hq1 Hq2]].
  pose proof (pin_elements_above_lower_end sc o p q Hsc Hv Hp Hq1) as Hup.
  fold lower_end in Hup.
  apply In_nth_error in Hb. destruct Hb as [i Hb].
  assert (Hi : (i < Z.to_nat (num_tails o + 1))%nat).
  { assert (Hsome : nth_error
                      (tail_cut_elements sc o
                         (lower_end + __VERTICAL_OFFSET_BOARDS__)) i
                    <> None) by (rewrite Hb; discriminate).
    apply nth_error_Some in Hsome.
    rewrite tail_cut_elements_length in Hsome; [exact Hsome|exact Hn]. }
  apply tail_cut_elements_nth in Hb. subst b.
  destruct (tail_cut_span_bounds o i Hv Hchk Hi) as (_ & Hab & _).
  cbv zeta in Hab.
  apply inside_box_of in Hq2; [|exact Hsc|lra|].
  - destruct Hq2 as ((Hlow & _) & _).
    apply (bounds_apart sc lower_end
             (lower_end + __VERTICAL_OFFSET_BOARDS__
              - tail_bit_diameter o * __OVERCUTTING_BUFFER_FACTOR__)
             (snd q * sc)); [|exact Hup|exact Hlow].
    unfold __VERTICAL_OFFSET_BOARDS__, __OVERCUTTING_BUFFER_FACTOR__. lra.
  - unfold __OVERCUTTING_BUFFER_FACTOR__,
      __LOWER_OVERCUTTING_BUFFER_DOVETAIL_BIT_FACTOR__. lra.
Qed.

Lemma boards_stay_apart_45 :
  let s := init (options_45 5 20 150 2) 1 [] in
  exists (s' : Extension) (es paths boxes : list Element),
    shaper_effect 4 s = Normal tt s' /\
    added s s' es /\
    (forall e : Element, In e es /\ is_path e = true <-> In e paths) /\
    List.length paths = 2%nat /\
    List.length boxes = 3%nat /\
    forall p b : Element, In p paths -> In b boxes -> ~ overlap p b.
Proof.
  intros s.
  assert (Hv : valid_parameters (options s)) by concrete_parameters.
  assert (Hchk : checks_pass (options s)).
  { apply (check_accepts_iff s Hv).
    exists (after_cut_width s). apply accepts_45; cbn; try lra; try lia. }
  assert (Hsc : inkscape_scale s <> 0) by (cbn; lra).
  assert (Hfuel : (Z.to_nat (num_tails (options s) + 1) < 4)%nat)
    by (cbn; lia).
  assert (Hbit : tail_bit_diameter (options s) * (55 / 100) <= 50)
    by (cbn; lra).
  destruct (boards_stay_apart 4 s Hv Hchk Hsc Hfuel Hbit)
    as (s' & es & paths & boxes & Hrun & Hadd & Hpaths & _ & Hlp & Hlb
        & Hapart).
  exists s', es, paths, boxes.
  split; [exact Hrun|]. split; [exact Hadd|]. split; [exact Hpaths|].
  split; [exact Hlp|]. split; [exact Hlb|exact Hapart].
Defined.

(** ** The pockets of the pin board *)

(** X10. For any number of tails, no two trapezoids of the pin board
    overlap between the two faces of the board. When the cut between the
    tails is at least [2 * delta_x] wide, they do not overlap in the
    buffers above and below the board either. A trapezoid is the region
    that its outline encloses, also where its sides have crossed above the
    board; each one holds the point of its centre line half way through
    the board. *)
Theorem pockets_stay_apart (s : Extension) :
  valid_parameters (options s) ->
  validated s ->
  inkscape_scale s <> 0 ->
  let o := options s in
  let sc := inkscape_scale s in
  let delta_x :=
    pin_bit_diameter o * (55 / 100) * tan (radians (cut_angle o)) in
  exists (end_y : R) (s' : Extension) (paths : list Element),
    add_pin_cuts s = Normal end_y s' /\
    added s s' paths /\
    (forall (i : nat) (e : Element),
       nth_error paths i = Some e ->
       inside e (pin_cut_center o i / sc, pin_thickness o / 2 / sc)) /\
    (forall (i j : nat) (e1 e2 : Element) (p : Point),
       i <> j ->
       nth_error paths i = Some e1 -> nth_error paths j = Some e2 ->
       0 <= snd p * sc <= pin_thickness o ->
       ~ (inside e1 p /\ inside e2 p)) /\
    (2 * delta_x <= Derived.individual_inter_tail_cut_width o ->
     forall (i j : nat) (e1 e2 : Element),
       i <> j ->
       nth_error paths i = Some e1 -> nth_error paths j = Some e2 ->
       ~ overlap e1 e2).
Proof.
  intros Hv Hval Hsc o sc delta_x.
  destruct (validated_inv s Hval) as (_ & Hchk & _). fold o in Hchk, Hv.
  do 3 eexists. split; [apply add_pin_cuts_ok; assumption|].
  split; [apply added_extend|]. fold o sc.
  split; [|split].
  - intros i e He. now apply pin_cut_holds_center.
  - intros i j e1 e2 p Hij H1 H2 Hy.
    now apply (pin_cuts_apart_in_board sc o i j).
  - intros Hwide i j e1 e2 Hij H1 H2.
    apply (pin_cuts_disjoint sc o i j); try assumption.
Qed.

Lemma pockets_stay_apart_45 :
  let s := after_cut_width (init (options_45 5 20 150 3) 1 []) in
  exists (end_y : R) (s' : Extension) (paths : list Element),
    add_pin_cuts s = Normal end_y s' /\
    added s s' paths /\
    forall (i j : nat) (e1 e2 : Element),
      i <> j ->
      nth_error paths i = Some e1 -> nth_error paths j = Some e2 ->
      ~ overlap e1 e2.
Proof.
  intros s.
  assert (Hv : valid_parameters (options s)) by concrete_parameters.
  assert (Hval : validated s).
  { apply validated_45; cbn; try lra; lia. }
  assert (Hsc : inkscape_scale s <> 0) by (cbn; lra).
  destruct (pockets_stay_apart s Hv Hval Hsc)
    as (end_y & s' & paths & Hrun & Hadd & _ & _ & Hwide).
  exists end_y, s', paths. split; [exact Hrun|]. split; [exact Hadd|].
  apply Hwide. subst s. cbn [options after_cut_width after_smaller_width
    after_diameter set_individual_width_of_tail_cut
    set_smaller_width_tails set_upper_tail_diameter
    set_is_odd_number_of_tails set_tan_cut_angle init].
  change (tan (radians (cut_angle (options_45 5 20 150 3))))
    with (Derived.tan_cut_angle (options_45 5 20 150 3)).
  rewrite tan_45.
  unfold Derived.individual_inter_tail_cut_width,
    Derived.cumulative_tail_width. cbn. lra.
Defined.

(** ** The annotations *)

Lemma filter_none {A : Type} (f : A -> bool) (l : list A) :
  (forall e : A, In e l -> f e = false) -> filter f l = [].
Proof.
  induction l as [|a l IH]; intros H; [reflexivity|].
  cbn [filter]. rewrite (H a (or_introl eq_refl)).
  apply IH. intros e He. apply H. now right.
Qed.

(** X11. Of all the elements of the tail board exactly one is bold: the
    annotation that tells the diameter to set for the dovetail bit, which
    is the upper diameter the check stored,
    [tail_bit_diameter - 2 * tan(radians(cut_angle)) * pin_thickness],
    positive and at most the width of the cuts between the tails. Every
    annotation stands at the left edge, at least one line height (6.4 mm)
    below the lower end of the cuts. *)
Theorem diameter_note_matches_check (fuel : nat) (y0 : R) (s : Extension) :
  valid_parameters (options s) ->
  validated s ->
  inkscape_scale s <> 0 ->
  (Z.to_nat (num_tails (options s) + 1) < fuel)%nat ->
  let o := options s in
  let sc := inkscape_scale s in
  let lower_end := y0 + tail_thickness o + tail_bit_diameter o * 1 in
  exists (s' : Extension) (es : list Element) (d x y : R) (st : Style),
    add_tail_board fuel y0 s = Normal tt s' /\
    added s s' es /\
    filter is_bold es = [TextElement x y (CuttingDiameterNote d) st] /\
    In (TextElement x y (CuttingDiameterNote d) st) es /\
    style_bold st = true /\
    upper_tail_diameter s = Some d /\
    d = tail_bit_diameter o - 2 * tan (radians (cut_angle o)) * pin_thickness o /\
    0 < d <= Derived.individual_inter_tail_cut_width o /\
    (forall (x' y' : R) (t : Annotation) (st' : Style),
       In (TextElement x' y' t st') es ->
       (style_bold st' = true -> t = CuttingDiameterNote d) /\
       x' = 0 / sc /\
       exists y_mm : R, y' = y_mm / sc /\ lower_end + 64 / 10 <= y_mm).
Proof.
  intros Hv Hval Hsc Hfuel o sc lower_end.
  destruct (validated_inv s Hval) as ((_ & _ & Hutd & _) & Hchk & _).
  destruct Hchk as (H1 & _ & _ & H4). fold o in H1, H4, Hutd.
  do 6 eexists. split; [apply add_tail_board_ok; assumption|].
  split; [apply added_extend|]. fold o sc.
  unfold tail_board_elements. cbn zeta.
  split.
  { cbn [filter].
    match goal with
    | |- context [is_bold (box_of ?a ?b ?c ?d ?e ?f ?g)] =>
        change (is_bold (box_of a b c d e f g)) with false
    end.
    cbn iota. rewrite filter_app.
    rewrite (filter_none is_bold (tail_cut_elements sc o y0)).
    - reflexivity.
    - intros e He. apply tail_cut_elements_in in He.
      destruct He as (a & b & ->). reflexivity. }
  split.
  { right. apply in_or_app. right. do 4 right. left.
    unfold text_of. reflexivity. }
  split; [reflexivity|]. split; [exact Hutd|].
  split; [reflexivity|].
  split; [lra|].
  intros x' y' t st' Hin.
  destruct Hin as [Hin|Hin]; [discriminate|].
  apply in_app_or in Hin. destruct Hin as [Hin|Hin].
  { apply tail_cut_elements_in in Hin. destruct Hin as (a & b & Hin).
    discriminate. }
  unfold lower_end, __LOWER_OVERCUTTING_BUFFER_DOVETAIL_BIT_FACTOR__,
    __LINE_HEIGHT__, __FONT_SIZE__ in *.
  unfold text_of in Hin.
  destruct Hin as [Hin|Hin]; [discriminate|].
  repeat (destruct Hin as [Hin|Hin];
          [injection Hin as <- <- <- <-;
           (split; [cbn; first [discriminate | reflexivity]|]);
           (split; [reflexivity|]);
           eexists; (split; [reflexivity|]); lra|]).
  contradiction.
Qed.

Lemma diameter_note_matches_check_45 :
  let s := after_cut_width (init (options_45 5 20 150 2) 1 []) in
  exists (s' : Extension) (es : list Element) (d x y : R) (st : Style),
    add_tail_board 4 0 s = Normal tt s' /\
    added s s' es /\
    filter is_bold es = [TextElement x y (CuttingDiameterNote d) st] /\
    style_bold st = true /\
    d = 138 / 10 - 2 * tan (radians 45) * 5.
Proof.
  intros s.
  assert (Hv : valid_parameters (options s)) by concrete_parameters.
  assert (Hval : validated s).
  { apply validated_45; cbn; try lra; lia. }
  assert (Hsc : inkscape_scale s <> 0) by (cbn; lra).
  assert (Hfuel : (Z.to_nat (num_tails (options s) + 1) < 4)%nat)
    by (cbn; lia).
  destruct (diameter_note_matches_check 4 0 s Hv Hval Hsc Hfuel)
    as (s' & es & d & x & y & st & Hrun & Hadd & Hone & _ & Hbold & _ & Hd
        & _).
  exists s', es, d, x, y, st. repeat split; assumption.
Defined.

(** ** Setting type and depth of the selection *)

Lemma for_selection_done (t : RoutingType) (o : TypeAndDepth.Options)
    (selection : list TypeAndDepth.Node) :
  (TypeAndDepth.use_depth o = true ->
   TypeAndDepth.depth_dimension o <> None) ->
  TypeAndDepth.for_selection t o selection =
  TypeAndDepth.Done (map (TypeAndDepth.retyped t o) selection).
Proof.
  intros Hdim. induction selection as [|n rest IH]; [reflexivity|].
  cbn [TypeAndDepth.for_selection map]. rewrite IH.
  unfold TypeAndDepth.retyped, TypeAndDepth.restyle.
  destruct (TypeAndDepth.use_depth o); [|reflexivity].
  destruct (TypeAndDepth.depth_dimension o); [reflexivity|].
  now elim Hdim.
Qed.

(** X12. How setting type and depth ends. A routing type that is not given
    or is not one of the five names raises [KeyError] before any element
    is touched. With a known type, a depth to set and no dimension given,
    the first selected element is restyled and then [TypeError] is raised:
    the rest of the selection is left as it was. Otherwise every selected
    element gets the fill and stroke of the type and the hairline stroke,
    keeps its other style entries, and gets the depth with its dimension
    when a depth is to be set; when none is to be set, a depth the element
    already has stays. *)
Theorem type_and_depth_outcome (o : TypeAndDepth.Options)
    (selection : list TypeAndDepth.Node) :
  (TypeAndDepth.member (TypeAndDepth.routing_type o) = None ->
     TypeAndDepth.shaper_effect o selection
     = TypeAndDepth.Raises TypeAndDepth.KeyError selection) /\
  (forall t : RoutingType,
     TypeAndDepth.member (TypeAndDepth.routing_type o) = Some t ->
     (TypeAndDepth.use_depth o = true ->
      TypeAndDepth.depth_dimension o = None ->
      forall (n : TypeAndDepth.Node) (rest : list TypeAndDepth.Node),
        selection = n :: rest ->
        TypeAndDepth.shaper_effect o selection
        = TypeAndDepth.Raises TypeAndDepth.TypeError
            (TypeAndDepth.restyle t n :: rest)) /\
     ((TypeAndDepth.use_depth o = true ->
       TypeAndDepth.depth_dimension o <> None) ->
      exists selection' : list TypeAndDepth.Node,
        TypeAndDepth.shaper_effect o selection
        = TypeAndDepth.Done selection' /\
        List.length selection' = List.length selection /\
        forall (i : nat) (n : TypeAndDepth.Node),
          nth_error selection i = Some n ->
          exists n' : TypeAndDepth.Node,
            nth_error selection' i = Some n' /\
            style_fill (TypeAndDepth.node_style n') = fill t /\
            style_stroke (TypeAndDepth.node_style n') = stroke t /\
            style_hairline (TypeAndDepth.node_style n') = true /\
            style_font_size (TypeAndDepth.node_style n')
            = style_font_size (TypeAndDepth.node_style n) /\
            style_bold (TypeAndDepth.node_style n')
            = style_bold (TypeAndDepth.node_style n) /\
            TypeAndDepth.node_cut_depth n' =
              (if TypeAndDepth.use_depth o then
                 match TypeAndDepth.depth_dimension o with
                 | Some dimension =>
                     Some (TypeAndDepth.depth o, dimension)
                 | None => TypeAndDepth.node_cut_depth n
                 end
               else TypeAndDepth.node_cut_depth n))).
Proof.
  split.
  - intros Hnone. unfold TypeAndDepth.shaper_effect. now rewrite Hnone.
  - intros t Ht. unfold TypeAndDepth.shaper_effect. rewrite Ht. split.
    + intros Huse Hdim n rest ->.
      cbn [TypeAndDepth.for_selection]. now rewrite Huse, Hdim.
    + intros Hdim. rewrite for_selection_done by assumption.
      eexists. split; [reflexivity|]. split; [apply length_map|].
      intros i n Hn. eexists. split.
      * rewrite nth_error_map, Hn. reflexivity.
      * cbn. repeat split.
Qed.

Lemma type_and_depth_outcome_unknown :
  let o := TypeAndDepth.mkOptions (Some "CUT"%string) true 5
             (Some "mm"%string) in
  let n := TypeAndDepth.mkNode empty_style None in
  TypeAndDepth.shaper_effect o [n]
  = TypeAndDepth.Raises TypeAndDepth.KeyError [n].
Proof.
  intros o n. apply (proj1 (type_and_depth_outcome o [n])). reflexivity.
Defined.

(** X13. Setting type and depth twice: the later run decides the style. It
    also decides the depth when it sets one; when it does not, the depth
    the earlier run set stays. In particular a run repeated with the same
    options changes nothing more. *)
Theorem type_and_depth_twice (o1 o2 : TypeAndDepth.Options)
    (selection s1 s2 : list TypeAndDepth.Node) :
  TypeAndDepth.shaper_effect o1 selection = TypeAndDepth.Done s1 ->
  TypeAndDepth.shaper_effect o2 s1 = TypeAndDepth.Done s2 ->
  TypeAndDepth.shaper_effect o1 s1 = TypeAndDepth.Done s1 /\
  (selection <> [] ->
   TypeAndDepth.use_depth o2 = true ->
   TypeAndDepth.shaper_effect o2 selection = TypeAndDepth.Done s2) /\
  (TypeAndDepth.use_depth o2 = false ->
   forall (i : nat) (n1 n2 : TypeAndDepth.Node),
     nth_error s1 i = Some n1 -> nth_error s2 i = Some n2 ->
     TypeAndDepth.node_cut_depth n2 = TypeAndDepth.node_cut_depth n1 /\
     exists t2 : RoutingType,
       TypeAndDepth.member (TypeAndDepth.routing_type o2) = Some t2 /\
       style_fill (TypeAndDepth.node_style n2) = fill t2 /\
       style_stroke (TypeAndDepth.node_style n2) = stroke t2).
Proof.
  unfold TypeAndDepth.shaper_effect.
  destruct (TypeAndDepth.member (TypeAndDepth.routing_type o1)) as [t1|];
    [|discriminate].
  destruct (TypeAndDepth.member (TypeAndDepth.routing_type o2)) as [t2|];
    [|discriminate].
  intros H1 H2.
  assert (Hdim : forall (t : RoutingType) (o : TypeAndDepth.Options)
            (l l' : list TypeAndDepth.Node),
            l <> [] ->
            TypeAndDepth.for_selection t o l = TypeAndDepth.Done l' ->
            TypeAndDepth.use_depth o = true ->
            TypeAndDepth.depth_dimension o <> None).
  { intros t o l l' Hl Hrun Huse Hnone. destruct l as [|n rest];
      [now elim Hl|].
    cbn [TypeAndDepth.for_selection] in Hrun.
    rewrite Huse, Hnone in Hrun. discriminate. }
  assert (Hmap : forall (t : RoutingType) (o : TypeAndDepth.Options)
            (l l' : list TypeAndDepth.Node),
            TypeAndDepth.for_selection t o l = TypeAndDepth.Done l' ->
            l' = map (TypeAndDepth.retyped t o) l).
  { intros t o l. induction l as [|n rest IH]; intros l' Hrun.
    - cbn in Hrun. now injection Hrun as <-.
    - cbn [TypeAndDepth.for_selection] in Hrun.
      unfold TypeAndDepth.retyped, TypeAndDepth.restyle in *. cbn [map].
      destruct (TypeAndDepth.use_depth o).
      + destruct (TypeAndDepth.depth_dimension o); [|discriminate].
        destruct (TypeAndDepth.for_selection t o rest) as [r|e r];
          [|discriminate].
        injection Hrun as <-. now rewrite (IH r eq_refl).
      + destruct (TypeAndDepth.for_selection t o rest) as [r|e r];
          [|discriminate].
        injection Hrun as <-. now rewrite (IH r eq_refl). }
  pose proof (Hmap _ _ _ _ H1) as E1. pose proof (Hmap _ _ _ _ H2) as E2.
  assert (Hnil : selection = [] -> s1 = []).
  { intros ->. now rewrite E1. }
  split; [|split].
  - destruct selection as [|n rest].
    + rewrite (Hnil eq_refl). reflexivity.
    + assert (Hcons : n :: rest <> []) by discriminate.
      pose proof (Hdim _ _ _ _ Hcons H1) as Hd1.
      rewrite for_selection_done by assumption.
      f_equal. rewrite E1, map_map. apply map_ext.
      intros a. unfold TypeAndDepth.retyped. cbn.
      destruct (TypeAndDepth.use_depth o1); [|reflexivity].
      destruct (TypeAndDepth.depth_dimension o1); reflexivity.
  - intros Hne Huse.
    assert (Hne1 : s1 <> []).
    { rewrite E1. destruct selection; [now elim Hne|discriminate]. }
    pose proof (Hdim _ _ _ _ Hne1 H2 Huse) as Hd2.
    rewrite for_selection_done by (intros _; exact Hd2).
    f_equal. rewrite E2, E1, map_map. apply map_ext.
    intros a. unfold TypeAndDepth.retyped. cbn. rewrite Huse.
    destruct (TypeAndDepth.depth_dimension o2); [reflexivity|].
    now elim Hd2.
  - intros Huse i n1 n2 Hn1 Hn2.
    rewrite E2, nth_error_map, Hn1 in Hn2. injection Hn2 as <-.
    unfold TypeAndDepth.retyped. cbn. rewrite Huse.
    split; [reflexivity|]. exists t2. repeat split.
Qed.

Lemma type_and_depth_twice_pocket :
  let o := TypeAndDepth.mkOptions (Some "POCKET"%string) true 5
             (Some "mm"%string) in
  let n := TypeAndDepth.mkNode empty_style None in
  let n' := TypeAndDepth.mkNode (apply_to POCKET true empty_style)
              (Some (5, "mm"%string)) in
  TypeAndDepth.shaper_effect o [n] = TypeAndDepth.Done [n'] /\
  TypeAndDepth.shaper_effect o [n'] = TypeAndDepth.Done [n'].
Proof.
  intros o n n'.
  assert (H1 : TypeAndDepth.shaper_effect o [n] = TypeAndDepth.Done [n'])
    by reflexivity.
  assert (H2 : TypeAndDepth.shaper_effect o [n'] = TypeAndDepth.Done [n'])
    by reflexivity.
  split; [exact H1|].
  exact (proj1 (type_and_depth_twice o o [n] [n'] [n'] H1 H2)).
Defined.
